(** * nodeftpd: the PORT/PASV data-channel logic, verified against the source

    A shallow embedding of the parts of [src/FtpConnection.js] and
    [src/PassiveListenerPool.js] that decide how a control session sets up its
    data channel:

    - [Js]       : the fragment of JavaScript numbers and strings the code uses;
    - [Address]  : [encodeAddress] and [decodeAddress];
    - [Conn]     : the [PassiveDataConnection] class;
    - [Lst]      : the [Listener] class (waiters keyed by port and address);
    - [Pool]     : [PassiveListenerPool.createDataConnection];
    - [Session]  : the dispatch gate [_onData] and the PORT / EPRT / PASV / EPSV
                   handlers of [FtpConnection], the EPRT argument parser, and
                   the events that reach a session.

    Callbacks of Node's event loop are modelled as explicit events: each handler
    the source registers is a function from state to state (plus what it emits),
    and sequences of events are folded over the state. *)

From Stdlib Require Import ZArith Strings.String Strings.Ascii.
From stdpp Require Import gmap strings list fin_maps pretty.

Open Scope string_scope.
Open Scope Z_scope.

(* ===================================================================== *)
(** ** JavaScript numbers and strings *)
(* ===================================================================== *)

Module Js.

(** A JavaScript number as the code meets it: an integer or [NaN].  The value
    [undefined] (a missing array element, a missing property) is the [None] of
    an [option]. *)
Inductive number := Num (z : Z) | NaN.

#[global] Instance number_eq_dec : EqDecision number.
Proof. solve_decision. Defined.

(** [ToNumber(undefined)] is [NaN]. *)
Definition ToNumber (v : option number) : number :=
  match v with Some n => n | None => NaN end.

(** [ToInt32]: [NaN] becomes 0, an integer wraps to the signed 32-bit range. *)
Definition wrap32 (z : Z) : Z := (z + 2^31) mod 2^32 - 2^31.

Definition ToInt32 (n : number) : Z :=
  match n with Num z => wrap32 z | NaN => 0 end.

(** [a << k] *)
Definition shl (a : option number) (k : Z) : number :=
  Num (wrap32 (Z.shiftl (ToInt32 (ToNumber a)) (k mod 32))).

(** [a + b] on numbers. *)
Definition add (a b : number) : number :=
  match a, b with
  | Num x, Num y => Num (x + y)
  | _, _ => NaN
  end.

(** [a > b]: every comparison with [NaN] is false. *)
Definition gt (a b : number) : bool :=
  match a, b with
  | Num x, Num y => y <? x
  | _, _ => false
  end.

(** [String(n)]. *)
Definition toString (n : number) : string :=
  match n with Num z => pretty z | NaN => "NaN" end.

Definition is_digit (c : ascii) : bool :=
  let n := nat_of_ascii c in (48 <=? n)%nat && (n <=? 57)%nat.

Definition digit_value (c : ascii) : Z := Z.of_nat (nat_of_ascii c) - 48.

(** The value of the leading run of decimal digits of [s], continuing from
    [acc]. *)
Fixpoint parse_digits (acc : Z) (s : string) : Z :=
  match s with
  | String c s' => if is_digit c then parse_digits (10 * acc + digit_value c) s' else acc
  | EmptyString => acc
  end.

(** [parseInt(s, 10)] on the strings the code applies it to (they have passed
    a regular expression of digits): the leading digits, [NaN] when there is
    none. *)
Definition parseInt (s : string) : number :=
  match s with
  | String c _ => if is_digit c then Num (parse_digits 0 s) else NaN
  | EmptyString => NaN
  end.

(** [s.split(sep)] for a one-character separator: never empty. *)
Fixpoint split (sep : ascii) (s : string) : list string :=
  match s with
  | EmptyString => [EmptyString]
  | String c s' =>
      if Ascii.eqb c sep then EmptyString :: split sep s'
      else match split sep s' with
           | p :: ps => String c p :: ps
           | [] => [String c EmptyString]
           end
  end.

(** [parts.join(sep)]. *)
Fixpoint join (sep : string) (parts : list string) : string :=
  match parts with
  | [] => ""
  | [p] => p
  | p :: ps => p +:+ sep +:+ join sep ps
  end.

(** [s.indexOf(c) !== -1]. *)
Fixpoint contains (c : ascii) (s : string) : bool :=
  match s with
  | EmptyString => false
  | String d s' => Ascii.eqb d c || contains c s'
  end.

(** [arr.pop()] read as a value: the last element. *)
Definition pop (l : list string) : option string := last l.

(** A text is kept as the bytes of its UTF-8 form.  Text of the ASCII range
    is text whose bytes are all below 128; there a byte is a character. *)
Definition is_ascii (c : ascii) : bool := (nat_of_ascii c <? 128)%nat.

Definition ascii_text (s : string) : bool :=
  forallb is_ascii (list_ascii_of_string s).

(** What the runtime does with text outside the ASCII range.  There
    [String.prototype.trim], [toUpperCase] and the white space [parseInt]
    skips follow the tables of Unicode (more white space, letters whose upper
    case is another letter or several), and [buffer.toString('utf-8')]
    replaces bytes that are no UTF-8.  These tables are no part of the model:
    the functions are taken as they are, and are consulted for such text
    only. *)
Record runtime := {
  toString_other : string -> string;
  trim_other : string -> string;
  toUpperCase_other : string -> string;
  parseInt_other : string -> number;
}.

(** [buffer.toString('utf-8')] *)
Definition Buffer_toString (rt : runtime) (data : string) : string :=
  if ascii_text data then data else toString_other rt data.

(** White space in the ASCII range: tab, line feed, vertical tab, form feed,
    carriage return and space. *)
Definition is_space (c : ascii) : bool :=
  let n := nat_of_ascii c in ((9 <=? n)%nat && (n <=? 13)%nat) || (n =? 32)%nat.

Fixpoint trimStart (s : string) : string :=
  match s with
  | String c s' => if is_space c then trimStart s' else s
  | EmptyString => EmptyString
  end.

(** Drops the trailing white space: a character is kept when something that
    is kept follows it, or when it is not white space itself. *)
Fixpoint trimEnd (s : string) : string :=
  match s with
  | String c s' =>
      match trimEnd s' with
      | EmptyString => if is_space c then EmptyString else String c EmptyString
      | r => String c r
      end
  | EmptyString => EmptyString
  end.

(** [s.trim()]: on ASCII text the white space at both ends is dropped. *)
Definition trim (rt : runtime) (s : string) : string :=
  if ascii_text s then trimEnd (trimStart s) else trim_other rt s.

Definition upper_ascii (c : ascii) : ascii :=
  let n := nat_of_ascii c in
  if (97 <=? n)%nat && (n <=? 122)%nat then ascii_of_nat (n - 32) else c.

Fixpoint upper_text (s : string) : string :=
  match s with
  | String c s' => String (upper_ascii c) (upper_text s')
  | EmptyString => EmptyString
  end.

(** [s.toUpperCase()]: on ASCII text the letters a to z are replaced. *)
Definition toUpperCase (rt : runtime) (s : string) : string :=
  if ascii_text s then upper_text s else toUpperCase_other rt s.

(** [[0-9]{lo,hi}] against the whole of [s]. *)
Definition all_digits (s : string) : bool :=
  forallb is_digit (list_ascii_of_string s).

Definition digits_between (lo hi : nat) (s : string) : bool :=
  all_digits s && (lo <=? String.length s)%nat && (String.length s <=? hi)%nat.

End Js.

(* ===================================================================== *)
(** ** Address encoding ([FtpConnection.js], lines 18-47 and 334-360) *)
(* ===================================================================== *)

Module Address.
Import Js.

(** [ENCODED_ADDRESS = /^[0-9]{1,3}(,[0-9]{1,3}){5}$/].  A string matches iff
    cutting it at the commas gives exactly six pieces of one to three digits. *)
Definition ENCODED_ADDRESS_test (encoded : string) : bool :=
  let parts := split "," encoded in
  (length parts =? 6)%nat && forallb (digits_between 1 3) parts.

Record endpoint := { host : string; port : number }.

#[global] Instance endpoint_eq_dec : EqDecision endpoint.
Proof. solve_decision. Defined.

(** [encodeAddress(host, port)] *)
Definition encodeAddress (h : string) (p : Z) : string :=
  let i1 := wrap32 (Z.quot p 256) in
  let i2 := Z.rem p 256 in
  join "," (split "." h) +:+ "," +:+ pretty i1 +:+ "," +:+ pretty i2.

(** [decodeAddress(encoded)]; [None] is the source's [null].  The port is
    computed from [octets[5]] and [octets[6]], exactly as the source does. *)
Definition decodeAddress (encoded : string) : option endpoint :=
  if negb (ENCODED_ADDRESS_test encoded) then None
  else
    let octets := map parseInt (split "," encoded) in
    let isOutOfRange := existsb (fun n => gt n (Num 255)) octets in
    if isOutOfRange then None
    else Some {| host := join "." (map toString (take 4 octets));
                 port := add (shl (octets !! 5%nat) 8) (ToNumber (octets !! 6%nat)) |}.

End Address.

(* ===================================================================== *)
(** ** The control session ([FtpConnection.js]) *)
(* ===================================================================== *)

Module Session.
Import Js Address.

(** The three command tables come from [Constants.js], a file the session
    imports and that is not among the sources at hand. *)

(** Modelled from the spec: [Constants.COMMANDS_NO_AUTH], the set NO_AUTH of
    the spec's data model. *)
Definition COMMANDS_NO_AUTH : list string :=
  ["USER"; "PASS"; "QUIT"; "FEAT"; "AUTH"; "OPTS"; "NOOP"; "SYST"; "TYPE";
   "PBSZ"; "PROT"].

(** Modelled from the spec: [Constants.COMMANDS_REQUIRE_DATA_SOCKET], the set
    REQUIRES_DATA_SOCKET of the spec's data model. *)
Definition COMMANDS_REQUIRE_DATA_SOCKET : list string :=
  ["LIST"; "NLST"; "RETR"; "STOR"; "APPE"].

(** Modelled from the spec: [Constants.COMMANDS_SUPPORTED], the commands of the
    spec's section 4.F. *)
Definition COMMANDS_SUPPORTED : list string :=
  ["USER"; "PASS"; "QUIT"; "SYST"; "NOOP"; "TYPE"; "ACCT"; "ALLO"; "FEAT";
   "OPTS"; "PWD"; "CWD"; "CDUP"; "MKD"; "RMD"; "DELE"; "RNFR"; "RNTO";
   "SIZE"; "MDTM"; "PORT"; "EPRT"; "PASV"; "EPSV"; "AUTH"; "PBSZ"; "PROT";
   "LIST"; "NLST"; "STAT"; "RETR"; "STOR"; "APPE"].

(** [TABLE[command] === true] *)
Definition has_command (table : list string) (command : string) : bool :=
  existsb (String.eqb command) table.

(** What the session reads from its server object, and the runtime whose
    String methods it calls. *)
Record server := {
  server_host : string;     (* [server.host] *)
  tlsOnly : bool;           (* [server.options.tlsOnly] *)
  js : runtime;             (* the runtime the server runs on *)
}.

(** The passive data connection as the session holds it: an object identity
    and its immutable [port]. *)
Record dataConn := { conn_id : nat; conn_port : Z }.

#[global] Instance dataConn_eq_dec : EqDecision dataConn.
Proof. solve_decision. Defined.

(** A socket, by identity. *)
Definition socket := nat.

(** The fields of [FtpConnection] that the dispatch gate and the data-channel
    handlers read or write (constructor, lines 50-80). *)
Record t := {
  allowedCommands : option (list string);
  dataPort : number;
  dataHost : option string;
  dataConnection : option dataConn;
  dataSocket : option socket;
  _isEstablishingDataConnection : bool;
  _hasReceivedPASV : bool;
  _hasReceivedPORT : bool;
  username : option string;
  isWaitingForPassword : bool;
  hasQuit : bool;
  secure : bool;
}.

(** [new FtpConnection(options)] *)
Definition create (allowed : option (list string)) : t :=
  {| allowedCommands := allowed;
     dataPort := Num 20;
     dataHost := None;
     dataConnection := None;
     dataSocket := None;
     _isEstablishingDataConnection := false;
     _hasReceivedPASV := false;
     _hasReceivedPORT := false;
     username := None;
     isWaitingForPassword := false;
     hasQuit := false;
     secure := false |}.

(** Field assignments. *)
Definition set_dataPort (v : number) (s : t) : t :=
  {| allowedCommands := allowedCommands s; dataPort := v; dataHost := dataHost s;
     dataConnection := dataConnection s; dataSocket := dataSocket s;
     _isEstablishingDataConnection := _isEstablishingDataConnection s;
     _hasReceivedPASV := _hasReceivedPASV s; _hasReceivedPORT := _hasReceivedPORT s;
     username := username s; isWaitingForPassword := isWaitingForPassword s;
     hasQuit := hasQuit s; secure := secure s |}.

Definition set_dataHost (v : option string) (s : t) : t :=
  {| allowedCommands := allowedCommands s; dataPort := dataPort s; dataHost := v;
     dataConnection := dataConnection s; dataSocket := dataSocket s;
     _isEstablishingDataConnection := _isEstablishingDataConnection s;
     _hasReceivedPASV := _hasReceivedPASV s; _hasReceivedPORT := _hasReceivedPORT s;
     username := username s; isWaitingForPassword := isWaitingForPassword s;
     hasQuit := hasQuit s; secure := secure s |}.

Definition set_dataConnection (v : option dataConn) (s : t) : t :=
  {| allowedCommands := allowedCommands s; dataPort := dataPort s; dataHost := dataHost s;
     dataConnection := v; dataSocket := dataSocket s;
     _isEstablishingDataConnection := _isEstablishingDataConnection s;
     _hasReceivedPASV := _hasReceivedPASV s; _hasReceivedPORT := _hasReceivedPORT s;
     username := username s; isWaitingForPassword := isWaitingForPassword s;
     hasQuit := hasQuit s; secure := secure s |}.

Definition set_dataSocket (v : option socket) (s : t) : t :=
  {| allowedCommands := allowedCommands s; dataPort := dataPort s; dataHost := dataHost s;
     dataConnection := dataConnection s; dataSocket := v;
     _isEstablishingDataConnection := _isEstablishingDataConnection s;
     _hasReceivedPASV := _hasReceivedPASV s; _hasReceivedPORT := _hasReceivedPORT s;
     username := username s; isWaitingForPassword := isWaitingForPassword s;
     hasQuit := hasQuit s; secure := secure s |}.

Definition set_isEstablishingDataConnection (v : bool) (s : t) : t :=
  {| allowedCommands := allowedCommands s; dataPort := dataPort s; dataHost := dataHost s;
     dataConnection := dataConnection s; dataSocket := dataSocket s;
     _isEstablishingDataConnection := v;
     _hasReceivedPASV := _hasReceivedPASV s; _hasReceivedPORT := _hasReceivedPORT s;
     username := username s; isWaitingForPassword := isWaitingForPassword s;
     hasQuit := hasQuit s; secure := secure s |}.

Definition set_hasReceivedPASV (v : bool) (s : t) : t :=
  {| allowedCommands := allowedCommands s; dataPort := dataPort s; dataHost := dataHost s;
     dataConnection := dataConnection s; dataSocket := dataSocket s;
     _isEstablishingDataConnection := _isEstablishingDataConnection s;
     _hasReceivedPASV := v; _hasReceivedPORT := _hasReceivedPORT s;
     username := username s; isWaitingForPassword := isWaitingForPassword s;
     hasQuit := hasQuit s; secure := secure s |}.

Definition set_hasReceivedPORT (v : bool) (s : t) : t :=
  {| allowedCommands := allowedCommands s; dataPort := dataPort s; dataHost := dataHost s;
     dataConnection := dataConnection s; dataSocket := dataSocket s;
     _isEstablishingDataConnection := _isEstablishingDataConnection s;
     _hasReceivedPASV := _hasReceivedPASV s; _hasReceivedPORT := v;
     username := username s; isWaitingForPassword := isWaitingForPassword s;
     hasQuit := hasQuit s; secure := secure s |}.

Definition set_username (v : option string) (s : t) : t :=
  {| allowedCommands := allowedCommands s; dataPort := dataPort s; dataHost := dataHost s;
     dataConnection := dataConnection s; dataSocket := dataSocket s;
     _isEstablishingDataConnection := _isEstablishingDataConnection s;
     _hasReceivedPASV := _hasReceivedPASV s; _hasReceivedPORT := _hasReceivedPORT s;
     username := v; isWaitingForPassword := isWaitingForPassword s;
     hasQuit := hasQuit s; secure := secure s |}.

Definition set_isWaitingForPassword (v : bool) (s : t) : t :=
  {| allowedCommands := allowedCommands s; dataPort := dataPort s; dataHost := dataHost s;
     dataConnection := dataConnection s; dataSocket := dataSocket s;
     _isEstablishingDataConnection := _isEstablishingDataConnection s;
     _hasReceivedPASV := _hasReceivedPASV s; _hasReceivedPORT := _hasReceivedPORT s;
     username := username s; isWaitingForPassword := v;
     hasQuit := hasQuit s; secure := secure s |}.

Definition set_hasQuit (v : bool) (s : t) : t :=
  {| allowedCommands := allowedCommands s; dataPort := dataPort s; dataHost := dataHost s;
     dataConnection := dataConnection s; dataSocket := dataSocket s;
     _isEstablishingDataConnection := _isEstablishingDataConnection s;
     _hasReceivedPASV := _hasReceivedPASV s; _hasReceivedPORT := _hasReceivedPORT s;
     username := username s; isWaitingForPassword := isWaitingForPassword s;
     hasQuit := v; secure := secure s |}.

Definition set_secure (v : bool) (s : t) : t :=
  {| allowedCommands := allowedCommands s; dataPort := dataPort s; dataHost := dataHost s;
     dataConnection := dataConnection s; dataSocket := dataSocket s;
     _isEstablishingDataConnection := _isEstablishingDataConnection s;
     _hasReceivedPASV := _hasReceivedPASV s; _hasReceivedPORT := _hasReceivedPORT s;
     username := username s; isWaitingForPassword := isWaitingForPassword s;
     hasQuit := hasQuit s; secure := v |}.

(** What a handler does besides changing the session's fields. *)
Inductive action :=
  | Respond (message : string)
      (* [this.respond(message)]: a reply line on the control socket *)
  | CreateDataConnection (host : string) (useTLS isExtendedPASV : bool)
      (* [passiveListenerPool.createDataConnection(host, {useTLS}, callback)],
         with the [isExtendedPASV] its callback has captured *)
  | EmitCommandUser (name : string)
  | EmitCommandPass (password : string)
      (* [this.emit('command:user' | 'command:pass', ...)] *)
  | EmitDataConnectionEstablished
  | DestroyDataConnection (c : dataConn)
  | CloseControlSocket
  | CloseDataSocket (sock : socket)
  | Handler (command commandArg : string).
      (* [this['__' + command](commandArg, command)] for a handler that is not
         unfolded in this model: it touches none of the fields of [t] *)

#[global] Instance action_eq_dec : EqDecision action.
Proof. solve_decision. Defined.

(** The reply lines among some actions. *)
Definition replies (acts : list action) : list string :=
  omap (fun a => match a with Respond m => Some m | _ => None end) acts.

(** How a call ends: with a value, or with an exception. *)
Inductive outcome (A : Type) := Returned (a : A) | Thrown (what : string).
Arguments Returned {A} a.
Arguments Thrown {A} what.

Section WithServer.
Variable srv : server.

Definition _isAuthenticated (s : t) : bool :=
  match username s with
  | Some u => negb (String.eqb u "")
  | None => false
  end.

Definition _doesRequireDataConnection (command : string) : bool :=
  has_command COMMANDS_REQUIRE_DATA_SOCKET command.

Definition _hasReceivedDataConnectionRequest (s : t) : bool :=
  _isEstablishingDataConnection s || bool_decide (dataConnection s <> None).

(** [_parseEPRT]: the pattern
    [/^\|1\|([0-9]{1,3}\.[0-9]{1,3}\.[0-9]{1,3}\.[0-9]{1,3})\|([0-9]{1,5})/]
    is matched from the left; each group of digits is greedy, and a group that
    a literal follows has to end where its digits end. *)
Definition expect (c : ascii) (s : string) : option string :=
  match s with
  | String d s' => if Ascii.eqb d c then Some s' else None
  | EmptyString => None
  end.

Fixpoint digits_upto (n : nat) (s : string) : string * string :=
  match n, s with
  | S n', String c s' =>
      if is_digit c then let '(d, r) := digits_upto n' s' in (String c d, r)
      else (EmptyString, s)
  | _, _ => (EmptyString, s)
  end.

Definition digits_1_to (n : nat) (s : string) : option (string * string) :=
  match digits_upto n s with
  | (EmptyString, _) => None
  | (d, r) => Some (d, r)
  end.

(** The groups [m[1]] and [m[2]] of a match. *)
Definition EPRT_match (commandArg : string) : option (string * string) :=
  s0 ← expect "|" commandArg;
  s1 ← expect "1" s0;
  s2 ← expect "|" s1;
  '(a, s3) ← digits_1_to 3 s2;
  s4 ← expect "." s3;
  '(b, s5) ← digits_1_to 3 s4;
  s6 ← expect "." s5;
  '(c, s7) ← digits_1_to 3 s6;
  s8 ← expect "." s7;
  '(d, s9) ← digits_1_to 3 s8;
  s10 ← expect "|" s9;
  '(p, _) ← digits_1_to 5 s10;
  Some (a +:+ "." +:+ b +:+ "." +:+ c +:+ "." +:+ d, p).

(** [_parseEPRT(commandArg)]: the replies it sends and what it returns
    ([None] for [undefined]). *)
Definition _parseEPRT (commandArg : string)
  : list action * outcome (option (string * number)) :=
  if (3 <=? String.length commandArg)%nat
     && bool_decide (String.get 0 commandArg = Some "|"%char)
     && bool_decide (String.get 2 commandArg = Some "|"%char)
     && bool_decide (String.get 1 commandArg = Some "2"%char)
  then ([Respond "522 Server cannot handle IPv6 EPRT commands, use (1)"], Returned None)
  else
    match EPRT_match commandArg with
    | None => ([Respond "501 Bad Argument to EPRT"], Returned None)
    | Some (m1, m2) =>
        match parseInt m2 with
        | NaN => ([], Thrown "Impossible NaN in FtpConnection.prototype._PORT (2)")
        | Num r =>
            if (65535 <? r) || (r <=? 0)
            then ([Respond "501 Bad argument to EPRT (invalid port number)"], Returned None)
            else ([], Returned (Some (m1, Num r)))
        end
    end.

(** [_onDataConnection(socket)], and the handlers it registers on the socket. *)
Definition _onDataConnection (s : t) (sock : socket) : t * list action :=
  let s := set_dataSocket (Some sock) s in
  if _isEstablishingDataConnection s
  then (set_isEstablishingDataConnection false s, [EmitDataConnectionEstablished])
  else (s, []).

(** [socket.on('error', ...)] *)
Definition dataSocket_onError (s : t) : t * list action :=
  (set_dataSocket None s, []).

(** [allOver(name)], on ['close'] and on ['end'] *)
Definition dataSocket_allOver (s : t) : t * list action :=
  match dataSocket s with
  | None => (s, [])
  | Some _ => (set_dataSocket None s, [])
  end.

(** The handlers [_initiateData] registers on the socket it dials. *)
Definition active_onConnect (s : t) (sock : socket) : t * list action :=
  (set_dataSocket (Some sock) s, []).

Definition active_allOver (s : t) : t * list action :=
  (set_dataSocket None s, []).

Definition active_onError (s : t) (sock : socket) : t * list action :=
  (set_dataSocket None s, [CloseDataSocket sock]).

(** [_closeDataConnections()] *)
Definition _closeDataConnections (s : t) : t * list action :=
  match dataConnection s with
  | Some c => (set_dataConnection None s, [DestroyDataConnection c])
  | None => (s, [])
  end.

(** [_onClose(hadError)]; the control socket itself is not a field of [t]. *)
Definition _onClose (s : t) : t * list action :=
  let '(s, a1) :=
    match dataSocket s with
    | Some sock => (set_dataSocket None s, [CloseDataSocket sock])
    | None => (s, [])
    end in
  let a2 := [CloseControlSocket] in
  let '(s, a3) :=
    match dataConnection s with
    | Some c => (set_dataConnection None s, [DestroyDataConnection c])
    | None => (s, [])
    end in
  (s, (a1 ++ a2 ++ a3)%list).

(** [__PORT(commandArg)] *)
Definition __PORT (s : t) (commandArg : string) : t * list action :=
  if _hasReceivedPASV s || _hasReceivedPORT s
  then (s, [Respond "503 Bad sequence of commands."])
  else
    let s := set_hasReceivedPORT true s in
    (* [let {host, port} = decodeAddress(commandArg) || {}] *)
    let decoded := decodeAddress commandArg in
    let host := Address.host <$> decoded in
    let port := Address.port <$> decoded in
    match host, port with
    | Some h, Some p =>
        (set_dataPort p (set_dataHost (Some h) s), [Respond "200 OK"])
    | _, _ =>
        (* [host == null || port == null] *)
        (s, [Respond "501 Bad argument to PORT"])
    end.

(** [__EPRT(commandArg, command)] *)
Definition __EPRT (s : t) (commandArg : string) : t * list action :=
  __PORT s commandArg.

(** [__PASV(commandArg, command)] up to the call of the pool. *)
Definition __PASV (s : t) (commandArg command : string) : t * list action :=
  if _hasReceivedPASV s || _hasReceivedPORT s
  then (s, [Respond "503 Bad sequence of commands."])
  else
    let s := set_hasReceivedPASV true s in
    let isExtendedPASV := String.eqb command "EPSV" in
    let s := set_isEstablishingDataConnection true s in
    (s, [CreateDataConnection (server_host srv) (secure s) isExtendedPASV]).

(** The callback [__PASV] hands to the pool: [None] is an error. *)
Definition PASV_callback (s : t) (isExtendedPASV : bool) (r : option dataConn)
  : t * list action :=
  match r with
  | None =>
      (set_isEstablishingDataConnection false s,
       [Respond "421 Server was unable to open passive connection listener"])
  | Some dc =>
      let s := set_dataConnection (Some dc) s in
      let port := conn_port dc in
      if isExtendedPASV
      then (s, [Respond ("229 Entering Extended Passive Mode (|||" +:+ pretty port +:+ "|)")])
      else (s, [Respond ("227 Entering Passive Mode ("
                         +:+ encodeAddress (server_host srv) port +:+ ")")])
  end.

(** [__EPSV(commandArg, command)] *)
Definition __EPSV (s : t) (commandArg command : string) : t * list action :=
  if negb (String.eqb commandArg "") && negb (String.eqb commandArg "1")
  then (s, [Respond "202 Not supported"])
  else __PASV s commandArg command.

(** [__QUIT()], and the callback of its reply. *)
Definition __QUIT (s : t) : t * list action :=
  (set_hasQuit true s, [Respond "221 Goodbye"]).

Definition QUIT_callback (s : t) : t * list action :=
  let '(s, a) := _closeDataConnections s in
  (s, CloseControlSocket :: a).

(** [__USER(username)] and the two callbacks it passes to the hook. *)
Definition __USER (s : t) (name : string) : t * list action :=
  if tlsOnly srv && negb (secure s)
  then (s, [Respond ("530 This server does not permit login over a non-secure connection; "
                     +:+ "connect using FTP-SSL with explicit AUTH TLS")])
  else (s, [EmitCommandUser name]).

Definition USER_success (s : t) : t * list action :=
  (set_isWaitingForPassword true s, [Respond "331 User name okay, need password."]).

Definition USER_failure (s : t) : t * list action :=
  (s, [Respond "530 Not logged in."]).

(** [__PASS(password)] and its callbacks; [resolved] tells whether
    [getInitialCwd] and [getRoot] both gave a value. *)
Definition __PASS (s : t) (password : string) : t * list action :=
  if negb (isWaitingForPassword s)
  then (s, [Respond "503 Bad sequence of commands."])
  else (set_isWaitingForPassword false s, [EmitCommandPass password]).

Definition PASS_success (s : t) (name : string) (resolved : bool) : t * list action :=
  let s := set_username (Some name) s in
  if resolved then (s, [Respond "230 User logged in, proceed."])
  else (s, [Respond "421 Service not available, closing control connection.";
            CloseControlSocket]).

Definition PASS_failure (s : t) : t * list action :=
  (set_username None s, [Respond "530 Not logged in."]).

(** [_execCommand(command, commandArg)] *)
Definition _execCommand (s : t) (command commandArg : string) : t * list action :=
  if String.eqb command "PORT" then __PORT s commandArg
  else if String.eqb command "EPRT" then __EPRT s commandArg
  else if String.eqb command "PASV" then __PASV s commandArg command
  else if String.eqb command "EPSV" then __EPSV s commandArg command
  else if String.eqb command "QUIT" then __QUIT s
  else if String.eqb command "USER" then __USER s commandArg
  else if String.eqb command "PASS" then __PASS s commandArg
  else (s, [Handler command commandArg]).

(** The command and its argument, as [_onData] cuts them out of a line. *)
Definition parseCommand (data : string) : string * string :=
  let data := trim (js srv) (Buffer_toString (js srv) data) in
  let parts := split " " data in
  let command := toUpperCase (js srv) (hd "" parts) in
  let commandArg := trim (js srv) (join " " (tl parts)) in
  (command, commandArg).

(** The dispatch gate of [_onData], from the test of [COMMANDS_SUPPORTED] on. *)
Definition dispatch (s : t) (command commandArg : string) : t * list action :=
  if negb (has_command COMMANDS_SUPPORTED command)
     || match allowedCommands s with
        | Some allowed => negb (has_command allowed command)
        | None => false
        end
  then (s, [Respond "502 Command not implemented."])
  else if has_command COMMANDS_NO_AUTH command
  then _execCommand s command commandArg
  else if negb (secure s) && tlsOnly srv
  then (s, [Respond "522 Protection level not sufficient; send AUTH TLS"])
  else if negb (_isAuthenticated s)
  then (s, [Respond "530 Not logged in."])
  else if _doesRequireDataConnection command
          && negb (_hasReceivedDataConnectionRequest s)
  then (s, [Respond "425 Data connection not configured; send PASV or PORT"])
  else _execCommand s command commandArg.

(** [_onData(data)] *)
Definition _onData (s : t) (data : string) : t * list action :=
  if hasQuit s then (s, [])
  else let '(command, commandArg) := parseCommand data in
       dispatch s command commandArg.

(** Everything that reaches the session: a line on the control socket, or one
    of the callbacks above being called by the event loop. *)
Inductive event :=
  | Data (data : string)
  | PasvCallback (isExtendedPASV : bool) (r : option dataConn)
  | DataConnectionReady (sock : socket)
  | DataSocketError
  | DataSocketClose
  | DataSocketEnd
  | ActiveConnect (sock : socket)
  | ActiveEnd
  | ActiveClose
  | ActiveError (sock : socket)
  | UserSuccess
  | UserFailure
  | PassSuccess (name : string) (resolved : bool)
  | PassFailure
  | SwitchToSecure
  | QuitReplied
  | Close.

Definition step (s : t) (e : event) : t * list action :=
  match e with
  | Data data => _onData s data
  | PasvCallback ext r => PASV_callback s ext r
  | DataConnectionReady sock => _onDataConnection s sock
  | DataSocketError => dataSocket_onError s
  | DataSocketClose | DataSocketEnd => dataSocket_allOver s
  | ActiveConnect sock => active_onConnect s sock
  | ActiveEnd | ActiveClose => active_allOver s
  | ActiveError sock => active_onError s sock
  | UserSuccess => USER_success s
  | UserFailure => USER_failure s
  | PassSuccess name resolved => PASS_success s name resolved
  | PassFailure => PASS_failure s
  | SwitchToSecure => (set_secure true s, [])
  | QuitReplied => QUIT_callback s
  | Close => _onClose s
  end.

(** A run: the events in order, with what each one made the session do. *)
Fixpoint run (s : t) (es : list event) : t * list (list action) :=
  match es with
  | [] => (s, [])
  | e :: es' =>
      let '(s1, a) := step s e in
      let '(s2, rest) := run s1 es' in
      (s2, a :: rest)
  end.

Definition state_after (s : t) (es : list event) : t := fst (run s es).

(** The reply lines of a run, one list per event. *)
Definition transcript (s : t) (es : list event) : list (list string) :=
  map replies (snd (run s es)).

(** The data sub-state of the spec, read off the session's flags. *)
Inductive substate := NONE | ACTIVE | PASSIVE_PENDING | PASSIVE_READY.

Definition data_substate (s : t) : substate :=
  if _hasReceivedPORT s then ACTIVE
  else if _hasReceivedPASV s then
    match dataSocket s with
    | Some _ => PASSIVE_READY
    | None => PASSIVE_PENDING
    end
  else NONE.

End WithServer.

(** *** Vocabulary of the statements about a session *)

(** One of the two flags is set. *)
Definition received (s : t) : bool := _hasReceivedPASV s || _hasReceivedPORT s.

(** The commands that ask for a data channel. *)
Definition asks_for_channel (command commandArg : string) : Prop :=
  command = "PASV" \/ command = "PORT" \/ command = "EPRT"
  \/ (command = "EPSV" /\ (commandArg = "" \/ commandArg = "1")).

(** The dispatch gate lets a command of an authenticated client through. *)
Definition gate_open (srv : server) (s : t) (command : string) : bool :=
  negb (hasQuit s)
  && has_command COMMANDS_SUPPORTED command
  && match allowedCommands s with
     | Some allowed => has_command allowed command
     | None => true
     end
  && (secure s || negb (tlsOnly srv))
  && _isAuthenticated s.

(** A step only ever sets the two flags. *)
Definition keeps_flags (s s' : t) : Prop :=
  (_hasReceivedPASV s = true -> _hasReceivedPASV s' = true)
  /\ (_hasReceivedPORT s = true -> _hasReceivedPORT s' = true).

(** The events with which a transfer ends: the data socket closes, ends or
    fails. *)
Definition ends_transfer (e : event) : bool :=
  match e with
  | DataSocketError | DataSocketClose | DataSocketEnd
  | ActiveEnd | ActiveClose | ActiveError _ => true
  | _ => false
  end.

(** *** A session for the examples *)

(** The lines of the examples are ASCII text: what the runtime does with
    other text is not consulted for them. *)
Definition ascii_only : runtime :=
  {| toString_other := fun s => s; trim_other := fun s => s;
     toUpperCase_other := fun s => s; parseInt_other := fun _ => NaN |}.

Definition srv0 : server :=
  {| server_host := "127.0.0.1"; tlsOnly := false; js := ascii_only |}.

(** A client logs in. *)
Definition login : list event :=
  [Data "USER alice"; UserSuccess; Data "PASS secret"; PassSuccess "alice" true].

Definition logged_in : t := state_after srv0 (create None) login.

(** A passive listing from PASV to the close of the data socket. *)
Definition passive_listing : list event :=
  [Data "PASV"; PasvCallback false (Some {| conn_id := 0; conn_port := 44005 |});
   DataConnectionReady 7%nat; Data "LIST"; DataSocketClose].

End Session.

(* ===================================================================== *)
(** ** A JavaScript [Map] with string keys *)
(* ===================================================================== *)

(** Entries in insertion order, as [Map] iterates them. *)
Module JsMap.

Abbreviation t V := (list (string * V)).

Section WithValues.
Context {V : Type}.
Implicit Type m : t V.

Definition keys m : list string := map fst m.

(** [m.get(k)]; [None] is [undefined]. *)
Fixpoint get (k : string) m : option V :=
  match m with
  | [] => None
  | (k', v) :: m' => if String.eqb k' k then Some v else get k m'
  end.

(** [m.has(k)] *)
Definition has (k : string) m : bool :=
  match get k m with Some _ => true | None => false end.

(** [m.set(k, v)]: a present key keeps its place, a new one goes last. *)
Fixpoint set (k : string) (v : V) m : t V :=
  match m with
  | [] => [(k, v)]
  | (k', v') :: m' =>
      if String.eqb k' k then (k, v) :: m' else (k', v') :: set k v m'
  end.

(** [m.delete(k)] *)
Fixpoint delete (k : string) m : t V :=
  match m with
  | [] => []
  | (k', v') :: m' =>
      if String.eqb k' k then delete k m' else (k', v') :: delete k m'
  end.

(** [m.size] *)
Definition size m : nat := length m.

(** The number of entries filed under [k]. *)
Definition count (k : string) m : nat :=
  length (filter (fun e => fst e = k) m).

(** No key is filed twice. *)
Definition unique_keys m : Prop := NoDup (keys m).

End WithValues.
End JsMap.

(* ===================================================================== *)
(** ** [PassiveDataConnection] ([PassiveListenerPool.js], lines 36-127) *)
(* ===================================================================== *)

(** [emit] is modelled as the delivery of the event to whoever listens: the
    emitted events are the output of each method.  ['error'] is the exception:
    an emitter without a listener for it throws the error instead, so the
    object records whether one is registered.  A call scheduled with
    [process.nextTick] is an output too, run later as a step of its own. *)
Module Conn.

Inductive CONNECTION_STATE := WAITING | INITIALIZING_TLS | READY | CLOSED.

#[global] Instance CONNECTION_STATE_eq_dec : EqDecision CONNECTION_STATE.
Proof. solve_decision. Defined.

(** Maximum time we will wait for client to connect after PASV command. *)
Definition WAIT_TIMEOUT : Z := 9000.

(** An accepted socket: its identity, what [socket.address().address]
    reports (the address of its local end), and [socket.remoteAddress] (the
    address of the peer). *)
Record socket := { sock_id : nat; sock_address : string; sock_remoteAddress : string }.

#[global] Instance socket_eq_dec : EqDecision socket.
Proof. solve_decision. Defined.

(** An [Error] object: its message and the properties the code reads. *)
Record error := {
  message : string;
  code : option string;
  err_address : option string;
  err_port : option Z;
}.

#[global] Instance error_eq_dec : EqDecision error.
Proof. solve_decision. Defined.

(** [Object.assign(new Error(message), props)] with the result of
    [listenError(errorCode, address, port)]. *)
Definition listenError (errorCode address : string) (port : Z) : error :=
  {| message := "listen " +:+ errorCode +:+ " " +:+ address +:+ ":" +:+ pretty port;
     code := Some errorCode;
     err_address := Some address;
     err_port := Some port |}.

(** [new Error(`Expected a connection within ${WAIT_TIMEOUT}ms`)] *)
Definition timeoutError : error :=
  {| message := "Expected a connection within " +:+ pretty WAIT_TIMEOUT +:+ "ms";
     code := None; err_address := None; err_port := None |}.

Record options := { useTLS : bool }.

(** The object.  [_timer] is the pending timeout, by the time at which it is
    due; [None] once it has been cleared or has fired.  [on_error] tells
    whether somebody has registered a listener for ['error'] on it. *)
Record t := {
  port : Z;
  remoteAddress : string;
  state : CONNECTION_STATE;
  _useTLS : bool;
  _socket : option socket;
  _timer : option Z;
  on_error : bool;
}.

(** The events a connection emits. *)
Inductive emitted :=
  | ready (sock : socket)
  | error_ (e : error)
  | close
  | listenerError (e : error)
  | listenerReady.

#[global] Instance emitted_eq_dec : EqDecision emitted.
Proof. solve_decision. Defined.

(** What a method gives out: an event emitted now, a [_close] deferred with
    [process.nextTick], a socket destroyed. *)
Inductive output :=
  | Emit (ev : emitted)
  | NextTick_close
  | SocketDestroy (sock : socket)
  | Uncaught (e : error).
      (* the error thrown out of a callback of the event loop *)

#[global] Instance output_eq_dec : EqDecision output.
Proof. solve_decision. Defined.

Inductive outcome := Returned | Thrown (what : string).

Definition set_state (v : CONNECTION_STATE) (c : t) : t :=
  {| port := port c; remoteAddress := remoteAddress c; state := v;
     _useTLS := _useTLS c; _socket := _socket c; _timer := _timer c;
     on_error := on_error c |}.

Definition set_socket (v : option socket) (c : t) : t :=
  {| port := port c; remoteAddress := remoteAddress c; state := state c;
     _useTLS := _useTLS c; _socket := v; _timer := _timer c;
     on_error := on_error c |}.

Definition set_timer (v : option Z) (c : t) : t :=
  {| port := port c; remoteAddress := remoteAddress c; state := state c;
     _useTLS := _useTLS c; _socket := _socket c; _timer := v;
     on_error := on_error c |}.

(** [connection.on('error', listener)] *)
Definition set_on_error (v : bool) (c : t) : t :=
  {| port := port c; remoteAddress := remoteAddress c; state := state c;
     _useTLS := _useTLS c; _socket := _socket c; _timer := _timer c;
     on_error := v |}.

(** [new PassiveDataConnection(port, remoteAddress, options)] at time [now]. *)
Definition create (now : Z) (p : Z) (remote : string) (o : options) : t :=
  {| port := p;
     remoteAddress := remote;
     state := WAITING;
     _useTLS := useTLS o;
     _socket := None;
     _timer := Some (now + WAIT_TIMEOUT);
     on_error := false |}.

Definition getSocket (c : t) : option socket := _socket c.

(** [_close()] *)
Definition _close (c : t) : t * list output :=
  if decide (state c = CLOSED) then (c, [])
  else (set_state CLOSED c, [Emit close]).

(** [_onError(error)].  Without a listener for ['error'], [this.emit] throws
    the error, and the call of [process.nextTick] is not reached. *)
Definition _onError (c : t) (e : error) : t * list output * outcome :=
  if on_error c
  then (c, [Emit (error_ e); NextTick_close], Returned)
  else (c, [], Thrown (message e)).

(** [_onError] as a callback of the event loop (of the timer, of the
    socket's ['error']): what it throws is caught by nobody. *)
Definition _onError_callback (c : t) (e : error) : t * list output :=
  match _onError c e with
  | (c', out, Returned) => (c', out)
  | (c', out, Thrown _) => (c', (out ++ [Uncaught e])%list)
  end.

(** [setSocket(socket)].  With [_useTLS] the method goes on to
    [_upgradeConnection], whose first statement reads [this.options]: the
    constructor stores no such property, so the read of [tlsOptions] throws. *)
Definition setSocket (c : t) (sock : socket) : t * list output * outcome :=
  match _socket c with
  | Some _ =>
      (c, [], Thrown "PassiveDataConnection: method setSocket() called more than once.")
  | None =>
      let c := set_timer None c in
      if negb (_useTLS c)
      then (set_state READY (set_socket (Some sock) c), [Emit (ready sock)], Returned)
      else (set_state INITIALIZING_TLS c, [], Thrown "TypeError")
  end.

(** [destroy()]: with a socket, the socket is destroyed and its ['close']
    comes back later as an event. *)
Definition destroy (c : t) : t * list output :=
  match _socket c with
  | Some sock => (c, [SocketDestroy sock])
  | None => _close c
  end.

(** What happens to a connection.  [Timeout now] is the event loop looking at
    the timer at time [now]; it runs the callback when the timer is pending and
    due.  The socket events exist once [setSocket] has registered
    [_onError] and [_close] on the socket.  [Tick] runs one deferred
    [_close].  [On_error] is somebody registering a listener for ['error']
    on the connection. *)
Inductive event :=
  | SetSocket (sock : socket)
  | Destroy
  | Timeout (now : Z)
  | SocketError (e : error)
  | SocketClose
  | Tick
  | On_error.

(** A connection with its deferred calls. *)
Record world := { conn : t; ticks : nat }.

Definition timer_due (c : t) (now : Z) : bool :=
  match _timer c with
  | Some due => due <=? now
  | None => false
  end.

Definition has_handlers (c : t) : bool :=
  match _socket c with Some _ => true | None => false end.

Definition count_ticks (out : list output) : nat :=
  length (filter (fun o => o = NextTick_close) out).

Definition step (w : world) (e : event) : world * list output :=
  let c := conn w in
  match e with
  | SetSocket sock =>
      let '(c', out, _) := setSocket c sock in
      ({| conn := c'; ticks := ticks w |}, out)
  | Destroy =>
      let '(c', out) := destroy c in
      ({| conn := c'; ticks := ticks w |}, out)
  | Timeout now =>
      if timer_due c now then
        let '(c', out) := _onError_callback (set_timer None c) timeoutError in
        ({| conn := c'; ticks := (ticks w + count_ticks out)%nat |}, out)
      else (w, [])
  | SocketError e =>
      if has_handlers c then
        let '(c', out) := _onError_callback c e in
        ({| conn := c'; ticks := (ticks w + count_ticks out)%nat |}, out)
      else (w, [])
  | SocketClose =>
      if has_handlers c then
        let '(c', out) := _close c in
        ({| conn := c'; ticks := ticks w |}, out)
      else (w, [])
  | Tick =>
      match ticks w with
      | O => (w, [])
      | S n =>
          let '(c', out) := _close c in
          ({| conn := c'; ticks := n |}, out)
      end
  | On_error => ({| conn := set_on_error true c; ticks := ticks w |}, [])
  end.

Fixpoint run (w : world) (es : list event) : world * list output :=
  match es with
  | [] => (w, [])
  | e :: es' =>
      let '(w1, out) := step w e in
      let '(w2, rest) := run w1 es' in
      (w2, (out ++ rest)%list)
  end.

(** How often [ev] is emitted in some output. *)
Definition emissions (ev : emitted) (out : list output) : nat :=
  length (filter (fun o => o = Emit ev) out).

(** The event is a call of [setSocket]. *)
Definition installs (e : event) : bool :=
  match e with SetSocket _ => true | _ => false end.

(** *** Vocabulary of the statements about the timer *)

(** An event that comes before the time [due] and is no call of
    [setSocket]. *)
Definition early (due : Z) (e : event) : bool :=
  match e with
  | SetSocket _ => false
  | Timeout now => now <? due
  | _ => true
  end.

(** A connection that still waits for its socket, with its timer pending:
    it is WAITING and has emitted no ['close'], or it was destroyed and has
    emitted one. *)
Definition waiting_or_destroyed (due : Z) (w : world) (out : list output) : Prop :=
  _socket (conn w) = None
  /\ _timer (conn w) = Some due
  /\ ticks w = O
  /\ emissions (error_ timeoutError) out = O
  /\ ((state (conn w) = WAITING /\ emissions close out = O)
      \/ (state (conn w) = CLOSED /\ emissions close out = 1%nat)).

(** Once a socket is held the timer is not pending, and stays so. *)
Definition installed_inv (w : world) : Prop :=
  _socket (conn w) = None \/ _timer (conn w) = None.

(** A connection somebody listens to for ['error'] that was closed without
    ever holding a socket: nothing is pending any more. *)
Definition spent (w : world) : Prop :=
  _socket (conn w) = None /\ _timer (conn w) = None /\ ticks w = O
  /\ state (conn w) = CLOSED /\ on_error (conn w) = true.

(** The event that registers a listener for ['error']. *)
Definition listens (e : event) : bool :=
  match e with On_error => true | _ => false end.

End Conn.

(* ===================================================================== *)
(** ** [Listener] ([PassiveListenerPool.js], lines 129-271) *)
(* ===================================================================== *)

Module Lst.
Import Js.

Inductive LISTENER_STATE := INITIALIZING | LISTENING | CLOSED.

#[global] Instance LISTENER_STATE_eq_dec : EqDecision LISTENER_STATE.
Proof. solve_decision. Defined.

(** The connections, by object identity: the identity of a connection is its
    index, a new one is appended. *)
Definition heap := list Conn.t.

(** The [net.Server] of a listener: which of the listener's handlers are
    registered on it. *)
Record netServer := {
  on_startingError : bool;
  on_runningError : bool;
  on_listening : bool;
  on_connection : bool;
}.

#[global] Instance netServer_eq_dec : EqDecision netServer.
Proof. solve_decision. Defined.

(** The object.  [_stopHooks] counts the handlers that [_stop] has registered
    on the listener's own ['listening'] event. *)
Record t := {
  port : Z;
  bindAddress : string;
  state : LISTENER_STATE;
  _waitingConnections : JsMap.t nat;
  _allConnections : list nat;
  _server : option netServer;
  _stopping : bool;
  _stopHooks : nat;
}.

(** What a method gives out. *)
Inductive output :=
  | Emit (c : nat) (ev : Conn.emitted)        (* [connection.emit(...)] *)
  | NextTick_emit (c : nat) (ev : Conn.emitted)
      (* [process.nextTick(() => connection.emit(...))] *)
  | EmitListening                             (* [this.emit('listening')] *)
  | EmitError (e : Conn.error)                (* [this.emit('error', error)] *)
  | FromConnection (c : nat) (o : Conn.output)
  | SocketDestroy (sock : Conn.socket)
  | ServerListen (p : Z) (address : string)
  | ServerClose.

#[global] Instance output_eq_dec : EqDecision output.
Proof. solve_decision. Defined.

Definition set_state (v : LISTENER_STATE) (l : t) : t :=
  {| port := port l; bindAddress := bindAddress l; state := v;
     _waitingConnections := _waitingConnections l;
     _allConnections := _allConnections l; _server := _server l;
     _stopping := _stopping l; _stopHooks := _stopHooks l |}.

Definition set_waitingConnections (v : JsMap.t nat) (l : t) : t :=
  {| port := port l; bindAddress := bindAddress l; state := state l;
     _waitingConnections := v;
     _allConnections := _allConnections l; _server := _server l;
     _stopping := _stopping l; _stopHooks := _stopHooks l |}.

Definition set_allConnections (v : list nat) (l : t) : t :=
  {| port := port l; bindAddress := bindAddress l; state := state l;
     _waitingConnections := _waitingConnections l;
     _allConnections := v; _server := _server l;
     _stopping := _stopping l; _stopHooks := _stopHooks l |}.

Definition set_server (v : option netServer) (l : t) : t :=
  {| port := port l; bindAddress := bindAddress l; state := state l;
     _waitingConnections := _waitingConnections l;
     _allConnections := _allConnections l; _server := v;
     _stopping := _stopping l; _stopHooks := _stopHooks l |}.

Definition set_stopping (v : bool) (l : t) : t :=
  {| port := port l; bindAddress := bindAddress l; state := state l;
     _waitingConnections := _waitingConnections l;
     _allConnections := _allConnections l; _server := _server l;
     _stopping := v; _stopHooks := _stopHooks l |}.

Definition set_stopHooks (v : nat) (l : t) : t :=
  {| port := port l; bindAddress := bindAddress l; state := state l;
     _waitingConnections := _waitingConnections l;
     _allConnections := _allConnections l; _server := _server l;
     _stopping := _stopping l; _stopHooks := v |}.

(** [new Listener(port, bindAddress)] *)
Definition create (p : Z) (address : string) : t :=
  {| port := p;
     bindAddress := address;
     state := CLOSED;
     _waitingConnections := [];
     _allConnections := [];
     _server := None;
     _stopping := false;
     _stopHooks := O |}.

(** [port + '|' + remoteAddress] *)
Definition key (p : Z) (remoteAddress : string) : string :=
  pretty p +:+ "|" +:+ remoteAddress.

(** [_startServer()] *)
Definition _startServer (l : t) : t * list output :=
  let server := {| on_startingError := true; on_runningError := false;
                   on_listening := true; on_connection := true |} in
  (set_state INITIALIZING (set_server (Some server) l),
   [ServerListen (port l) (bindAddress l)]).

(** [_stopServer()]: the handlers are removed and the server closed.  The
    source calls it only in state [LISTENING] and from a handler of the server
    itself. *)
Definition _stopServer (l : t) : t * list output :=
  match _server l with
  | Some _ => (set_server None l, [ServerClose])
  | None => (l, [])
  end.

(** [_stop()] *)
Definition _stop (l : t) : t * list output :=
  if _stopping l then (l, [])
  else if decide (state l = INITIALIZING)
  then (set_stopHooks (S (_stopHooks l)) (set_stopping true l), [])
  else
    let '(l, out) :=
      if decide (state l = LISTENING) then _stopServer l else (l, []) in
    (set_state CLOSED l, out).

(** The handler [_stop] registers on ['listening']. *)
Definition stopHook (l : t) : t * list output :=
  _stop (set_stopping false l).

(** [_stopIfDone()] *)
Definition _stopIfDone (l : t) : t * list output :=
  if negb (JsMap.size (_waitingConnections l) =? 0)%nat then (l, [])
  else _stop l.

(** The handler [listenForClient] registers on the ['close'] of the
    connection [c] it has filed under [k]. *)
Definition closeHook (k : string) (c : nat) (l : t) : t * list output :=
  let l := set_allConnections (filter (fun x => x <> c) (_allConnections l)) l in
  let l := set_waitingConnections (JsMap.delete k (_waitingConnections l)) l in
  _stopIfDone l.

(** [listenForClient(remoteAddress, options)] at time [now]: the listener and
    the heap afterwards, the connection returned, and what was given out. *)
Definition listenForClient (now : Z) (l : t) (h : heap)
    (remoteAddress : string) (o : Conn.options)
  : t * heap * nat * list output :=
  let k := key (port l) remoteAddress in
  let connection := length h in
  let h := (h ++ [Conn.create now (port l) remoteAddress o])%list in
  if JsMap.has k (_waitingConnections l)
  then
    (l, h, connection,
     [NextTick_emit connection
        (Conn.listenerError (Conn.listenError "EADDRINUSE" (bindAddress l) (port l)))])
  else
    let l := set_allConnections (_allConnections l ++ [connection])%list l in
    let l := set_waitingConnections (JsMap.set k connection (_waitingConnections l)) l in
    if decide (state l = LISTENING)
    then (l, h, connection, [NextTick_emit connection Conn.listenerReady])
    else if decide (state l = CLOSED)
    then let '(l, out) := _startServer l in (l, h, connection, out)
    else (l, h, connection, []).

(** [_onStartingError(error)] *)
Definition _onStartingError (l : t) (e : Conn.error) : t * list output :=
  let out := map (fun kc => Emit (snd kc) (Conn.listenerError e))
                 (_waitingConnections l) in
  (set_state CLOSED (set_waitingConnections [] l), out).

(** [_onRunningError(error)] *)
Definition _onRunningError (l : t) (e : Conn.error) : t * list output :=
  let '(l, out) := _stopServer l in
  (set_state CLOSED l, (out ++ [EmitError e])%list).

(** Running [n] times the handler that [_stop] registered. *)
Fixpoint run_stopHooks (n : nat) (l : t) : t * list output :=
  match n with
  | O => (l, [])
  | S n' =>
      let '(l1, o1) := stopHook l in
      let '(l2, o2) := run_stopHooks n' l1 in
      (l2, (o1 ++ o2)%list)
  end.

(** [_onReady()] *)
Definition _onReady (l : t) : t * list output :=
  let l :=
    match _server l with
    | Some srv =>
        set_server (Some {| on_startingError := false; on_runningError := true;
                            on_listening := on_listening srv;
                            on_connection := on_connection srv |}) l
    | None => l
    end in
  let l := set_state LISTENING l in
  let '(l, hooks) := run_stopHooks (_stopHooks l) l in
  let out := map (fun kc => Emit (snd kc) Conn.listenerReady)
                 (_waitingConnections l) in
  (l, (EmitListening :: hooks ++ out)%list).

(** The address under which an accepted socket is looked up: for an address
    with a colon, what follows the last colon. *)
Definition unwrap (address : string) : string :=
  if contains ":" address
  then match pop (split ":" address) with
       | Some last => last
       | None => address
       end
  else address.

(** [_onConnection(socket)] *)
Definition _onConnection (l : t) (h : heap) (sock : Conn.socket)
  : t * heap * list output * Conn.outcome :=
  let remoteAddress := unwrap (Conn.sock_address sock) in
  let k := key (port l) remoteAddress in
  match JsMap.get k (_waitingConnections l) with
  | None => (l, h, [SocketDestroy sock], Conn.Returned)
  | Some connection =>
      let l := set_waitingConnections (JsMap.delete k (_waitingConnections l)) l in
      match h !! connection with
      | Some c =>
          let '(c', out, res) := Conn.setSocket c sock in
          (l, <[connection := c']> h, map (FromConnection connection) out, res)
      | None => (l, h, [], Conn.Thrown "TypeError")
      end
  end.

(** A connection of port [p] for [remoteAddress] that is in state WAITING. *)
Definition waits_for (p : Z) (remoteAddress : string) (c : Conn.t) : bool :=
  bool_decide (Conn.state c = Conn.WAITING)
  && bool_decide (Conn.port c = p)
  && bool_decide (Conn.remoteAddress c = remoteAddress).

(** The listeners the code can produce: a new one, and what each method and
    each registered handler makes of one. *)
Inductive reachable : t -> Prop :=
  | reach_create p address :
      reachable (create p address)
  | reach_listenForClient l now h remoteAddress o :
      reachable l -> reachable (listenForClient now l h remoteAddress o).1.1.1
  | reach_closeHook l k c :
      reachable l -> reachable (closeHook k c l).1
  | reach_onConnection l h sock :
      reachable l -> reachable (_onConnection l h sock).1.1.1
  | reach_onReady l :
      reachable l -> reachable (_onReady l).1
  | reach_onStartingError l e :
      reachable l -> reachable (_onStartingError l e).1
  | reach_onRunningError l e :
      reachable l -> reachable (_onRunningError l e).1.

End Lst.

(* ===================================================================== *)
(** ** [PassiveListenerPool] ([PassiveListenerPool.js], lines 273-311) *)
(* ===================================================================== *)

Module Pool.

Definition DEFAULT_BIND_ADDRESS : string := "0.0.0.0".
Definition DEFAULT_MIN_PORT : Z := 44001.
Definition DEFAULT_MAX_PORT : Z := 44010.

Record t := {
  _bindAddress : string;
  _minPort : Z;
  _maxPort : Z;
  _listeners : gmap Z Lst.t;
}.

(** [v || d] for a port that may be missing: zero is falsy too. *)
Definition port_or (v : option Z) (d : Z) : Z :=
  match v with
  | Some 0 | None => d
  | Some p => p
  end.

(** [new PassiveListenerPool(options)] *)
Definition create (bindAddress : option string) (portRange : option Z * option Z) : t :=
  {| _bindAddress := match bindAddress with
                     | Some "" | None => DEFAULT_BIND_ADDRESS
                     | Some a => a
                     end;
     _minPort := port_or (fst portRange) DEFAULT_MIN_PORT;
     _maxPort := port_or (snd portRange) DEFAULT_MAX_PORT;
     _listeners := ∅ |}.

Definition set_listeners (v : gmap Z Lst.t) (pl : t) : t :=
  {| _bindAddress := _bindAddress pl; _minPort := _minPort pl;
     _maxPort := _maxPort pl; _listeners := v |}.

(** The pool and the connections it has handed out. *)
Record world := { pool : t; conns : Lst.heap }.

(** How binding a port ends, as the operating system decides it. *)
Inductive bind_result := Bound | Failed (e : Conn.error).

(** What [createDataConnection] does with its callback; [Pending] is a run
    that was cut short. *)
Inductive result :=
  | Callback_error (e : Conn.error)
  | Callback_ok (dataConnection : nat)
  | Pending.

#[global] Instance result_eq_dec : EqDecision result.
Proof. solve_decision. Defined.

(** [this._listeners.get(port)], or a new listener. *)
Definition listener_at (pl : t) (p : Z) : Lst.t :=
  match _listeners pl !! p with
  | Some l => l
  | None => Lst.create p (_bindAddress pl)
  end.

(** [startListener()] for the current [port]: the connection it assigns to
    [dataConnection] and what the listener gave out. *)
Definition startListener (now : Z) (w : world) (remoteAddress : string)
    (o : Conn.options) (p : Z) : world * nat * list Lst.output :=
  let listener := listener_at (pool w) p in
  let '(l, h, c, out) := Lst.listenForClient now listener (conns w) remoteAddress o in
  ({| pool := set_listeners (<[p := l]> (_listeners (pool w))) (pool w); conns := h |},
   c, out).

(** The first ['listenerError'] or ['listenerReady'] that reaches the
    connection [c], at once or on the next tick. *)
Fixpoint first_signal (c : nat) (out : list Lst.output) : option Conn.emitted :=
  match out with
  | [] => None
  | o :: out' =>
      match o with
      | Lst.Emit c' ev | Lst.NextTick_emit c' ev =>
          if decide (c' = c) then
            match ev with
            | Conn.listenerError _ | Conn.listenerReady => Some ev
            | _ => first_signal c out'
            end
          else first_signal c out'
      | _ => first_signal c out'
      end
  end.

(** The server of port [p] finishes binding. *)
Definition settle (w : world) (p : Z) (b : bind_result) : world * list Lst.output :=
  let '(l, out) :=
    match b with
    | Bound => Lst._onReady (listener_at (pool w) p)
    | Failed e => Lst._onStartingError (listener_at (pool w) p) e
    end in
  ({| pool := set_listeners (<[p := l]> (_listeners (pool w))) (pool w);
      conns := conns w |}, out).

(** The events [createDataConnection] listens for. *)
Definition is_signal (ev : Conn.emitted) : bool :=
  match ev with
  | Conn.listenerError _ | Conn.listenerReady => true
  | _ => false
  end.

(** An output that carries no event for a connection. *)
Definition quiet (o : Lst.output) : bool :=
  match o with
  | Lst.Emit _ _ | Lst.NextTick_emit _ _ => false
  | _ => true
  end.

(** The world with the listener of port [p] replaced. *)
Definition with_listener (w : world) (p : Z) (l : Lst.t) (h : Lst.heap) : world :=
  {| pool := set_listeners (<[p := l]> (_listeners (pool w))) (pool w); conns := h |}.

Section Run.
(** The outcome of the bind of each port, and the time of the call. *)
Variable bind : Z -> bind_result.
Variable now : Z.
Variable remoteAddress : string.
Variable o : Conn.options.

(** The signal that reaches the new connection [c]: the one [listenForClient]
    has scheduled, or else the one sent to the waiters when the bind of port
    [p] ends. *)
Definition await (w : world) (c : nat) (out : list Lst.output) (p : Z)
  : world * option Conn.emitted :=
  match first_signal c out with
  | Some ev => (w, Some ev)
  | None =>
      let '(w, out) := settle w p (bind p) in
      (w, first_signal c out)
  end.

(** The closures of [createDataConnection], run in the order the event loop
    calls them when nothing else is going on: [startListener], then [onError]
    or [onSuccess] for the signal that reaches the new connection.  [more]
    bounds the number of further ports. *)
Fixpoint attempt (more : nat) (w : world) (p : Z) : world * result :=
  let '(w, c, out) := startListener now w remoteAddress o p in
  let '(w, signal) := await w c out p in
  match signal with
  | Some (Conn.listenerError e) =>
      (* [onError(error)] *)
      if bool_decide (Conn.code e = Some "EADDRINUSE") && (p <? _maxPort (pool w))
      then match more with
           | S more' => attempt more' w (p + 1)
           | O => (w, Pending)
           end
      else (w, Callback_error e)
  | Some _ =>
      (* [onSuccess()] *)
      (w, Callback_ok c)
  | None => (w, Pending)
  end.

(** [createDataConnection(remoteAddress, options, callback)] *)
Definition createDataConnection (w : world) : world * result :=
  attempt (Z.to_nat (_maxPort (pool w) - _minPort (pool w))) w (_minPort (pool w)).

(** How a port stands for [remoteAddress] before the call. *)
Inductive verdict := Free | Busy | Broken (e : Conn.error).

Definition collides (w : world) (p : Z) : bool :=
  let l := listener_at (pool w) p in
  JsMap.has (Lst.key (Lst.port l) remoteAddress) (Lst._waitingConnections l).

Definition is_listening (w : world) (p : Z) : bool :=
  bool_decide (Lst.state (listener_at (pool w) p) = Lst.LISTENING).

Definition verdict_of (w : world) (p : Z) : verdict :=
  if collides w p then Busy
  else if is_listening w p then Free
  else match bind p with
       | Bound => Free
       | Failed e =>
           if bool_decide (Conn.code e = Some "EADDRINUSE") then Busy else Broken e
       end.

(** What one attempt leaves of the world: the bounds and the bind address,
    the listeners of the other ports, and one more connection. *)
Definition frame (w : world) (p : Z) (w1 : world) : Prop :=
  _minPort (pool w1) = _minPort (pool w)
  /\ _maxPort (pool w1) = _maxPort (pool w)
  /\ _bindAddress (pool w1) = _bindAddress (pool w)
  /\ (forall q, q <> p -> _listeners (pool w1) !! q = _listeners (pool w) !! q)
  /\ conns w1
     = (conns w ++ [Conn.create now (Lst.port (listener_at (pool w) p)) remoteAddress o])%list.

(** What [attempt] answers from port [p] on, by the verdicts on the ports. *)
Definition answers (w : world) (p : Z) (r : world * result) : Prop :=
  r.2 <> Pending
  /\ (forall q,
        p <= q <= _maxPort (pool w) ->
        (forall x, p <= x < q -> verdict_of w x = Busy) ->
        match verdict_of w q with
        | Free =>
            exists c,
              r.2 = Callback_ok c
              /\ conns r.1 !! c
                 = Some (Conn.create now (Lst.port (listener_at (pool w) q))
                           remoteAddress o)
        | Broken e => r.2 = Callback_error e
        | Busy => True
        end)
  /\ ((forall x, p <= x <= _maxPort (pool w) -> verdict_of w x = Busy) ->
      exists e, r.2 = Callback_error e /\ Conn.code e = Some "EADDRINUSE").

End Run.

(** Every listener sits under its own port. *)
Definition wf (pl : t) : Prop :=
  forall p l, _listeners pl !! p = Some l -> Lst.port l = p.

(** *** A machine for the examples *)

Definition EADDRINUSE_44001 : Conn.error := Conn.listenError "EADDRINUSE" "0.0.0.0" 44001.

(** A machine on which port 44001 is taken by another program. *)
Definition bind_44001_taken (p : Z) : bind_result :=
  if p =? 44001 then Failed EADDRINUSE_44001 else Bound.

End Pool.

(* ===================================================================== *)
(** ** Uploads kept in memory ([FtpConnection.js], lines 626-726) *)
(* ===================================================================== *)

(** [_storeUsingWriteFile(filename, flag)]: the chunks of an upload are
    collected in a buffer that grows, and written with one [fs.writeFile] when
    the data socket closes. *)
Module Upload.

Definition byte := Byte.byte.

(** A [Buffer] is its bytes; its [length] is the length of the list. *)
Definition buffer := list byte.

(** [source.copy(target, targetStart, sourceStart, sourceEnd)]: the target
    afterwards.  What does not fit into the target is not copied. *)
Definition copy (source target : buffer) (targetStart sourceStart sourceEnd : nat)
  : buffer :=
  let piece := take (sourceEnd - sourceStart) (drop sourceStart source) in
  let piece := take (length target - targetStart) piece in
  (take targetStart target ++ piece ++ drop (targetStart + length piece) target)%list.

(** [b.slice(0, n)] read as a value. *)
Definition slice0 (b : buffer) (n : nat) : buffer := take n b.

(** What the function reads from the server and from the user's [fs]. *)
Record env := {
  uploadMaxSlurpSize : option Z;     (* [server.options.uploadMaxSlurpSize] *)
  has_createWriteStream : bool;      (* [this.fs.createWriteStream] is there *)
}.

(** The variables the three handlers close over, and which of the handlers
    are registered on the data socket. *)
Record t := {
  slurpBuf : buffer;
  totalBytes : nat;
  erroredOut : bool;
  on_data : bool;
  on_close : bool;
  on_error : bool;
}.

Inductive action :=
  | Respond (message : string)
  | EmitStorOpen                                   (* ['file:stor', 'open'] *)
  | EmitContents (data : buffer)                   (* ['file:stor:contents'] *)
  | WriteFile (data : buffer) (flag : string)      (* [fs.writeFile(...)] *)
  | EmitStorClose (filesize : nat) (errorState : bool)
  | CloseSocket (shouldDestroy : bool)             (* [_closeSocket(dataSocket, ...)] *)
  | StoreUsingCreateWriteStream (initialBuffers : list buffer) (flag : string)
  | WhenDataReady.                                 (* [_whenDataReady(handleUpload)] *)

Inductive outcome := Returned | Thrown (what : string).

Definition set_buf (b : buffer) (n : nat) (s : t) : t :=
  {| slurpBuf := b; totalBytes := n; erroredOut := erroredOut s;
     on_data := on_data s; on_close := on_close s; on_error := on_error s |}.

Definition set_erroredOut (v : bool) (s : t) : t :=
  {| slurpBuf := slurpBuf s; totalBytes := totalBytes s; erroredOut := v;
     on_data := on_data s; on_close := on_close s; on_error := on_error s |}.

Definition set_handlers (d c e : bool) (s : t) : t :=
  {| slurpBuf := slurpBuf s; totalBytes := totalBytes s; erroredOut := erroredOut s;
     on_data := d; on_close := c; on_error := e |}.

Section WithMemory.
(** [new Buffer(n)] gives [n] bytes of memory that was not cleared. *)
Variable alloc : nat -> buffer.
Variable cfg : env.
(** The [flag] argument: ['w'] from STOR, ['a'] from APPE. *)
Variable flag : string.

(** [flag || 'w'] *)
Definition flag_or_w : string := if String.eqb flag "" then "w" else flag.

(** The body of [_storeUsingWriteFile] up to the reply 150. *)
Definition _storeUsingWriteFile : t * list action :=
  ({| slurpBuf := alloc 1024; totalBytes := 0; erroredOut := false;
      on_data := false; on_close := false; on_error := false |},
   [EmitStorOpen; Respond "150 Ok to send data"]).

(** The callback of that reply. *)
Definition respond_callback (s : t) : t * list action := (s, [WhenDataReady]).

(** [handleUpload()] *)
Definition handleUpload (s : t) : t * list action :=
  (set_handlers true true true s, []).

(** [dataHandler(buf)]; [dataSocket] tells whether [this.dataSocket] is set. *)
Definition dataHandler (s : t) (dataSocket : bool) (buf : buffer)
  : t * list action * outcome :=
  let needed := (totalBytes s + length buf)%nat in
  if match uploadMaxSlurpSize cfg with
     | Some limit => limit <? Z.of_nat needed
     | None => false
     end
  then
    if negb (has_createWriteStream cfg)
    then
      (s, ((if dataSocket then [CloseSocket true] else [])
           ++ [Respond "552 Requested file action aborted; file too big"])%list,
       Returned)
    else
      let out := [StoreUsingCreateWriteStream
                    [slice0 (slurpBuf s) (totalBytes s); buf] flag] in
      if dataSocket
      then (set_handlers false false false s, out, Returned)
      else (s, out, Thrown "TypeError")
  else
    let slurp :=
      if (length (slurpBuf s) <? needed)%nat
      then
        let newLength := (length (slurpBuf s) * 2)%nat in
        let newLength := if (newLength <? needed)%nat then needed else newLength in
        copy (slurpBuf s) (alloc newLength) 0 0 (totalBytes s)
      else slurpBuf s in
    (set_buf (copy buf slurp (totalBytes s) 0 (length buf)) needed s, [], Returned).

(** [closeHandler()] *)
Definition closeHandler (s : t) : t * list action :=
  if erroredOut s then (s, [])
  else
    let data := slice0 (slurpBuf s) (totalBytes s) in
    (s, [EmitContents data; WriteFile data flag_or_w]).

(** The callback of [fs.writeFile]. *)
Definition writeFile_callback (s : t) (dataSocket : bool) (err : bool)
  : t * list action :=
  if err
  then (set_erroredOut true s,
        (EmitStorClose (totalBytes s) true
         :: (if dataSocket then [CloseSocket true] else [])
         ++ [Respond "426 Connection closed; transfer aborted"])%list)
  else (s,
        (EmitStorClose (totalBytes s) false
         :: Respond "226 Closing data connection"
         :: (if dataSocket then [CloseSocket false] else []))%list).

(** [errorHandler()] *)
Definition errorHandler (s : t) : t * list action :=
  (set_erroredOut true s, []).

(** What reaches the upload: the reply 150 is written, the data socket is
    there, and then the events of the data socket and the end of the write.
    ['close'] and ['error'] are registered with [once]. *)
Inductive event :=
  | Replied
  | Ready
  | Data (dataSocket : bool) (buf : buffer)
  | Close
  | Error
  | Written (dataSocket : bool) (err : bool).

Definition step (s : t) (e : event) : t * list action :=
  match e with
  | Replied => respond_callback s
  | Ready => handleUpload s
  | Data sock buf =>
      if on_data s then (dataHandler s sock buf).1 else (s, [])
  | Close =>
      if on_close s
      then closeHandler (set_handlers (on_data s) false (on_error s) s)
      else (s, [])
  | Error =>
      if on_error s
      then errorHandler (set_handlers (on_data s) (on_close s) false s)
      else (s, [])
  | Written sock err => writeFile_callback s sock err
  end.

Fixpoint run (s : t) (es : list event) : t * list action :=
  match es with
  | [] => (s, [])
  | e :: es' =>
      let '(s1, out) := step s e in
      let '(s2, rest) := run s1 es' in
      (s2, (out ++ rest)%list)
  end.

(** The upload from the call on. *)
Definition upload (es : list event) : t * list action :=
  let '(s, out) := _storeUsingWriteFile in
  let '(s', rest) := run s es in
  (s', (out ++ rest)%list).

End WithMemory.

(** *** Vocabulary of the statements about an upload *)

(** The chunks of an upload as events of the data socket. *)
Definition chunks (bufs : list buffer) : list event := map (Data true) bufs.

(** The limit lets [n] bytes through. *)
Definition within (cfg : env) (n : nat) : Prop :=
  match uploadMaxSlurpSize cfg with
  | Some limit => Z.of_nat n <= limit
  | None => True
  end.

(** The handlers are registered, the buffer holds [data] in its first
    [totalBytes] bytes, and its size is between 1024 and twice the data. *)
Definition holds (s : t) (data : buffer) : Prop :=
  on_data s = true /\ on_close s = true /\ on_error s = true
  /\ erroredOut s = false
  /\ totalBytes s = length data
  /\ slice0 (slurpBuf s) (totalBytes s) = data
  /\ (1024 <= length (slurpBuf s))%nat
  /\ (length (slurpBuf s) <= Nat.max 1024 (2 * length data))%nat.

(** The events of the data socket. *)
Definition from_socket (e : event) : bool :=
  match e with Data _ _ | Close | Error => true | _ => false end.

(** Memory as a fresh [Buffer] may hold it: here, all bytes set. *)
Definition dirty (n : nat) : buffer := replicate n Byte.xff.

End Upload.

(* ===================================================================== *)
(** ** The server ([FtpServer.js], lines 53-146) *)
(* ===================================================================== *)

Module Server.
Import Js.

(** The options the two methods read. *)
Record options := {
  allowedCommands : option (list string);
  pasvPortRangeStart : option Z;
  pasvPortRangeEnd : option Z;
}.

(** The server: [this.host] is the first argument of the constructor, which
    may be missing; and the runtime it runs on. *)
Record t := { host : option string; opts : options; runtime : Js.runtime }.

Inductive action :=
  | EmitClientConnected          (* [this.emit('client:connected', conn)] *)
  | SocketSetTimeout0
  | SocketSetNoDelay
  | Respond (message : string).

(** The index of the allowed commands that [_onConnection] builds: the keys
    set to [true]. *)
Definition allowedIndex (rt : Js.runtime) (o : options) : option (list string) :=
  match allowedCommands o with
  | Some cs => Some (map (fun c => toUpperCase rt (trim rt c)) cs)
  | None => None
  end.

(** [_onConnection(socket)]: the session it creates and what it does before
    the first line of the client. *)
Definition _onConnection (srv : t) : Session.t * list action :=
  (Session.create (allowedIndex (runtime srv) (opts srv)),
   [EmitClientConnected; SocketSetTimeout0; SocketSetNoDelay;
    Respond "220 FTP server (nodeftpd) ready"]).

(** The values [listen] may be called with. *)
Inductive value :=
  | VNumber (n : number)
  | VString (s : string)
  | VFunction (f : nat)
  | VUndefined
  | VObject.

(** [/^[0-9]+$/] *)
Definition NUMERIC_test (s : string) : bool :=
  all_digits s && negb (String.eqb s "").

(** What [listen] has done when it returns. *)
Record listening := {
  listen_port : number;             (* [this.server.listen(port, host, callback)] *)
  listen_host : option string;
  listen_callback : option value;   (* [None] is [null] *)
  passiveListenerPool : Pool.t;
}.

(** [typeof args[args.length] === 'function' ? args.pop() : null] *)
Definition callback_of (args : list value) : option value :=
  match args !! length args with
  | Some (VFunction _) => last args
  | _ => None
  end.

(** [listen(port, ...args)]; [parseInt] is applied to a string of digits. *)
Definition listen (srv : t) (port : value) (args : list value)
  : Session.outcome listening :=
  let port :=
    match port with
    | VString s => if NUMERIC_test s then VNumber (parseInt s) else port
    | _ => port
    end in
  match port with
  | VNumber n =>
      Session.Returned
        {| listen_port := n;
           listen_host := host srv;
           listen_callback := callback_of args;
           passiveListenerPool :=
             Pool.create (host srv)
               (pasvPortRangeStart (opts srv), pasvPortRangeEnd (opts srv)) |}
  | _ => Session.Thrown "Must specify port"
  end.

End Server.

(* ===================================================================== *)
(** ** AUTH, PBSZ and PROT ([FtpConnection.js], lines 756-790, 1123-1159) *)
(* ===================================================================== *)

(** The three handlers read and write [tlsOptions], [secure] and
    [pbszReceived].  The reply to AUTH has a callback that starts the
    handshake, and the handshake has a callback of its own: both run later,
    and the state counts those that are due. *)
Module Tls.
Import Js.

Record t := {
  tlsOptions : bool;         (* [this.tlsOptions] is set *)
  secure : bool;
  pbszReceived : bool;
  replies_due : nat;         (* replies 234 whose callback has not run *)
  handshakes_due : nat;      (* [starttlsServer] calls whose callback has not run *)
}.

Inductive action :=
  | Respond (message : string)
  | StartTls                     (* [starttls.starttlsServer(this.socket, ...)] *)
  | ListenOnCleartext            (* [this.socket = cleartext; this.socket.on('data', ...)] *)
  | CloseSocket.                 (* [this._closeSocket(this.socket, true)] *)

(** [new FtpConnection(options)] *)
Definition create (tls : bool) : t :=
  {| tlsOptions := tls; secure := false; pbszReceived := false;
     replies_due := 0; handshakes_due := 0 |}.

Definition set_secure (v : bool) (s : t) : t :=
  {| tlsOptions := tlsOptions s; secure := v; pbszReceived := pbszReceived s;
     replies_due := replies_due s; handshakes_due := handshakes_due s |}.

Definition set_pbszReceived (v : bool) (s : t) : t :=
  {| tlsOptions := tlsOptions s; secure := secure s; pbszReceived := v;
     replies_due := replies_due s; handshakes_due := handshakes_due s |}.

Definition set_due (r h : nat) (s : t) : t :=
  {| tlsOptions := tlsOptions s; secure := secure s; pbszReceived := pbszReceived s;
     replies_due := r; handshakes_due := h |}.

(** [parseInt(s, 10)] on any text: white space, a sign, then digits. *)
Definition parseInt10 (rt : runtime) (s : string) : number :=
  if ascii_text s then
    match trimStart s with
    | String "-" r => match parseInt r with Num z => Num (- z) | NaN => NaN end
    | String "+" r => parseInt r
    | r => parseInt r
    end
  else parseInt_other rt s.

Section WithServer.
(** [server.options.allowUnauthorizedTls], and the runtime. *)
Variable allowUnauthorizedTls : bool.
Variable js : runtime.

(** [__AUTH(commandArg)] *)
Definition __AUTH (s : t) (commandArg : string) : t * list action :=
  if negb (tlsOptions s) || negb (String.eqb commandArg "TLS")
  then (s, [Respond "502 Command not implemented"])
  else (set_due (S (replies_due s)) (handshakes_due s) s, [Respond "234 Honored"]).

(** The callback of the reply 234. *)
Definition AUTH_replied (s : t) : t * list action :=
  (set_due (replies_due s) (S (handshakes_due s)) s, [StartTls]).

(** The callback of [starttlsServer]: [err] is set, or the cleartext stream
    is [authorized] or not. *)
Definition starttls_callback (s : t) (err authorized : bool) : t * list action :=
  if err then (s, [CloseSocket])
  else if negb authorized
  then if allowUnauthorizedTls
       then (set_secure true s, [ListenOnCleartext])
       else (s, [CloseSocket])
  else (set_secure true s, [ListenOnCleartext]).

(** [__PBSZ(commandArg)] *)
Definition __PBSZ (s : t) (commandArg : string) : t * list action :=
  if negb (tlsOptions s) then (s, [Respond "202 Not supported"])
  else if negb (secure s) then (s, [Respond "503 Secure connection not established"])
  else if negb (bool_decide (parseInt10 js commandArg = Num 0))
  then (set_pbszReceived true s, [Respond "200 buffer too big, PBSZ=0"])
  else (set_pbszReceived true s, [Respond "200 OK"]).

(** [__PROT(commandArg)] *)
Definition __PROT (s : t) (commandArg : string) : t * list action :=
  if negb (tlsOptions s) then (s, [Respond "202 Not supported"])
  else if negb (pbszReceived s) then (s, [Respond "503 No PBSZ command received"])
  else if String.eqb commandArg "S" || String.eqb commandArg "E"
          || String.eqb commandArg "C"
  then (s, [Respond "536 Not supported"])
  else if String.eqb commandArg "P" then (s, [Respond "200 OK"])
  else (s, [Respond "504 Not recognized"]).

(** What reaches the three handlers: one of the commands, or a callback that
    is due. *)
Inductive event :=
  | AUTH (commandArg : string)
  | PBSZ (commandArg : string)
  | PROT (commandArg : string)
  | Replied234
  | Handshake (err authorized : bool).

Definition step (s : t) (e : event) : t * list action :=
  match e with
  | AUTH a => __AUTH s a
  | PBSZ a => __PBSZ s a
  | PROT a => __PROT s a
  | Replied234 =>
      match replies_due s with
      | S n => AUTH_replied (set_due n (handshakes_due s) s)
      | O => (s, [])
      end
  | Handshake err authorized =>
      match handshakes_due s with
      | S n => starttls_callback (set_due (replies_due s) n s) err authorized
      | O => (s, [])
      end
  end.

Fixpoint run (s : t) (es : list event) : t * list (list action) :=
  match es with
  | [] => (s, [])
  | e :: es' =>
      let '(s1, a) := step s e in
      let '(s2, rest) := run s1 es' in
      (s2, a :: rest)
  end.

Definition state_after (s : t) (es : list event) : t := (run s es).1.

(** A handshake that ends with a secured stream. *)
Definition secures (e : event) : bool :=
  match e with
  | Handshake false authorized => authorized || allowUnauthorizedTls
  | _ => false
  end.

End WithServer.

(** A command AUTH TLS. *)
Definition asks_for_tls (e : event) : bool :=
  match e with AUTH a => String.eqb a "TLS" | _ => false end.

(** What holds of a session after the events [past]: protection is
    negotiated only on a secured connection, a connection is secured only by a
    handshake that went well, and a handshake is due only after AUTH TLS. *)
Definition inv (allow : bool) (s : t) (past : list event) : Prop :=
  (pbszReceived s = true -> secure s = true)
  /\ (secure s = true ->
      tlsOptions s = true /\ existsb (secures allow) past = true
      /\ existsb asks_for_tls past = true)
  /\ ((0 < replies_due s + handshakes_due s)%nat ->
      tlsOptions s = true /\ existsb asks_for_tls past = true).

End Tls.

(* ===================================================================== *)
(** ** Vocabulary of further statements *)
(* ===================================================================== *)

Module Words.
Import Js Session.

(** The dotted quad of four numbers. *)
Definition dotted (a b c d : Z) : string :=
  pretty a +:+ "." +:+ pretty b +:+ "." +:+ pretty c +:+ "." +:+ pretty d.

Definition octet (n : Z) : Prop := 0 <= n <= 255.

(** A request to the pool among the actions of a session. *)
Definition is_pool_request (a : action) : bool :=
  match a with CreateDataConnection _ _ _ => true | _ => false end.

Definition pool_requests (acts : list (list action)) : nat :=
  length (List.filter is_pool_request (concat acts)).

(** The hook of PASS reporting success. *)
Definition is_PassSuccess (e : event) : bool :=
  match e with PassSuccess _ _ => true | _ => false end.

(** Text without white space, and text of white space only. *)
Definition spaceless (s : string) : bool :=
  forallb (fun c => negb (is_space c)) (list_ascii_of_string s).

Definition blank (s : string) : bool :=
  forallb is_space (list_ascii_of_string s).

(** A call of the password hook, and the event with which the user hook
    accepts a name. *)
Definition is_pass_hook (a : action) : bool :=
  match a with EmitCommandPass _ => true | _ => false end.

Definition is_UserSuccess (e : event) : bool :=
  match e with UserSuccess => true | _ => false end.

Definition pass_hooks (acts : list action) : nat :=
  length (List.filter is_pass_hook acts).

(** One password is owed while the session waits for it. *)
Definition owed (s : t) : nat := if isWaitingForPassword s then 1 else 0.

(** The three refusals of the dispatch gate that come before the handlers. *)
Definition gate_refusal (m : string) : Prop :=
  m = "502 Command not implemented."
  \/ m = "522 Protection level not sufficient; send AUTH TLS"
  \/ m = "530 Not logged in.".

(** The event ['ready'] among the outputs of a passive data connection. *)
Definition is_ready (o : Conn.output) : bool :=
  match o with Conn.Emit (Conn.ready _) => true | _ => false end.

(** *** Listeners for the examples *)

Definition client : string := "192.168.1.20".
Definition plain : Conn.options := {| Conn.useTLS := false |}.
Definition sockA : Conn.socket := {| Conn.sock_id := 5; Conn.sock_address := "::ffff:192.168.1.20";
     Conn.sock_remoteAddress := "192.168.1.77" |}.
Definition sockB : Conn.socket := {| Conn.sock_id := 6; Conn.sock_address := "192.168.1.20";
     Conn.sock_remoteAddress := "192.168.1.77" |}.

(** A listener whose first connection, number 0, holds its socket: a transfer
    is going on, and nobody waits. *)
Definition busy_listener : Lst.t * Lst.heap :=
  let r1 := Lst.listenForClient 0 (Lst.create 44001 "0.0.0.0") [] client plain in
  let l2 := (Lst._onReady r1.1.1.1).1 in
  let r3 := Lst._onConnection l2 r1.1.1.2 sockA in
  (r3.1.1.1, r3.1.1.2).

(** A listener whose only waiter closed while the server was still binding,
    and which was started again for a new waiter after the bind. *)
Definition restarted_listener : Lst.t * Lst.heap :=
  let r1 := Lst.listenForClient 0 (Lst.create 44001 "0.0.0.0") [] client plain in
  let l2 := (Lst.closeHook (Lst.key 44001 client) 0 r1.1.1.1).1 in
  let l3 := (Lst._onReady l2).1 in
  let r4 := Lst.listenForClient 50 l3 r1.1.1.2 client plain in
  (r4.1.1.1, r4.1.1.2).

End Words.

(* ===================================================================== *)
(** * Properties *)
(* ===================================================================== *)

(** ** Decoding a PORT argument *)

Module AddressFacts.
Import Js Address.

(** A string that passes [ENCODED_ADDRESS] is cut into exactly six pieces. *)
Lemma ENCODED_ADDRESS_six (encoded : string) :
  ENCODED_ADDRESS_test encoded = true ->
  length (split "," encoded) = 6%nat.
Proof.
  unfold ENCODED_ADDRESS_test. intros H.
  apply andb_prop in H as [H _]. by apply Nat.eqb_eq in H.
Qed.

(** Whatever [decodeAddress] accepts, the port it returns is [NaN]: the array
    of octets has indices 0 to 5, and the port is read from 5 and 6. *)
Lemma decodeAddress_port_NaN (encoded : string) (e : endpoint) :
  decodeAddress encoded = Some e -> port e = NaN.
Proof.
  unfold decodeAddress.
  destruct (ENCODED_ADDRESS_test encoded) eqn:Htest; simpl; [|done].
  destruct (existsb _ _); [done|].
  intros [= <-]. simpl.
  apply ENCODED_ADDRESS_six in Htest.
  rewrite (lookup_ge_None_2 _ 6%nat); [|by rewrite length_map, Htest].
  reflexivity.
Qed.

(** [encodeAddress] is the other direction, and does use [port / 256] and
    [port % 256]. *)
Lemma encodeAddress_example :
  encodeAddress "127.0.0.1" 44005 = "127,0,0,1,171,229".
Proof. reflexivity. Qed.

End AddressFacts.

(** ** The control session *)

Module SessionFacts.
Import Js Address Session.

Lemma logged_in_authenticated : _isAuthenticated logged_in = true.
Proof. reflexivity. Qed.

Lemma login_transcript :
  transcript srv0 (create None) login
  = [[]; ["331 User name okay, need password."]; [];
     ["230 User logged in, proceed."]].
Proof. reflexivity. Qed.

Lemma data_substate_NONE (s : t) :
  data_substate s = NONE <-> received s = false.
Proof.
  unfold data_substate, received.
  destruct (_hasReceivedPORT s), (_hasReceivedPASV s), (dataSocket s);
    simpl; split; congruence.
Qed.

Lemma keeps_flags_refl (s : t) : keeps_flags s s.
Proof. by split. Qed.

#[local] Hint Resolve keeps_flags_refl : core.

Ltac by_cases :=
  repeat case_match; simplify_eq; simpl; split; intros; simpl in *; congruence.

Lemma PORT_keeps (s : t) (a : string) : keeps_flags s (fst (__PORT s a)).
Proof. unfold __PORT. by_cases. Qed.

Lemma PASV_keeps srv (s : t) (a c : string) : keeps_flags s (fst (__PASV srv s a c)).
Proof. unfold __PASV. by_cases. Qed.

Lemma EPSV_keeps srv (s : t) (a c : string) : keeps_flags s (fst (__EPSV srv s a c)).
Proof. unfold __EPSV. case_match; [done|]. apply PASV_keeps. Qed.

Lemma execCommand_keeps srv (s : t) (c a : string) :
  keeps_flags s (fst (_execCommand srv s c a)).
Proof.
  unfold _execCommand, __EPRT.
  repeat case_match;
    auto using PORT_keeps, PASV_keeps, EPSV_keeps;
    unfold __QUIT, __USER, __PASS; by_cases.
Qed.

(** The gate either refuses with one reply, or hands over to the handler. *)
Lemma dispatch_cases srv (s : t) (c a : string) :
  dispatch srv s c a = _execCommand srv s c a
  \/ exists m, dispatch srv s c a = (s, [Respond m]).
Proof. unfold dispatch. repeat case_match; eauto. Qed.

Lemma onData_cases srv (s : t) (data : string) :
  _onData srv s data = (s, [])
  \/ (exists m, _onData srv s data = (s, [Respond m]))
  \/ (exists c a, _onData srv s data = _execCommand srv s c a).
Proof.
  unfold _onData. destruct (hasQuit s); [by left|].
  destruct (parseCommand srv data) as [c a].
  destruct (dispatch_cases srv s c a) as [->|[m ->]]; eauto.
Qed.

Lemma step_keeps_flags srv (s : t) (e : event) : keeps_flags s (fst (step srv s e)).
Proof.
  destruct e; simpl.
  - destruct (onData_cases srv s data) as [->|[[m ->]|(c & a & ->)]]; auto.
    apply execCommand_keeps.
  - unfold PASV_callback. by_cases.
  - unfold _onDataConnection. by_cases.
  - done.
  - unfold dataSocket_allOver. by_cases.
  - unfold dataSocket_allOver. by_cases.
  - done.
  - done.
  - done.
  - done.
  - done.
  - done.
  - unfold PASS_success. by_cases.
  - done.
  - done.
  - unfold QUIT_callback, _closeDataConnections. by_cases.
  - unfold _onClose. by_cases.
Qed.

Lemma step_keeps_received srv (s : t) (e : event) :
  received s = true -> received (fst (step srv s e)) = true.
Proof.
  unfold received. intros H. destruct (step_keeps_flags srv s e) as [H1 H2].
  apply orb_true_iff in H as [H|H].
  - by rewrite (H1 H).
  - rewrite (H2 H). apply orb_true_r.
Qed.

Lemma state_after_cons srv (s : t) (e : event) (es : list event) :
  state_after srv s (e :: es) = state_after srv (fst (step srv s e)) es.
Proof.
  unfold state_after. simpl.
  destruct (step srv s e) as [s1 a]. simpl.
  by destruct (run srv s1 es).
Qed.

Lemma run_keeps_received srv (es : list event) (s : t) :
  received s = true -> received (state_after srv s es) = true.
Proof.
  revert s. induction es as [|e es IH]; intros s H; [done|].
  rewrite state_after_cons. apply IH. by apply step_keeps_received.
Qed.

(** Where [_execCommand] sends the four commands. *)
Lemma execCommand_PORT srv s a : _execCommand srv s "PORT" a = __PORT s a.
Proof. reflexivity. Qed.

Lemma execCommand_EPRT srv s a : _execCommand srv s "EPRT" a = __EPRT s a.
Proof. reflexivity. Qed.

Lemma execCommand_PASV srv s a : _execCommand srv s "PASV" a = __PASV srv s a "PASV".
Proof. reflexivity. Qed.

Lemma execCommand_EPSV srv s a : _execCommand srv s "EPSV" a = __EPSV srv s a "EPSV".
Proof. reflexivity. Qed.

(** With a flag set, the four handlers refuse. *)
Lemma PORT_refuses (s : t) (a : string) :
  received s = true -> __PORT s a = (s, [Respond "503 Bad sequence of commands."]).
Proof. unfold received, __PORT. by intros ->. Qed.

Lemma PASV_refuses srv (s : t) (a c : string) :
  received s = true -> __PASV srv s a c = (s, [Respond "503 Bad sequence of commands."]).
Proof. unfold received, __PASV. by intros ->. Qed.

Lemma handlers_refuse srv (s : t) (command commandArg : string) :
  received s = true ->
  asks_for_channel command commandArg ->
  _execCommand srv s command commandArg = (s, [Respond "503 Bad sequence of commands."]).
Proof.
  intros H [->|[->|[->|[-> Harg]]]].
  - rewrite execCommand_PASV. by apply PASV_refuses.
  - rewrite execCommand_PORT. by apply PORT_refuses.
  - rewrite execCommand_EPRT. by apply PORT_refuses.
  - rewrite execCommand_EPSV. unfold __EPSV.
    destruct Harg as [->| ->]; by apply PASV_refuses.
Qed.

Lemma asks_for_channel_supported (command commandArg : string) :
  asks_for_channel command commandArg ->
  has_command COMMANDS_SUPPORTED command = true
  /\ has_command COMMANDS_NO_AUTH command = false
  /\ _doesRequireDataConnection command = false.
Proof.
  intros [->|[->|[->|[-> _]]]]; by vm_compute.
Qed.

(** Through the gate, the same commands are refused by [_onData]. *)
Lemma onData_refuses srv (s : t) (data command commandArg : string) :
  received s = true ->
  parseCommand srv data = (command, commandArg) ->
  asks_for_channel command commandArg ->
  gate_open srv s command = true ->
  _onData srv s data = (s, [Respond "503 Bad sequence of commands."]).
Proof.
  intros Hr Hp Hc Hg. unfold gate_open in Hg.
  repeat (apply andb_prop in Hg as [Hg ?]).
  apply negb_true_iff in Hg.
  destruct (asks_for_channel_supported _ _ Hc) as (Hs & Hn & Hd).
  unfold _onData. rewrite Hg, Hp. unfold dispatch.
  rewrite Hs, Hn, Hd. simpl.
  assert (Hallowed : match allowedCommands s with
                     | Some allowed => negb (has_command allowed command)
                     | None => false
                     end = false).
  { destruct (allowedCommands s); [|done]. by apply negb_false_iff. }
  rewrite Hallowed.
  assert (Htls : negb (secure s) && tlsOnly srv = false).
  { destruct (secure s), (tlsOnly srv); done. }
  rewrite Htls.
  replace (_isAuthenticated s) with true by done. simpl.
  by apply handlers_refuse.
Qed.

Lemma received_substate (s : t) : data_substate s <> NONE -> received s = true.
Proof.
  intros H. destruct (received s) eqn:E; [done|].
  by apply data_substate_NONE in E.
Qed.

(** *** PORT and EPRT as the session decodes them *)

(** C1 (the code departs from the claim).  A valid PORT argument
    h1,h2,h3,h4,p1,p2 is meant to give the endpoint h1.h2.h3.h4 with port
    p1*256 + p2, stored before the reply 200.  On [PORT 127,0,0,1,20,0] the
    session stores the host 127.0.0.1 and replies 200, but the port it stores
    is [NaN], not 5120: [decodeAddress] takes the port from [octets[5]] and
    [octets[6]], and the six octets are at the indices 0 to 5. *)
Theorem PORT_stores_NaN_as_port :
  let s := state_after srv0 logged_in [Data "PORT 127,0,0,1,20,0"] in
  transcript srv0 logged_in [Data "PORT 127,0,0,1,20,0"] = [["200 OK"]]
  /\ decodeAddress "127,0,0,1,20,0" = Some {| host := "127.0.0.1"; port := NaN |}
  /\ dataHost s = Some "127.0.0.1"
  /\ dataPort s = NaN
  /\ dataPort s <> Num (20 * 256 + 0).
Proof. by vm_compute. Qed.

(** [_parseEPRT] does what the EPRT clauses of the spec say (it is never
    called: [__EPRT] goes to [__PORT]). *)
Lemma parseEPRT_family_2 (rest : string) :
  _parseEPRT ("|2|" +:+ rest)
  = ([Respond "522 Server cannot handle IPv6 EPRT commands, use (1)"], Returned None).
Proof. reflexivity. Qed.

Lemma parseEPRT_examples :
  _parseEPRT "|1|127.0.0.1|5000|" = ([], Returned (Some ("127.0.0.1", Num 5000)))
  /\ _parseEPRT "|1|127.0.0.1|0|"
     = ([Respond "501 Bad argument to EPRT (invalid port number)"], Returned None)
  /\ _parseEPRT "|1|127.0.0.1|70000|"
     = ([Respond "501 Bad argument to EPRT (invalid port number)"], Returned None).
Proof. by vm_compute. Qed.

(** C9 (the code departs from the claim).  An EPRT whose argument declares
    address family 2 is meant to be answered 522, and a port above 65535 or
    not positive 501.  [EPRT |2|::1|5000|] is answered [501 Bad argument to
    PORT], and marks PORT as received; [_parseEPRT], which has the reply 522,
    is not on the path.  [PORT 127,0,0,1,0,0], whose port is 0, is answered
    200. *)
Theorem EPRT_family_2_is_answered_501 :
  transcript srv0 logged_in [Data "EPRT |2|::1|5000|"]
    = [["501 Bad argument to PORT"]]
  /\ _hasReceivedPORT (state_after srv0 logged_in [Data "EPRT |2|::1|5000|"]) = true
  /\ replies (fst (_parseEPRT "|2|::1|5000|"))
     = ["522 Server cannot handle IPv6 EPRT commands, use (1)"]
  /\ transcript srv0 logged_in [Data "PORT 127,0,0,1,0,0"] = [["200 OK"]].
Proof. by vm_compute. Qed.

(** *** The gate for the commands that need a data socket *)

(** For an authenticated client the gate answers 425 exactly when
    [_hasReceivedDataConnectionRequest] is false: a PASV is under way or a
    passive connection is held.  [_hasReceivedPORT] is not looked at. *)
Lemma gate_425 srv (s : t) (command commandArg : string) :
  gate_open srv s command = true ->
  has_command COMMANDS_NO_AUTH command = false ->
  _doesRequireDataConnection command = true ->
  _hasReceivedDataConnectionRequest s = false ->
  dispatch srv s command commandArg
  = (s, [Respond "425 Data connection not configured; send PASV or PORT"]).
Proof.
  intros Hg Hn Hd Hr. unfold gate_open in Hg.
  repeat (apply andb_prop in Hg as [Hg ?]).
  unfold dispatch.
  replace (has_command COMMANDS_SUPPORTED command) with true by done.
  rewrite Hn, Hd, Hr.
  replace (_isAuthenticated s) with true by done.
  destruct (allowedCommands s) as [allowed|];
    [replace (has_command allowed command) with true by done|];
    by destruct (secure s), (tlsOnly srv).
Qed.

(** C4 (the code departs from the claim).  After a PORT that was answered
    200 the sub-state is ACTIVE, and LIST, NLST, RETR, STOR and APPE are
    meant to reach their handlers.  Each of them is answered 425: the gate
    asks [_hasReceivedDataConnectionRequest], which only knows of PASV. *)
Theorem data_command_after_PORT_is_answered_425 :
  let s := state_after srv0 logged_in [Data "PORT 127,0,0,1,20,0"] in
  transcript srv0 logged_in [Data "PORT 127,0,0,1,20,0"] = [["200 OK"]]
  /\ data_substate s = ACTIVE
  /\ Forall (fun line =>
        step srv0 s (Data line)
        = (s, [Respond "425 Data connection not configured; send PASV or PORT"]))
       ["LIST"; "NLST"; "RETR a.txt"; "STOR a.txt"; "APPE a.txt"].
Proof.
  split; [by vm_compute|]. split; [by vm_compute|].
  repeat constructor.
Qed.

(** *** What a finished transfer leaves behind *)

(** C3, as stated, fails: after a listing over a passive connection has ended
    the flag set by PASV is still set, the sub-state is not NONE, and the next
    PASV is refused with 503. *)
Lemma flags_survive_a_transfer :
  let s := state_after srv0 logged_in passive_listing in
  transcript srv0 logged_in passive_listing
    = [[]; ["227 Entering Passive Mode (127,0,0,1,171,229)"]; []; []; []]
  /\ _hasReceivedPASV s = true
  /\ data_substate s <> NONE
  /\ transcript srv0 s [Data "PASV"] = [["503 Bad sequence of commands."]].
Proof. by vm_compute. Qed.

(** C3 (amended).  When a transfer ends the session forgets its data socket
    and nothing else: the two flags, the address stored by PORT and the
    passive connection are as before, and no later event clears the flags
    either.  So if PASV or PORT had been received, every later PASV, PORT or
    EPRT (and EPSV without argument or with 1) that the dispatch gate lets
    through is refused with 503, as the handlers of these commands do
    whenever they are reached. *)
Theorem transfer_end_resets_only_the_socket srv (s : t) (e : event) :
  ends_transfer e = true ->
  let s' := fst (step srv s e) in
  dataSocket s' = None
  /\ _hasReceivedPASV s' = _hasReceivedPASV s
  /\ _hasReceivedPORT s' = _hasReceivedPORT s
  /\ dataHost s' = dataHost s
  /\ dataPort s' = dataPort s
  /\ dataConnection s' = dataConnection s
  /\ (received s = true ->
      forall es,
        received (state_after srv s' es) = true
        /\ (forall data command commandArg,
              parseCommand srv data = (command, commandArg) ->
              asks_for_channel command commandArg ->
              gate_open srv (state_after srv s' es) command = true ->
              _onData srv (state_after srv s' es) data
              = (state_after srv s' es, [Respond "503 Bad sequence of commands."]))
        /\ (forall command commandArg,
              asks_for_channel command commandArg ->
              _execCommand srv (state_after srv s' es) command commandArg
              = (state_after srv s' es, [Respond "503 Bad sequence of commands."]))).
Proof.
  intros He s'.
  assert (H : dataSocket s' = None
              /\ _hasReceivedPASV s' = _hasReceivedPASV s
              /\ _hasReceivedPORT s' = _hasReceivedPORT s
              /\ dataHost s' = dataHost s
              /\ dataPort s' = dataPort s
              /\ dataConnection s' = dataConnection s).
  { subst s'. destruct e; try discriminate He; simpl;
      unfold dataSocket_allOver; try done;
      destruct (dataSocket s) eqn:E; simpl; by rewrite ?E. }
  destruct H as (H1 & H2 & H3 & H4 & H5 & H6).
  do 6 (split; [done|]).
  intros Hr es.
  assert (Hr' : received (state_after srv s' es) = true)
    by (apply run_keeps_received; unfold received in *; by rewrite H2, H3).
  split; [done|]. split.
  - intros data command commandArg Hp Hc Hg. eapply onData_refuses; eauto.
  - intros command commandArg Hc. by apply handlers_refuse.
Qed.

Lemma transfer_end_resets_only_the_socket_witness :
  let s := state_after srv0 logged_in
             [Data "PASV"; PasvCallback false (Some {| conn_id := 0; conn_port := 44005 |});
              DataConnectionReady 7%nat; Data "LIST"] in
  let s' := fst (step srv0 s DataSocketClose) in
  ends_transfer DataSocketClose = true
  /\ received s = true
  /\ dataSocket s = Some 7%nat
  /\ dataSocket s' = None
  /\ _hasReceivedPASV s' = true
  /\ dataConnection s' = dataConnection s
  /\ _onData srv0 s' "PASV" = (s', [Respond "503 Bad sequence of commands."])
  /\ _onData srv0 (state_after srv0 s' [Data "NOOP"]) "PORT 127,0,0,1,20,0"
     = (state_after srv0 s' [Data "NOOP"], [Respond "503 Bad sequence of commands."]).
Proof.
  pose proof (transfer_end_resets_only_the_socket srv0
                (state_after srv0 logged_in
                   [Data "PASV";
                    PasvCallback false (Some {| conn_id := 0; conn_port := 44005 |});
                    DataConnectionReady 7%nat; Data "LIST"])
                DataSocketClose eq_refl) as (H1 & H2 & _ & _ & _ & H6 & H7).
  split; [reflexivity|]. split; [reflexivity|]. split; [reflexivity|].
  split; [exact H1|]. split; [exact H2|]. split; [exact H6|]. split.
  - apply (proj1 (proj2 (H7 eq_refl [])) "PASV" "PASV" "");
      [reflexivity|by left|reflexivity].
  - apply (proj1 (proj2 (H7 eq_refl [Data "NOOP"]))
             "PORT 127,0,0,1,20,0" "PORT" "127,0,0,1,20,0");
      [reflexivity|by right; left|reflexivity].
Defined.

(** *** PASV and PORT exclude each other *)

(** An EPSV with an argument other than 1 never gets as far as the test of
    the flags. *)
Lemma EPSV_other_argument srv (s : t) (commandArg : string) :
  commandArg <> "" -> commandArg <> "1" ->
  _execCommand srv s "EPSV" commandArg = (s, [Respond "202 Not supported"]).
Proof.
  intros H0 H1. rewrite execCommand_EPSV. unfold __EPSV.
  by rewrite (proj2 (String.eqb_neq _ _) H0), (proj2 (String.eqb_neq _ _) H1).
Qed.







End SessionFacts.

(** ** The wait timer of a passive data connection *)

Module ConnFacts.
Import Conn.

Lemma run_app (w : world) (es1 es2 : list event) :
  run w (es1 ++ es2)
  = let '(w1, o1) := run w es1 in
    let '(w2, o2) := run w1 es2 in
    (w2, (o1 ++ o2)%list).
Proof.
  revert w. induction es1 as [|e es1 IH]; intros w; simpl.
  - by destruct (run w es2).
  - destruct (step w e) as [w1 o]. rewrite IH.
    destruct (run w1 es1) as [w2 o1]. destruct (run w2 es2) as [w3 o2].
    by rewrite app_assoc.
Qed.

Lemma fst_run_cons (w : world) (e : event) (es : list event) :
  fst (run w (e :: es)) = fst (run (fst (step w e)) es).
Proof.
  cbn [run]. destruct (step w e) as [w1 o]. cbn [fst].
  by destruct (run w1 es).
Qed.

Lemma fst_run_app (w : world) (es1 es2 : list event) :
  fst (run w (es1 ++ es2)) = fst (run (fst (run w es1)) es2).
Proof.
  rewrite run_app. destruct (run w es1) as [w1 o1]. cbn [fst].
  by destruct (run w1 es2).
Qed.

Lemma emissions_app (ev : emitted) (o1 o2 : list output) :
  emissions ev (o1 ++ o2) = (emissions ev o1 + emissions ev o2)%nat.
Proof. unfold emissions. by rewrite filter_app, length_app. Qed.

Lemma early_step (due : Z) (w : world) (out : list output) (e : event) :
  waiting_or_destroyed due w out ->
  early due e = true ->
  waiting_or_destroyed due (fst (step w e)) (out ++ snd (step w e)).
Proof.
  intros (Hs & Ht & Hk & He & Hc) Hearly.
  destruct w as [c k]; simpl in *; subst k.
  destruct e; simpl in Hearly; try discriminate; simpl.
  - (* destroy() without a socket is _close() *)
    unfold destroy, _close. rewrite Hs.
    destruct Hc as [[Hw Hc]|[Hw Hc]]; rewrite Hw; simpl.
    + repeat split; try done.
      * by rewrite emissions_app, He.
      * right. split; [done|]. by rewrite emissions_app, Hc.
    + rewrite app_nil_r. repeat split; try done. by right.
  - (* the timer is not due yet *)
    unfold timer_due. rewrite Ht.
    apply Z.ltb_lt in Hearly. rewrite (proj2 (Z.leb_gt _ _) Hearly). simpl.
    rewrite app_nil_r. by repeat split.
  - unfold has_handlers. rewrite Hs. simpl. rewrite app_nil_r. by repeat split.
  - unfold has_handlers. rewrite Hs. simpl. rewrite app_nil_r. by repeat split.
  - rewrite app_nil_r. by repeat split.
  - rewrite app_nil_r. by repeat split.
Qed.

Lemma early_run (due : Z) (es : list event) (w : world) (out : list output) :
  waiting_or_destroyed due w out ->
  forallb (early due) es = true ->
  waiting_or_destroyed due (fst (run w es)) (out ++ snd (run w es)).
Proof.
  revert w out. induction es as [|e es IH]; intros w out Hw Hes; simpl.
  - by rewrite app_nil_r.
  - apply andb_prop in Hes as [He Hes].
    pose proof (early_step due w out e Hw He) as H1.
    destruct (step w e) as [w1 o1]. simpl in H1.
    specialize (IH w1 (out ++ o1)%list H1 Hes).
    destruct (run w1 es) as [w2 o2]. simpl in *.
    by rewrite app_assoc.
Qed.

(** What [_onError] does as a callback, with and without a listener. *)
Lemma onError_callback_heard (c : t) (e : error) :
  on_error c = true ->
  _onError_callback c e = (c, [Emit (error_ e); NextTick_close]).
Proof. unfold _onError_callback, _onError. by intros ->. Qed.

Lemma onError_callback_unheard (c : t) (e : error) :
  on_error c = false -> _onError_callback c e = (c, [Uncaught e]).
Proof. unfold _onError_callback, _onError. by intros ->. Qed.

Lemma onError_callback_conn (c : t) (e : error) : (_onError_callback c e).1 = c.
Proof. unfold _onError_callback, _onError. by destruct (on_error c). Qed.

Lemma step_keeps_timer_cleared (w : world) (e : event) :
  _timer (conn w) = None -> _timer (conn (fst (step w e))) = None.
Proof.
  intros H. destruct w as [c k]. simpl in *.
  destruct e; simpl;
    unfold setSocket, destroy, _close, timer_due, has_handlers, _onError_callback,
      _onError;
    rewrite ?H; repeat case_match; simplify_eq; simpl; done.
Qed.

Lemma run_keeps_timer_cleared (es : list event) (w : world) :
  _timer (conn w) = None -> _timer (conn (fst (run w es))) = None.
Proof.
  revert w. induction es as [|e es IH]; intros w H; simpl; [done|].
  pose proof (step_keeps_timer_cleared w e H) as H1.
  destruct (step w e) as [w1 o1]. specialize (IH w1 H1).
  by destruct (run w1 es).
Qed.

Lemma step_installed_inv (w : world) (e : event) :
  installed_inv w -> installed_inv (fst (step w e)).
Proof.
  intros [H|H].
  - destruct w as [c k]. simpl in *.
    destruct e; simpl; unfold installed_inv, setSocket, destroy, _close,
      timer_due, has_handlers, _onError_callback, _onError; rewrite ?H;
      repeat case_match; simplify_eq; simpl; auto.
  - right. by apply step_keeps_timer_cleared.
Qed.

Lemma run_installed_inv (es : list event) (w : world) :
  installed_inv w -> installed_inv (fst (run w es)).
Proof.
  revert w. induction es as [|e es IH]; intros w H; simpl; [done|].
  pose proof (step_installed_inv w e H) as H1.
  destruct (step w e) as [w1 o1]. specialize (IH w1 H1).
  by destruct (run w1 es).
Qed.

Lemma setSocket_clears_timer (w : world) (sock : socket) :
  installed_inv w -> _timer (conn (fst (step w (SetSocket sock)))) = None.
Proof.
  intros H. destruct w as [c k]. simpl in *. unfold setSocket.
  destruct H as [H|H]; simpl in H.
  - rewrite H. simpl. by destruct (_useTLS c).
  - destruct (_socket c); simpl; [done|]. by destruct (_useTLS c).
Qed.

Lemma timeout_not_pending (w : world) (now : Z) :
  _timer (conn w) = None -> step w (Timeout now) = (w, []).
Proof. intros H. simpl. unfold timer_due. by rewrite H. Qed.

(** A listener for ['error'] stays. *)
Lemma step_keeps_listener (w : world) (e : event) :
  on_error (conn w) = true -> on_error (conn (fst (step w e))) = true.
Proof.
  intros H. destruct w as [c k]. simpl in *.
  destruct e; simpl;
    unfold setSocket, destroy, _close, timer_due, has_handlers, _onError_callback,
      _onError;
    rewrite ?H; repeat case_match; simplify_eq; simpl; done.
Qed.

Lemma run_keeps_listener (es : list event) (w : world) :
  on_error (conn w) = true -> on_error (conn (fst (run w es))) = true.
Proof.
  revert w. induction es as [|e es IH]; intros w H; simpl; [done|].
  pose proof (step_keeps_listener w e H) as H1.
  destruct (step w e) as [w1 o1]. specialize (IH w1 H1).
  by destruct (run w1 es).
Qed.

Lemma run_listens (es : list event) (w : world) :
  existsb listens es = true -> on_error (conn (fst (run w es))) = true.
Proof.
  revert w. induction es as [|e es IH]; intros w; [done|].
  cbn [existsb]. intros H. rewrite fst_run_cons.
  destruct (listens e) eqn:E.
  - apply run_keeps_listener. by destruct e.
  - by apply IH.
Qed.

Lemma spent_step (w : world) (e : event) :
  spent w -> installs e = false -> step w e = (w, []).
Proof.
  intros (Hs & Ht & Hk & Hc & Hl) He. destruct w as [c k]. simpl in *. subst k.
  destruct e; try discriminate He; simpl;
    unfold destroy, _close, timer_due, has_handlers; rewrite ?Hs, ?Ht, ?Hc; try done.
  f_equal. f_equal. destruct c. simpl in *. by subst.
Qed.

Lemma spent_run (es : list event) (w : world) :
  spent w -> forallb (fun e => negb (installs e)) es = true -> run w es = (w, []).
Proof.
  intros Hw. induction es as [|e es IH]; simpl; [done|].
  intros [He Hes]%andb_prop. apply negb_true_iff in He.
  by rewrite (spent_step w e Hw He), (IH Hes).
Qed.

(** The timer fires on a connection that still waits and that somebody
    listens to: one error, and after the deferred [_close] one ['close'] in
    all. *)
Lemma timeout_closes (due now : Z) (w : world) (out : list output) :
  waiting_or_destroyed due w out ->
  on_error (conn w) = true ->
  due <= now ->
  let r := run w [Timeout now; Tick] in
  spent r.1
  /\ emissions close (out ++ r.2) = 1%nat
  /\ emissions (error_ timeoutError) (out ++ r.2) = 1%nat.
Proof.
  intros (Hs & Ht & Hk & He & Hc) Hl Hnow.
  destruct w as [c k]. simpl in *. subst k.
  unfold timer_due. rewrite Ht, (proj2 (Z.leb_le _ _) Hnow).
  rewrite onError_callback_heard by done. simpl.
  unfold _close. simpl.
  destruct Hc as [[Hw Hc]|[Hw Hc]]; rewrite Hw; simpl.
  all: rewrite !emissions_app, He, Hc.
  all: repeat split; try done.
Qed.

(** C8 (amended).  A connection is constructed at time [now0].  When
    [setSocket] is not called before the timer is due, 9000 ms later, and a
    listener for ['error'] has been registered by then, the timer fires: the
    connection emits the timeout error once, and after the deferred [_close]
    it is CLOSED and has emitted ['close'] exactly once over its whole life
    (also when it had been destroyed in the meantime, and whatever follows
    short of a call of [setSocket] after all).  When [setSocket] is called,
    the timer is cleared, and however the connection goes on, the timer
    callback never runs. *)
Theorem wait_timer_closes_or_is_cancelled
    (now0 p : Z) (remote : string) (o : options) :
  let w0 := {| conn := create now0 p remote o; ticks := O |} in
  (forall es now es',
      forallb (early (now0 + WAIT_TIMEOUT)) es = true ->
      existsb listens es = true ->
      now0 + WAIT_TIMEOUT <= now ->
      forallb (fun e => negb (installs e)) es' = true ->
      let r := run w0 (es ++ [Timeout now; Tick] ++ es') in
      state (conn r.1) = CLOSED
      /\ emissions close r.2 = 1%nat
      /\ emissions (error_ timeoutError) r.2 = 1%nat)
  /\ (forall es1 sock es2 now,
        let w := (run w0 (es1 ++ SetSocket sock :: es2)).1 in
        _timer (conn w) = None /\ step w (Timeout now) = (w, [])).
Proof.
  intros w0. split.
  - intros es now es' Hes Hl Hnow Hes' r.
    assert (H0 : waiting_or_destroyed (now0 + WAIT_TIMEOUT) w0 []).
    { repeat split; try done. by left. }
    pose proof (early_run _ es w0 [] H0 Hes) as H1.
    pose proof (run_listens es w0 Hl) as H2.
    subst r. rewrite run_app.
    destruct (run w0 es) as [w1 out1]. simpl in H1, H2.
    rewrite run_app.
    pose proof (timeout_closes _ now w1 out1 H1 H2 Hnow) as (Hsp & Hc & He).
    destruct (run w1 [Timeout now; Tick]) as [w2 out2]. simpl in Hsp, Hc, He.
    rewrite (spent_run es' w2 Hsp Hes'). simpl. rewrite app_nil_r.
    split; [by destruct Hsp as (_ & _ & _ & ? & _)|done].
  - intros es1 sock es2 now w.
    assert (H : _timer (conn w) = None).
    { subst w. rewrite fst_run_app, fst_run_cons.
      apply run_keeps_timer_cleared, setSocket_clears_timer, run_installed_inv.
      by left. }
    split; [done|]. by apply timeout_not_pending.
Qed.

Lemma wait_timer_closes_or_is_cancelled_witness :
  let w0 := {| conn := create 0 44001 "127.0.0.1" {| useTLS := false |}; ticks := O |} in
  let sock := {| sock_id := 1; sock_address := "127.0.0.1";
                 sock_remoteAddress := "192.168.1.77" |} in
  let r := run w0 ([On_error; Timeout 4000; Destroy] ++ [Timeout 9000; Tick]
                   ++ [Destroy; Tick]) in
  forallb (early (0 + WAIT_TIMEOUT)) [On_error; Timeout 4000; Destroy] = true
  /\ existsb listens [On_error; Timeout 4000; Destroy] = true
  /\ 0 + WAIT_TIMEOUT <= 9000
  /\ state (conn r.1) = CLOSED
  /\ emissions close r.2 = 1%nat
  /\ emissions (error_ timeoutError) r.2 = 1%nat
  /\ step (run w0 ([] ++ SetSocket sock :: [SocketClose])).1 (Timeout 20000)
     = ((run w0 ([] ++ SetSocket sock :: [SocketClose])).1, []).
Proof.
  destruct (wait_timer_closes_or_is_cancelled 0 44001 "127.0.0.1" {| useTLS := false |})
    as [H1 H2].
  destruct (H1 [On_error; Timeout 4000; Destroy] 9000 [Destroy; Tick]
              eq_refl eq_refl ltac:(by vm_compute) eq_refl)
    as (Ha & Hb & He).
  destruct (H2 [] {| sock_id := 1; sock_address := "127.0.0.1";
                     sock_remoteAddress := "192.168.1.77" |} [SocketClose] 20000)
    as [_ Hc].
  split; [reflexivity|]. split; [reflexivity|]. split; [by vm_compute|].
  split; [exact Ha|]. split; [exact Hb|]. split; [exact He|exact Hc].
Defined.

(** C8 (the claim as it stands fails).  First: the connection that
    [listenForClient] returns for an address that has a waiter already is
    announced to nobody, and nobody listens to it.  At 9000 ms its timer
    fires, [emit('error')] throws, and the deferred [_close] is never
    scheduled: it has emitted no error and no ['close'] and is WAITING for
    good.  Second: a connection with [useTLS] on which [setSocket] is called
    in time holds no socket afterwards, and its timer is cleared: no socket
    is installed within 9000 ms, and it neither errors nor closes. *)
Lemma unheard_timeout_closes_nothing :
  let unheard := {| conn := create 50 44001 "192.168.1.20" {| useTLS := false |};
                    ticks := O |} in
  let r := run unheard [Timeout 9050; Tick; Tick] in
  let tls := {| conn := create 0 44001 "192.168.1.20" {| useTLS := true |};
                ticks := O |} in
  let sock := {| sock_id := 1; sock_address := "192.168.1.20";
                 sock_remoteAddress := "192.168.1.77" |} in
  let r' := run tls [On_error; SetSocket sock; Timeout 9000; Tick] in
  (r.2 = [Uncaught timeoutError]
   /\ state (conn r.1) = WAITING
   /\ getSocket (conn r.1) = None
   /\ emissions (error_ timeoutError) r.2 = 0%nat
   /\ emissions close r.2 = 0%nat)
  /\ (r'.2 = []
      /\ getSocket (conn r'.1) = None
      /\ state (conn r'.1) = INITIALIZING_TLS
      /\ _timer (conn r'.1) = None).
Proof. by vm_compute. Qed.

End ConnFacts.

(** ** The map of waiters *)

Module JsMapFacts.
Section WithValues.
Context {V : Type}.
Implicit Types (m : JsMap.t V) (k : string) (v : V).

Lemma get_delete_eq m k : JsMap.get k (JsMap.delete k m) = None.
Proof.
  induction m as [|[k' v'] m IH]; simpl; [done|].
  destruct (String.eqb_spec k' k); simpl; [done|].
  by rewrite (proj2 (String.eqb_neq _ _) n).
Qed.

Lemma get_delete_ne m k k' : k' <> k -> JsMap.get k' (JsMap.delete k m) = JsMap.get k' m.
Proof.
  intros Hne. induction m as [|[k0 v0] m IH]; simpl; [done|].
  destruct (String.eqb_spec k0 k) as [->|]; simpl.
  - rewrite IH. by rewrite (proj2 (String.eqb_neq _ _) (not_eq_sym Hne)).
  - by rewrite IH.
Qed.

Lemma get_set_eq m k v : JsMap.get k (JsMap.set k v m) = Some v.
Proof.
  induction m as [|[k0 v0] m IH]; simpl.
  - by rewrite String.eqb_refl.
  - destruct (String.eqb_spec k0 k) as [->|Hne]; simpl.
    + by rewrite String.eqb_refl.
    + by rewrite (proj2 (String.eqb_neq _ _) Hne).
Qed.

Lemma get_set_ne m k k' v : k' <> k -> JsMap.get k' (JsMap.set k v m) = JsMap.get k' m.
Proof.
  intros Hne. induction m as [|[k0 v0] m IH]; simpl.
  - by rewrite (proj2 (String.eqb_neq _ _) (not_eq_sym Hne)).
  - destruct (String.eqb_spec k0 k) as [->|Hne0]; simpl.
    + by rewrite (proj2 (String.eqb_neq _ _) (not_eq_sym Hne)).
    + by rewrite IH.
Qed.

Lemma keys_delete_subseteq m k : JsMap.keys (JsMap.delete k m) ⊆ JsMap.keys m.
Proof.
  induction m as [|[k0 v0] m IH]; simpl; [done|].
  destruct (String.eqb k0 k); simpl.
  - intros x Hx. right. by apply IH.
  - intros x [->|Hx]%elem_of_cons; [by left|right; by apply IH].
Qed.

Lemma keys_set m k v k' :
  k' ∈ JsMap.keys (JsMap.set k v m) -> k' = k \/ k' ∈ JsMap.keys m.
Proof.
  induction m as [|[k0 v0] m IH]; simpl.
  - intros ->%list_elem_of_singleton. by left.
  - destruct (String.eqb_spec k0 k) as [->|Hne]; simpl.
    + intros [->|Hx]%elem_of_cons; [by left|right; by right].
    + intros [->|Hx]%elem_of_cons; [right; by left|].
      destruct (IH Hx) as [->|Hin]; [by left|right; by right].
Qed.

Lemma unique_keys_nil : JsMap.unique_keys ([] : JsMap.t V).
Proof. constructor. Qed.

Lemma unique_keys_delete m k : JsMap.unique_keys m -> JsMap.unique_keys (JsMap.delete k m).
Proof.
  unfold JsMap.unique_keys. induction m as [|[k0 v0] m IH]; simpl; [done|].
  intros [Hn Hm]%NoDup_cons.
  destruct (String.eqb k0 k); simpl; [by apply IH|].
  apply NoDup_cons. split; [|by apply IH].
  intros Hin. by apply Hn, (keys_delete_subseteq m k).
Qed.

Lemma unique_keys_set m k v : JsMap.unique_keys m -> JsMap.unique_keys (JsMap.set k v m).
Proof.
  unfold JsMap.unique_keys. induction m as [|[k0 v0] m IH]; simpl.
  - intros _. apply NoDup_singleton.
  - intros [Hn Hm]%NoDup_cons.
    destruct (String.eqb_spec k0 k) as [->|Hne]; simpl.
    + by apply NoDup_cons.
    + apply NoDup_cons. split; [|by apply IH].
      intros [->|Hin]%keys_set; done.
Qed.

Lemma count_notin m k : k ∉ JsMap.keys m -> JsMap.count k m = O.
Proof.
  unfold JsMap.count. induction m as [|[k0 v0] m IH]; [done|].
  intros Hn. rewrite filter_cons. cbn [fst].
  destruct (decide (k0 = k)) as [->|]; [exfalso; apply Hn; by left|].
  apply IH. intros Hin. apply Hn. by right.
Qed.

Lemma unique_keys_count m k : JsMap.unique_keys m -> (JsMap.count k m <= 1)%nat.
Proof.
  unfold JsMap.unique_keys, JsMap.count. induction m as [|[k0 v0] m IH]; [simpl; lia|].
  intros [Hn Hm]%NoDup_cons. rewrite filter_cons. cbn [fst].
  destruct (decide (k0 = k)) as [->|]; [|by apply IH].
  pose proof (count_notin m k Hn) as H0. unfold JsMap.count in H0.
  cbn [length]. lia.
Qed.

Lemma has_get m k : JsMap.has k m = true <-> is_Some (JsMap.get k m).
Proof.
  unfold JsMap.has.
  destruct (JsMap.get k m); split; intros H;
    first [done | by eexists | by destruct H].
Qed.

End WithValues.
End JsMapFacts.

(** ** The listener *)

Module LstFacts.
Import Js Lst JsMapFacts.

(** *** The address of an accepted socket *)

Lemma split_without (sep : ascii) (s : string) :
  contains sep s = false -> split sep s = [s].
Proof.
  induction s as [|c s IH]; simpl; [done|].
  intros [Hc Hs]%orb_false_elim. rewrite Hc, (IH Hs). done.
Qed.

Lemma split_with (sep : ascii) (pre rest : string) :
  contains sep rest = false ->
  exists p ps, split sep (pre +:+ String sep rest) = (p :: ps ++ [rest])%list.
Proof.
  intros Hr. induction pre as [|c pre (p & ps & IH)]; simpl.
  - rewrite Ascii.eqb_refl. exists "", []. by rewrite (split_without _ _ Hr).
  - rewrite IH. destruct (Ascii.eqb c sep).
    + by exists "", (p :: ps).
    + by exists (String c p), ps.
Qed.

Lemma contains_app (sep : ascii) (pre rest : string) :
  contains sep (pre +:+ String sep rest) = true.
Proof.
  induction pre as [|c pre IH]; simpl.
  - by rewrite Ascii.eqb_refl.
  - rewrite IH. apply orb_true_r.
Qed.

(** An address without a colon is taken as it is; of an address with colons,
    what follows the last colon is kept. *)
Lemma unwrap_plain (address : string) :
  contains ":" address = false -> unwrap address = address.
Proof. unfold unwrap. by intros ->. Qed.

Lemma unwrap_mapped (pre quad : string) :
  contains ":" quad = false -> unwrap (pre +:+ ":" +:+ quad) = quad.
Proof.
  intros Hq. unfold unwrap.
  change (":" +:+ quad) with (String ":" quad).
  rewrite contains_app.
  destruct (split_with ":" pre quad Hq) as (p & ps & ->).
  unfold pop. by rewrite app_comm_cons, last_snoc.
Qed.

Lemma unwrap_example : unwrap "::ffff:192.168.1.20" = "192.168.1.20".
Proof. reflexivity. Qed.

(** Two keys of one listener are equal only for equal addresses. *)
Lemma key_inj (p : Z) (a b : string) : key p a = key p b -> a = b.
Proof.
  unfold key. generalize (pretty p). intros s.
  induction s as [|c s IH]; simpl; intros H; [by injection H|].
  injection H as H. by apply IH.
Qed.

(** *** Accepted sockets *)




(** *** One waiter for each key *)

Lemma stopServer_waiting (l : t) :
  _waitingConnections (_stopServer l).1 = _waitingConnections l.
Proof. unfold _stopServer. by destruct (_server l). Qed.

Lemma stop_waiting (l : t) :
  _waitingConnections (_stop l).1 = _waitingConnections l.
Proof.
  unfold _stop. destruct (_stopping l); [done|].
  destruct (decide (state l = INITIALIZING)); [done|].
  destruct (decide (state l = LISTENING)); [|done].
  pose proof (stopServer_waiting l) as H.
  by destruct (_stopServer l).
Qed.

Lemma run_stopHooks_waiting (n : nat) (l : t) :
  _waitingConnections (run_stopHooks n l).1 = _waitingConnections l.
Proof.
  revert l. induction n as [|n IH]; intros l; simpl; [done|].
  unfold stopHook.
  pose proof (stop_waiting (set_stopping false l)) as H1.
  destruct (_stop (set_stopping false l)) as [l1 o1].
  pose proof (IH l1) as H2.
  destruct (run_stopHooks n l1) as [l2 o2]. simpl in *. congruence.
Qed.

Lemma reachable_unique_keys (l : t) :
  reachable l -> JsMap.unique_keys (_waitingConnections l).
Proof.
  induction 1 as [p a|l now h r o _ IH|l k c _ IH|l h sock _ IH|l _ IH|l e _ IH|l e _ IH].
  - apply unique_keys_nil.
  - unfold listenForClient.
    destruct (JsMap.has _ _); [done|].
    destruct (decide (state _ = LISTENING)); [by apply unique_keys_set|].
    destruct (decide (state _ = CLOSED)); by apply unique_keys_set.
  - unfold closeHook, _stopIfDone. simpl.
    destruct (negb _); simpl; [by apply unique_keys_delete|].
    rewrite stop_waiting. by apply unique_keys_delete.
  - unfold _onConnection.
    destruct (JsMap.get _ _); [|done].
    destruct (h !! _); [|by apply unique_keys_delete].
    destruct (Conn.setSocket _ _) as [[? ?] ?]. by apply unique_keys_delete.
  - unfold _onReady.
    match goal with
    | |- context [run_stopHooks ?n ?x] =>
        pose proof (run_stopHooks_waiting n x) as H;
        destruct (run_stopHooks n x) as [l1 o1]
    end.
    simpl in *. rewrite H. by destruct (_server l).
  - apply unique_keys_nil.
  - unfold _onRunningError.
    pose proof (stopServer_waiting l) as H.
    destruct (_stopServer l) as [l1 o1]. simpl in *. by rewrite H.
Qed.

Lemma heap_new (h : heap) (c : Conn.t) : (h ++ [c])%list !! length h = Some c.
Proof. by rewrite lookup_app_r, Nat.sub_diag by lia. Qed.

(** C6, as stated, fails.  [listenForClient] constructs the connection, in
    state WAITING, before it looks for a waiter: after two calls for one
    address on a new listener, two connections of port 44001 for that address
    are WAITING, the one that was filed and the one that was returned to be
    told EADDRINUSE. *)
Lemma two_connections_wait_for_one_key :
  let r1 := listenForClient 0 (create 44001 "0.0.0.0") [] "192.168.1.20"
              {| Conn.useTLS := false |} in
  let r2 := listenForClient 50 r1.1.1.1 r1.1.1.2 "192.168.1.20"
              {| Conn.useTLS := false |} in
  reachable r2.1.1.1
  /\ Conn.state <$> (r2.1.1.2 !! 0%nat) = Some Conn.WAITING
  /\ Conn.state <$> (r2.1.1.2 !! 1%nat) = Some Conn.WAITING
  /\ length (List.filter (waits_for 44001 "192.168.1.20") r2.1.1.2) = 2%nat
  /\ ~ (length (List.filter (waits_for 44001 "192.168.1.20") r2.1.1.2) <= 1)%nat.
Proof.
  split; [do 2 apply reach_listenForClient; apply reach_create|].
  split; [reflexivity|]. split; [reflexivity|]. split; [reflexivity|].
  vm_compute. lia.
Qed.

(** C6 (amended).  In every listener the code can produce, no key (port,
    remote address) has more than one connection filed as its waiter, and two
    addresses have the same key only when they are equal.  A call of
    [listenForClient] for an address that has a waiter files nothing and
    displaces nothing: the listener is as before, with its waiters, its state
    and its server, and the waiter of the address is the one it was.  The
    connection returned is a new one, constructed like any other (WAITING,
    timer armed) but filed nowhere, and the only thing given out is the
    ['listenerError'] with code EADDRINUSE, deferred to the next tick, on
    that connection.  A socket accepted at that address afterwards is handed
    to the earlier waiter, and the connection returned stays as it was
    constructed. *)
Theorem one_waiter_for_each_key (l : t) :
  reachable l ->
  (forall k, (JsMap.count k (_waitingConnections l) <= 1)%nat)
  /\ (forall a b, key (port l) a = key (port l) b -> a = b)
  /\ (forall now h remoteAddress o c,
        JsMap.get (key (port l) remoteAddress) (_waitingConnections l) = Some c ->
        let r := listenForClient now l h remoteAddress o in
        let new := Conn.create now (port l) remoteAddress o in
        r.1.1.1 = l
        /\ JsMap.get (key (port l) remoteAddress) (_waitingConnections r.1.1.1) = Some c
        /\ (forall k, (JsMap.count k (_waitingConnections r.1.1.1) <= 1)%nat)
        /\ r.1.1.2 = (h ++ [new])%list
        /\ r.1.2 = length h
        /\ r.1.1.2 !! r.1.2 = Some new
        /\ Conn.state new = Conn.WAITING
        /\ r.2 = [NextTick_emit (length h)
                    (Conn.listenerError
                       (Conn.listenError "EADDRINUSE" (bindAddress l) (port l)))]
        /\ Conn.code (Conn.listenError "EADDRINUSE" (bindAddress l) (port l))
           = Some "EADDRINUSE"
        /\ (forall x sock,
              h !! c = Some x ->
              unwrap (Conn.sock_address sock) = remoteAddress ->
              let r' := _onConnection r.1.1.1 r.1.1.2 sock in
              r.1.2 <> c
              /\ r'.1.1.2 !! c = Some (Conn.setSocket x sock).1.1
              /\ r'.1.1.2 !! r.1.2 = Some new
              /\ JsMap.get (key (port l) remoteAddress) (_waitingConnections r'.1.1.1)
                 = None)).
Proof.
  intros Hl.
  pose proof (reachable_unique_keys l Hl) as Hu.
  split; [intros k; by apply unique_keys_count|].
  split; [apply key_inj|].
  intros now h remoteAddress o c Hget r new. subst r new.
  assert (Hhas : JsMap.has (key (port l) remoteAddress) (_waitingConnections l) = true)
    by (apply has_get; by rewrite Hget).
  unfold listenForClient. rewrite Hhas. cbn [fst snd].
  split; [done|]. split; [done|].
  split; [intros k; by apply unique_keys_count|].
  split; [done|]. split; [done|].
  split; [apply heap_new|].
  split; [done|]. split; [done|]. split; [done|].
  intros x sock Hx Hsock.
  pose proof (lookup_lt_Some _ _ _ Hx) as Hlt.
  assert (Hc : (h ++ [Conn.create now (port l) remoteAddress o])%list !! c = Some x)
    by (by rewrite lookup_app_l).
  unfold _onConnection. rewrite Hsock, Hget. cbv beta iota.
  unfold heap in *. rewrite Hc.
  destruct (Conn.setSocket x sock) as [[c' out] res]. cbn [fst snd].
  split; [lia|].
  split; [apply list_lookup_insert_eq; rewrite length_app; lia|].
  split.
  - rewrite list_lookup_insert_ne by lia. apply heap_new.
  - apply get_delete_eq.
Qed.

Lemma one_waiter_for_each_key_witness :
  let l := (listenForClient 0 (create 44001 "0.0.0.0") []
              "192.168.1.20" {| Conn.useTLS := false |}).1.1.1 in
  let h := (listenForClient 0 (create 44001 "0.0.0.0") []
              "192.168.1.20" {| Conn.useTLS := false |}).1.1.2 in
  let r := listenForClient 50 l h "192.168.1.20" {| Conn.useTLS := false |} in
  let sock := {| Conn.sock_id := 5; Conn.sock_address := "::ffff:192.168.1.20";
                 Conn.sock_remoteAddress := "192.168.1.77" |} in
  let r' := _onConnection r.1.1.1 r.1.1.2 sock in
  JsMap.get (key (port l) "192.168.1.20") (_waitingConnections l) = Some 0%nat
  /\ (JsMap.count "44001|192.168.1.20" (_waitingConnections l) <= 1)%nat
  /\ r.1.1.1 = l
  /\ r.1.2 = 1%nat
  /\ r.2 = [NextTick_emit 1
              (Conn.listenerError (Conn.listenError "EADDRINUSE" "0.0.0.0" 44001))]
  /\ Conn.state <$> (r'.1.1.2 !! 0%nat) = Some Conn.READY
  /\ r'.1.1.2 !! 1%nat
     = Some (Conn.create 50 44001 "192.168.1.20" {| Conn.useTLS := false |}).
Proof.
  set (l := (listenForClient 0 (create 44001 "0.0.0.0") []
               "192.168.1.20" {| Conn.useTLS := false |}).1.1.1).
  set (h := (listenForClient 0 (create 44001 "0.0.0.0") []
               "192.168.1.20" {| Conn.useTLS := false |}).1.1.2).
  assert (Hl : reachable l) by (apply reach_listenForClient, reach_create).
  destruct (one_waiter_for_each_key l Hl) as (H1 & _ & H2).
  destruct (H2 50 h "192.168.1.20" {| Conn.useTLS := false |} 0%nat eq_refl)
    as (Ha & _ & _ & _ & Hb & _ & _ & Hc & _ & Hd).
  destruct (Hd (Conn.create 0 44001 "192.168.1.20" {| Conn.useTLS := false |})
              {| Conn.sock_id := 5; Conn.sock_address := "::ffff:192.168.1.20";
                 Conn.sock_remoteAddress := "192.168.1.77" |} eq_refl eq_refl)
    as (_ & He & Hf & _).
  split; [reflexivity|]. split; [exact (H1 "44001|192.168.1.20")|].
  split; [exact Ha|]. split; [exact Hb|]. split; [exact Hc|].
  split; [exact (f_equal (fmap Conn.state) He)|exact Hf].
Defined.

End LstFacts.

(** ** The pool *)

Module PoolFacts.
Import Pool JsMapFacts.

(** *** The signal that answers [listenForClient] *)

Lemma first_signal_quiet (c : nat) (out rest : list Lst.output) :
  forallb quiet out = true ->
  first_signal c (out ++ rest) = first_signal c rest.
Proof.
  induction out as [|o out IH]; simpl; [done|].
  intros [Ho Hout]%andb_prop. by destruct o; try discriminate Ho; apply IH.
Qed.

Lemma first_signal_fanout (c : nat) (ev : Conn.emitted) (m : JsMap.t nat) (k : string) :
  is_signal ev = true ->
  JsMap.get k m = Some c ->
  first_signal c (map (fun kc => Lst.Emit kc.2 ev) m) = Some ev.
Proof.
  intros Hev. induction m as [|[k0 c0] m IH]; simpl; [done|].
  destruct (String.eqb k0 k).
  - intros [= ->]. rewrite decide_True by done. by destruct ev.
  - intros Hget. destruct (decide (c0 = c)); [by destruct ev|by apply IH].
Qed.

Lemma stopServer_quiet (l : Lst.t) : forallb quiet (Lst._stopServer l).2 = true.
Proof. unfold Lst._stopServer. by destruct (Lst._server l). Qed.

Lemma stop_quiet (l : Lst.t) : forallb quiet (Lst._stop l).2 = true.
Proof.
  unfold Lst._stop. destruct (Lst._stopping l); [done|].
  destruct (decide (Lst.state l = Lst.INITIALIZING)); [done|].
  destruct (decide (Lst.state l = Lst.LISTENING)); [|done].
  pose proof (stopServer_quiet l). by destruct (Lst._stopServer l).
Qed.

Lemma run_stopHooks_quiet (n : nat) (l : Lst.t) :
  forallb quiet (Lst.run_stopHooks n l).2 = true.
Proof.
  revert l. induction n as [|n IH]; intros l; simpl; [done|].
  unfold Lst.stopHook.
  pose proof (stop_quiet (Lst.set_stopping false l)) as H1.
  destruct (Lst._stop (Lst.set_stopping false l)) as [l1 o1].
  pose proof (IH l1) as H2.
  destruct (Lst.run_stopHooks n l1) as [l2 o2]. simpl in *.
  rewrite forallb_app. by rewrite H1, H2.
Qed.

(** When the bind succeeds every waiter is told so, whatever [_stop] had
    asked for in the meantime. *)
Lemma onReady_signal (l : Lst.t) (c : nat) (k : string) :
  JsMap.get k (Lst._waitingConnections l) = Some c ->
  first_signal c (Lst._onReady l).2 = Some Conn.listenerReady.
Proof.
  intros Hget. unfold Lst._onReady.
  match goal with
  | |- context [Lst.run_stopHooks ?n ?x] =>
      pose proof (LstFacts.run_stopHooks_waiting n x) as Hw;
      pose proof (run_stopHooks_quiet n x) as Hq;
      destruct (Lst.run_stopHooks n x) as [l1 o1]
  end.
  simpl in *. rewrite first_signal_quiet by done.
  apply (first_signal_fanout c _ _ k); [done|].
  rewrite Hw. by destruct (Lst._server l).
Qed.

Lemma onStartingError_signal (l : Lst.t) (e : Conn.error) (c : nat) (k : string) :
  JsMap.get k (Lst._waitingConnections l) = Some c ->
  first_signal c (Lst._onStartingError l e).2 = Some (Conn.listenerError e).
Proof. intros Hget. by apply (first_signal_fanout c _ _ k). Qed.

(** The three ways [listenForClient] can go. *)
Lemma listenForClient_collides now (l : Lst.t) (h : Lst.heap) remoteAddress o :
  JsMap.has (Lst.key (Lst.port l) remoteAddress) (Lst._waitingConnections l) = true ->
  Lst.listenForClient now l h remoteAddress o
  = (l, (h ++ [Conn.create now (Lst.port l) remoteAddress o])%list, length h,
     [Lst.NextTick_emit (length h)
        (Conn.listenerError
           (Conn.listenError "EADDRINUSE" (Lst.bindAddress l) (Lst.port l)))]).
Proof. unfold Lst.listenForClient. by intros ->. Qed.

Lemma listenForClient_listening now (l : Lst.t) (h : Lst.heap) remoteAddress o :
  JsMap.has (Lst.key (Lst.port l) remoteAddress) (Lst._waitingConnections l) = false ->
  Lst.state l = Lst.LISTENING ->
  exists l1,
    Lst.listenForClient now l h remoteAddress o
    = (l1, (h ++ [Conn.create now (Lst.port l) remoteAddress o])%list, length h,
       [Lst.NextTick_emit (length h) Conn.listenerReady]).
Proof.
  intros Hhas Hst. unfold Lst.listenForClient. rewrite Hhas. simpl.
  rewrite decide_True by done. eauto.
Qed.

Lemma listenForClient_binding now (l : Lst.t) (h : Lst.heap) remoteAddress o :
  JsMap.has (Lst.key (Lst.port l) remoteAddress) (Lst._waitingConnections l) = false ->
  Lst.state l <> Lst.LISTENING ->
  exists l1 out1,
    Lst.listenForClient now l h remoteAddress o
    = (l1, (h ++ [Conn.create now (Lst.port l) remoteAddress o])%list, length h, out1)
    /\ first_signal (length h) out1 = None
    /\ JsMap.get (Lst.key (Lst.port l) remoteAddress) (Lst._waitingConnections l1)
       = Some (length h).
Proof.
  intros Hhas Hst. unfold Lst.listenForClient. rewrite Hhas. simpl.
  rewrite decide_False by done.
  destruct (decide (Lst.state l = Lst.CLOSED)); simpl;
    eexists _, _; (split; [reflexivity|]); split; try done; apply get_set_eq.
Qed.

Section Run.
Variable bind : Z -> bind_result.
Variable now : Z.
Variable remoteAddress : string.
Variable o : Conn.options.

Abbreviation attempt := (attempt bind now remoteAddress o).
Abbreviation verdict_of := (verdict_of bind remoteAddress).
Abbreviation collides := (collides remoteAddress).
Abbreviation frame := (Pool.frame now remoteAddress o).
Abbreviation answers := (Pool.answers bind now remoteAddress o).

Lemma frame_listener_at (w w1 : world) (p q : Z) :
  frame w p w1 -> q <> p -> listener_at (pool w1) q = listener_at (pool w) q.
Proof.
  intros (_ & _ & Hb & Hl & _) Hq. unfold listener_at. by rewrite Hl, Hb.
Qed.

Lemma frame_verdict (w w1 : world) (p q : Z) :
  frame w p w1 -> q <> p -> verdict_of w1 q = verdict_of w q.
Proof.
  intros Hf Hq. unfold Pool.verdict_of, Pool.collides, is_listening.
  by rewrite (frame_listener_at w w1 p q Hf Hq).
Qed.

Lemma attempt_unfold (more : nat) (w : world) (p : Z) :
  attempt more w p
  = let '(w, c, out) := startListener now w remoteAddress o p in
    let '(w, signal) := await bind w c out p in
    match signal with
    | Some (Conn.listenerError e) =>
        if bool_decide (Conn.code e = Some "EADDRINUSE") && (p <? _maxPort (pool w))
        then match more with
             | S more' => attempt more' w (p + 1)
             | O => (w, Pending)
             end
        else (w, Callback_error e)
    | Some _ => (w, Callback_ok c)
    | None => (w, Pending)
    end.
Proof. by destruct more. Qed.

Lemma startListener_eq (w : world) (p : Z) l1 h1 c out :
  Lst.listenForClient now (listener_at (pool w) p) (conns w) remoteAddress o
  = (l1, h1, c, out) ->
  startListener now w remoteAddress o p = (with_listener w p l1 h1, c, out).
Proof. unfold startListener. by intros ->. Qed.

Lemma with_listener_frame (w : world) (p : Z) (l1 : Lst.t) :
  frame w p
    (with_listener w p l1
       (conns w ++ [Conn.create now (Lst.port (listener_at (pool w) p)) remoteAddress o])%list).
Proof.
  repeat split; try done. intros q Hq. simpl. by rewrite lookup_insert_ne.
Qed.

Lemma with_listener_twice (w : world) (p : Z) (l1 l2 : Lst.t) (h : Lst.heap) :
  with_listener (with_listener w p l1 h) p l2 h = with_listener w p l2 h.
Proof. unfold with_listener. simpl. by rewrite insert_insert_eq. Qed.

(** When the bind of [p] ends, a waiter of its listener gets the signal. *)
Lemma settle_signal (w : world) (p : Z) (l1 : Lst.t) (h : Lst.heap) (c : nat) (k : string) :
  JsMap.get k (Lst._waitingConnections l1) = Some c ->
  exists l2,
    settle (with_listener w p l1 h) p (bind p) 
    = (with_listener w p l2 h,
       match bind p with
       | Bound => (Lst._onReady l1).2
       | Failed e => (Lst._onStartingError l1 e).2
       end)
    /\ first_signal c match bind p with
                      | Bound => (Lst._onReady l1).2
                      | Failed e => (Lst._onStartingError l1 e).2
                      end
       = Some match bind p with
              | Bound => Conn.listenerReady
              | Failed e => Conn.listenerError e
              end.
Proof.
  intros Hget. unfold settle.
  assert (Hl : listener_at (pool (with_listener w p l1 h)) p = l1).
  { unfold listener_at. simpl. by rewrite lookup_insert_eq. }
  rewrite Hl.
  destruct (bind p) as [|e].
  - pose proof (onReady_signal l1 c k Hget) as Hr.
    destruct (Lst._onReady l1) as [l2 out2].
    exists l2. split; [|done].
    change (set_listeners _ _) with (pool (with_listener (with_listener w p l1 h) p l2 h)).
    change h with (conns (with_listener (with_listener w p l1 h) p l2 h)) at 3.
    by rewrite with_listener_twice.
  - pose proof (onStartingError_signal l1 e c k Hget) as Hr.
    destruct (Lst._onStartingError l1 e) as [l2 out2].
    exists l2. split; [|done].
    change (set_listeners _ _) with (pool (with_listener (with_listener w p l1 h) p l2 h)).
    change h with (conns (with_listener (with_listener w p l1 h) p l2 h)) at 3.
    by rewrite with_listener_twice.
Qed.

(** One attempt, by the verdict on its port. *)
Lemma attempt_cases (more : nat) (w : world) (p : Z) :
  exists w1,
    frame w p w1
    /\ match verdict_of w p with
       | Free => attempt more w p = (w1, Callback_ok (length (conns w)))
       | Broken e => attempt more w p = (w1, Callback_error e)
       | Busy =>
           exists e,
             Conn.code e = Some "EADDRINUSE"
             /\ attempt more w p
                = if p <? _maxPort (pool w)
                  then match more with
                       | S more' => attempt more' w1 (p + 1)
                       | O => (w1, Pending)
                       end
                  else (w1, Callback_error e)
       end.
Proof.
  rewrite attempt_unfold.
  unfold Pool.verdict_of, Pool.collides, is_listening.
  set (l := listener_at (pool w) p).
  set (k := Lst.key (Lst.port l) remoteAddress).
  destruct (JsMap.has k (Lst._waitingConnections l)) eqn:Hhas.
  - (* a waiter for this address: the synthetic EADDRINUSE *)
    rewrite (startListener_eq w p _ _ _ _
               (listenForClient_collides now l (conns w) remoteAddress o Hhas)).
    unfold await. cbn [first_signal]. rewrite decide_True by done.
    eexists. split; [apply with_listener_frame|].
    eexists. split; [|reflexivity]. reflexivity.
  - destruct (decide (Lst.state l = Lst.LISTENING)) as [Hst|Hst].
    + (* listening already: ready on the next tick *)
      destruct (listenForClient_listening now l (conns w) remoteAddress o Hhas Hst)
        as [l1 E].
      rewrite (startListener_eq w p _ _ _ _ E).
      unfold await. cbn [first_signal]. rewrite decide_True by done.
      rewrite bool_decide_eq_true_2 by done.
      eexists. split; [apply with_listener_frame|reflexivity].
    + (* the server is binding, or is started now *)
      rewrite bool_decide_eq_false_2 by done.
      destruct (listenForClient_binding now l (conns w) remoteAddress o Hhas Hst)
        as (l1 & out1 & E & Hsig & Hget1).
      rewrite (startListener_eq w p _ _ _ _ E).
      unfold await. rewrite Hsig.
      destruct (settle_signal w p l1
                  (conns w ++ [Conn.create now (Lst.port l) remoteAddress o])%list
                  _ _ Hget1) as (l2 & -> & ->).
      exists (with_listener w p l2
                (conns w ++ [Conn.create now (Lst.port l) remoteAddress o])%list).
      split; [apply with_listener_frame|].
      destruct (bind p) as [|e]; [reflexivity|].
      destruct (bool_decide (Conn.code e = Some "EADDRINUSE")) eqn:Hcode.
      * apply bool_decide_eq_true in Hcode. exists e. split; [done|reflexivity].
      * reflexivity.
Qed.

(** The attempt at [p] settles it: the port is free or broken. *)
Lemma answers_here (w w1 : world) (p : Z) (r : result) :
  p <= _maxPort (pool w) ->
  r <> Pending ->
  match verdict_of w p with
  | Free =>
      exists c,
        r = Callback_ok c
        /\ conns w1 !! c
           = Some (Conn.create now (Lst.port (listener_at (pool w) p)) remoteAddress o)
  | Broken e => r = Callback_error e
  | Busy => False
  end ->
  answers w p (w1, r).
Proof.
  intros Hp Hr Hv. split; [done|]. split.
  - intros q Hq Hbusy. destruct (decide (q = p)) as [->|Hne].
    + by destruct (verdict_of w p).
    + rewrite (Hbusy p) in Hv by lia. done.
  - intros Hall. rewrite (Hall p) in Hv by lia. done.
Qed.

Lemma answers_top (w w1 : world) (p : Z) (e : Conn.error) :
  p = _maxPort (pool w) ->
  verdict_of w p = Busy ->
  Conn.code e = Some "EADDRINUSE" ->
  answers w p (w1, Callback_error e).
Proof.
  intros Hp Hvp Hcode. split; [done|]. split.
  - intros q Hq Hbusy. assert (q = p) as -> by lia. by rewrite Hvp.
  - intros _. by exists e.
Qed.

Lemma answers_next (w w1 : world) (p : Z) (r : world * result) :
  frame w p w1 ->
  verdict_of w p = Busy ->
  answers w1 (p + 1) r ->
  answers w p r.
Proof.
  intros Hf Hvp (Ha & Hb & Hd).
  pose proof Hf as (Hmin & Hmax & Hbind & Hl & Hc).
  split; [done|]. split.
  - intros q Hq Hbusy. destruct (decide (q = p)) as [->|Hne]; [by rewrite Hvp|].
    assert (Hq1 : p + 1 <= q <= _maxPort (pool w1)) by lia.
    specialize (Hb q Hq1).
    rewrite (frame_verdict w w1 p q Hf Hne) in Hb.
    rewrite (frame_listener_at w w1 p q Hf Hne) in Hb.
    apply Hb. intros x Hx.
    rewrite (frame_verdict w w1 p x Hf) by lia. apply Hbusy. lia.
  - intros Hall. apply Hd. intros x Hx.
    rewrite (frame_verdict w w1 p x Hf) by lia. apply Hall. lia.
Qed.

Lemma attempt_answers (more : nat) (w : world) (p : Z) :
  p <= _maxPort (pool w) ->
  (Z.to_nat (_maxPort (pool w) - p) <= more)%nat ->
  answers w p (attempt more w p).
Proof.
  revert w p. induction more as [|more IH]; intros w p Hp Hmore.
  - destruct (attempt_cases O w p) as (w1 & Hf & Hv).
    pose proof Hf as (Hmin & Hmax & Hbind & Hl & Hc).
    destruct (verdict_of w p) as [| |e0] eqn:Hvp.
    + rewrite Hv. apply answers_here; [done|done|]. rewrite Hvp.
      exists (length (conns w)). split; [done|].
      rewrite Hc. by apply list_lookup_middle.
    + destruct Hv as (e & Hcode & ->).
      destruct (p <? _maxPort (pool w)) eqn:Hlt.
      * apply Z.ltb_lt in Hlt. lia.
      * apply Z.ltb_ge in Hlt. apply answers_top; [lia|done|done].
    + rewrite Hv. apply answers_here; [done|done|]. by rewrite Hvp.
  - destruct (attempt_cases (S more) w p) as (w1 & Hf & Hv).
    pose proof Hf as (Hmin & Hmax & Hbind & Hl & Hc).
    destruct (verdict_of w p) as [| |e0] eqn:Hvp.
    + rewrite Hv. apply answers_here; [done|done|]. rewrite Hvp.
      exists (length (conns w)). split; [done|].
      rewrite Hc. by apply list_lookup_middle.
    + destruct Hv as (e & Hcode & ->).
      destruct (p <? _maxPort (pool w)) eqn:Hlt.
      * apply Z.ltb_lt in Hlt.
        apply (answers_next w w1 p); [done|done|].
        apply IH; lia.
      * apply Z.ltb_ge in Hlt. apply answers_top; [lia|done|done].
    + rewrite Hv. apply answers_here; [done|done|]. by rewrite Hvp.
Qed.

Lemma wf_listener_port (w : world) (p : Z) :
  wf (pool w) -> Lst.port (listener_at (pool w) p) = p.
Proof.
  intros Hwf. unfold listener_at.
  destruct (_listeners (pool w) !! p) as [l|] eqn:E; [by apply Hwf|done].
Qed.


(** [wf] is an invariant of the pool: it holds of a new pool and every call
    keeps it. *)
Lemma wf_create (bindAddress : option string) (portRange : option Z * option Z) :
  wf (create bindAddress portRange).
Proof. intros p l. simpl. by rewrite lookup_empty. Qed.

Lemma stopServer_port (l : Lst.t) : Lst.port (Lst._stopServer l).1 = Lst.port l.
Proof. unfold Lst._stopServer. by destruct (Lst._server l). Qed.

Lemma stop_port (l : Lst.t) : Lst.port (Lst._stop l).1 = Lst.port l.
Proof.
  unfold Lst._stop. destruct (Lst._stopping l); [done|].
  destruct (decide (Lst.state l = Lst.INITIALIZING)); [done|].
  destruct (decide (Lst.state l = Lst.LISTENING)); [|done].
  pose proof (stopServer_port l). by destruct (Lst._stopServer l).
Qed.

Lemma run_stopHooks_port (n : nat) (l : Lst.t) :
  Lst.port (Lst.run_stopHooks n l).1 = Lst.port l.
Proof.
  revert l. induction n as [|n IH]; intros l; simpl; [done|].
  unfold Lst.stopHook.
  pose proof (stop_port (Lst.set_stopping false l)) as H1.
  destruct (Lst._stop (Lst.set_stopping false l)) as [l1 o1].
  pose proof (IH l1) as H2.
  destruct (Lst.run_stopHooks n l1) as [l2 o2]. simpl in *. congruence.
Qed.

Lemma onReady_port (l : Lst.t) : Lst.port (Lst._onReady l).1 = Lst.port l.
Proof.
  unfold Lst._onReady.
  match goal with
  | |- context [Lst.run_stopHooks ?n ?x] =>
      pose proof (run_stopHooks_port n x) as H;
      destruct (Lst.run_stopHooks n x) as [l1 o1]
  end.
  simpl in *. rewrite H. by destruct (Lst._server l).
Qed.

Lemma listenForClient_port (l : Lst.t) (h : Lst.heap) :
  Lst.port (Lst.listenForClient now l h remoteAddress o).1.1.1 = Lst.port l.
Proof.
  unfold Lst.listenForClient. destruct (JsMap.has _ _); [done|].
  destruct (decide (_ = Lst.LISTENING)); [done|].
  by destruct (decide (_ = Lst.CLOSED)).
Qed.

Lemma wf_with_listener (w : world) (p : Z) (l : Lst.t) (h : Lst.heap) :
  wf (pool w) -> Lst.port l = p -> wf (pool (with_listener w p l h)).
Proof.
  intros Hwf Hl q l0. simpl. destruct (decide (p = q)) as [->|Hne].
  - rewrite lookup_insert_eq. by intros [= <-].
  - rewrite lookup_insert_ne by done. apply Hwf.
Qed.

Lemma startListener_wf (w : world) (p : Z) :
  wf (pool w) -> wf (pool (startListener now w remoteAddress o p).1.1).
Proof.
  intros Hwf. unfold startListener.
  pose proof (listenForClient_port (listener_at (pool w) p) (conns w)) as Hp.
  destruct (Lst.listenForClient _ _ _ _ _) as [[[l1 h1] c] out]. simpl in *.
  apply (wf_with_listener w p l1 h1 Hwf).
  rewrite Hp. by apply wf_listener_port.
Qed.

Lemma settle_wf (w : world) (p : Z) (b : bind_result) :
  wf (pool w) -> wf (pool (settle w p b).1).
Proof.
  intros Hwf. unfold settle.
  pose proof (wf_listener_port w p Hwf) as Hp.
  destruct b as [|e].
  - pose proof (onReady_port (listener_at (pool w) p)) as Hr.
    destruct (Lst._onReady _) as [l1 o1]. simpl in *.
    apply (wf_with_listener w p l1 (conns w) Hwf). congruence.
  - simpl. apply (wf_with_listener w p _ (conns w) Hwf). done.
Qed.

Lemma await_wf (w : world) (c : nat) (out : list Lst.output) (p : Z) :
  wf (pool w) -> wf (pool (await bind w c out p).1).
Proof.
  intros Hwf. unfold await. destruct (first_signal c out); [done|].
  pose proof (settle_wf w p (bind p) Hwf).
  by destruct (settle w p (bind p)).
Qed.

Lemma attempt_wf (more : nat) (w : world) (p : Z) :
  wf (pool w) -> wf (pool (attempt more w p).1).
Proof.
  revert w p. induction more as [|more IH]; intros w p Hwf;
    rewrite attempt_unfold;
    pose proof (startListener_wf w p Hwf) as H1;
    destruct (startListener now w remoteAddress o p) as [[w1 c] out];
    pose proof (await_wf w1 c out p H1) as H2;
    destruct (await bind w1 c out p) as [w2 [ev|]]; simpl in *; try done;
    destruct ev; try done;
    destruct (bool_decide _ && _); try done.
  by apply IH.
Qed.

Lemma createDataConnection_wf (w : world) :
  wf (pool w) -> wf (pool (createDataConnection bind now remoteAddress o w).1).
Proof. apply attempt_wf. Qed.

End Run.


End PoolFacts.

(** ** Further properties of the address encoding *)

Module AddressMore.
Import Js Address Words.

(** *** Decimal numbers as the code prints and reads them *)

Lemma is_digit_char (d : N) : is_digit (pretty_N_char d) = true.
Proof. unfold pretty_N_char. by repeat case_match. Qed.

Lemma digit_value_char (d : N) : (d < 10)%N -> digit_value (pretty_N_char d) = Z.of_N d.
Proof.
  intros Hd.
  assert (H : forallb (fun k => digit_value (pretty_N_char (N.of_nat k)) =? Z.of_nat k)
                (seq 0 10) = true) by (by vm_compute).
  rewrite forallb_forall in H.
  specialize (H (N.to_nat d)). rewrite N2Nat.id in H.
  apply Z.eqb_eq in H; [lia|]. apply in_seq. lia.
Qed.

(** Reading back the digits that [pretty] has put in front of [s]. *)
Lemma parse_pretty_go (x : N) (s : string) :
  parse_digits 0 (pretty_N_go x s) = parse_digits (Z.of_N x) s.
Proof.
  revert s. induction (N.lt_wf_0 x) as [x _ IH]; intros s.
  destruct (decide (x = 0%N)) as [->|Hx]; [by rewrite pretty_N_go_0|].
  rewrite pretty_N_go_step by lia.
  rewrite IH by (apply N.div_lt; lia).
  cbn [parse_digits]. rewrite is_digit_char.
  rewrite digit_value_char by (apply N.mod_lt; lia).
  f_equal. pose proof (N.div_mod x 10). lia.
Qed.

Lemma all_digits_pretty_go (x : N) (s : string) :
  all_digits (pretty_N_go x s) = all_digits s.
Proof.
  revert s. induction (N.lt_wf_0 x) as [x _ IH]; intros s.
  destruct (decide (x = 0%N)) as [->|Hx]; [by rewrite pretty_N_go_0|].
  rewrite pretty_N_go_step by lia.
  rewrite IH by (apply N.div_lt; lia).
  unfold all_digits. simpl. by rewrite is_digit_char.
Qed.

Lemma pretty_N_nonempty (x : N) : pretty x <> "".
Proof.
  unfold pretty, pretty_N. destruct (decide (x = 0%N)); [done|].
  rewrite pretty_N_go_step by lia. intros H.
  assert (Hlen : forall y s, (String.length s <= String.length (pretty_N_go y s))%nat).
  { intros y. induction (N.lt_wf_0 y) as [y _ IH]; intros s.
    destruct (decide (y = 0%N)) as [->|Hy]; [by rewrite pretty_N_go_0|].
    rewrite pretty_N_go_step by lia.
    etrans; [|apply IH; apply N.div_lt; lia]. simpl. lia. }
  specialize (Hlen (x `div` 10)%N (String (pretty_N_char (x `mod` 10)) "")).
  rewrite H in Hlen. simpl in Hlen. lia.
Qed.

Lemma all_digits_pretty (z : Z) : 0 <= z -> all_digits (pretty z) = true.
Proof.
  intros Hz. destruct z as [|p|p]; [done| |lia].
  unfold pretty, pretty_Z, pretty, pretty_positive, pretty, pretty_N.
  destruct (decide (N.pos p = 0%N)); [done|]. by rewrite all_digits_pretty_go.
Qed.

Lemma parse_digits_pretty (z : Z) : 0 <= z -> parse_digits 0 (pretty z) = z.
Proof.
  intros Hz. destruct z as [|p|p]; [done| |lia].
  unfold pretty, pretty_Z, pretty, pretty_positive, pretty, pretty_N.
  destruct (decide (N.pos p = 0%N)); [done|]. by rewrite parse_pretty_go.
Qed.

Lemma all_digits_head (s : string) :
  all_digits s = true -> s <> "" -> exists c s', s = String c s' /\ is_digit c = true.
Proof.
  destruct s as [|c s']; [done|]. unfold all_digits. simpl.
  intros [Hc _]%andb_prop _. eauto.
Qed.

(** [parseInt] reads a number back from its decimal form. *)
Lemma parseInt_pretty (z : Z) : 0 <= z -> parseInt (pretty z) = Num z.
Proof.
  intros Hz.
  assert (Hne : pretty z <> "").
  { destruct z as [|p|p]; [done| |lia]. apply (pretty_N_nonempty (N.pos p)). }
  destruct (all_digits_head _ (all_digits_pretty z Hz) Hne) as (c & s' & E & Hc).
  unfold parseInt. rewrite E, Hc, <- E. by rewrite parse_digits_pretty.
Qed.

Lemma all_digits_contains (c : ascii) (s : string) :
  all_digits s = true -> is_digit c = false -> contains c s = false.
Proof.
  intros Hs Hc. induction s as [|d s IH]; [done|].
  unfold all_digits in Hs. simpl in Hs. apply andb_prop in Hs as [Hd Hs].
  simpl. rewrite (IH Hs), orb_false_r.
  apply Ascii.eqb_neq. intros ->. congruence.
Qed.

Lemma parse_digits_nonneg (s : string) (acc : Z) : 0 <= acc -> 0 <= parse_digits acc s.
Proof.
  revert acc. induction s as [|c s IH]; intros acc Hacc; simpl; [done|].
  destruct (is_digit c) eqn:Hc; [|done]. apply IH.
  unfold is_digit in Hc. apply andb_prop in Hc as [H1 H2].
  apply Nat.leb_le in H1. unfold digit_value. lia.
Qed.

(** A string of digits is read as a natural number. *)
Lemma parseInt_digits (s : string) :
  digits_between 1 3 s = true -> exists n, parseInt s = Num n /\ 0 <= n.
Proof.
  unfold digits_between. intros [[Hd Hlo]%andb_prop _]%andb_prop.
  assert (Hne : s <> "") by (intros ->; discriminate Hlo).
  destruct (all_digits_head s Hd Hne) as (c & s' & -> & Hc).
  unfold parseInt. rewrite Hc. eexists. split; [done|].
  by apply parse_digits_nonneg.
Qed.

(** An octet is printed with one to three digits. *)
Lemma octet_digits (n : Z) : octet n -> digits_between 1 3 (pretty n) = true.
Proof.
  intros [H0 H255].
  assert (H : forallb (fun k => digits_between 1 3 (pretty (Z.of_nat k))) (seq 0 256) = true)
    by (by vm_compute).
  rewrite forallb_forall in H.
  specialize (H (Z.to_nat n)). rewrite Z2Nat.id in H by done.
  apply H, in_seq. lia.
Qed.

(** *** Cutting and joining *)

Lemma split_cons (sep : ascii) (s1 rest : string) :
  contains sep s1 = false ->
  split sep (s1 +:+ String sep rest) = s1 :: split sep rest.
Proof.
  induction s1 as [|c s1 IH]; simpl.
  - intros _. by rewrite Ascii.eqb_refl.
  - intros [Hc Hs]%orb_false_elim. rewrite Hc, (IH Hs). done.
Qed.

Lemma no_sep_in_number (sep : ascii) (n : Z) :
  0 <= n -> is_digit sep = false -> contains sep (pretty n) = false.
Proof. intros Hn Hsep. by apply all_digits_contains; [apply all_digits_pretty|]. Qed.

(** Six numbers joined by [sep] are cut back into the six. *)
Lemma split_six (sep : ascii) (a b c d e f : Z) :
  is_digit sep = false ->
  0 <= a -> 0 <= b -> 0 <= c -> 0 <= d -> 0 <= e -> 0 <= f ->
  split sep (pretty a +:+ String sep (pretty b +:+ String sep (pretty c +:+
             String sep (pretty d +:+ String sep (pretty e +:+ String sep (pretty f))))))
  = [pretty a; pretty b; pretty c; pretty d; pretty e; pretty f].
Proof.
  intros Hsep Ha Hb Hc Hd He Hf.
  rewrite !split_cons by (by apply no_sep_in_number).
  by rewrite LstFacts.split_without by (by apply no_sep_in_number).
Qed.

Lemma split_four (sep : ascii) (a b c d : Z) :
  is_digit sep = false ->
  0 <= a -> 0 <= b -> 0 <= c -> 0 <= d ->
  split sep (pretty a +:+ String sep (pretty b +:+ String sep (pretty c +:+
             String sep (pretty d))))
  = [pretty a; pretty b; pretty c; pretty d].
Proof.
  intros Hsep Ha Hb Hc Hd.
  rewrite !split_cons by (by apply no_sep_in_number).
  by rewrite LstFacts.split_without by (by apply no_sep_in_number).
Qed.

(** The two numbers that stand for a port. *)
Lemma port_halves (p : Z) :
  0 <= p <= 65535 ->
  wrap32 (Z.quot p 256) = p / 256
  /\ Z.rem p 256 = p mod 256
  /\ octet (p / 256) /\ octet (p mod 256)
  /\ (p / 256) * 256 + p mod 256 = p.
Proof.
  intros Hp. unfold octet, wrap32.
  rewrite Z.quot_div_nonneg, Z.rem_mod_nonneg by lia.
  pose proof (Z.div_mod p 256 ltac:(lia)).
  pose proof (Z.mod_pos_bound p 256 ltac:(lia)).
  assert (0 <= p / 256 <= 255).
  { split; [apply Z.div_pos; lia|].
    assert (p / 256 < 256) by (apply Z.div_lt_upper_bound; lia). lia. }
  change (2 ^ 31) with 2147483648. change (2 ^ 32) with 4294967296.
  repeat split; try lia.
  rewrite Z.mod_small; lia.
Qed.


Lemma append_cons (x : ascii) (a b : string) : String x a +:+ b = String x (a +:+ b).
Proof. reflexivity. Qed.

Lemma append_nil (b : string) : "" +:+ b = b.
Proof. reflexivity. Qed.

Lemma append_assoc (a b c : string) : (a +:+ b) +:+ c = a +:+ (b +:+ c).
Proof. induction a as [|x a IH]; [done|]. rewrite !append_cons. by f_equal. Qed.

(** The reply text of [encodeAddress] on a dotted quad: six numbers between
    commas. *)
Lemma encodeAddress_dotted (a b c d p : Z) :
  0 <= a -> 0 <= b -> 0 <= c -> 0 <= d -> 0 <= p <= 65535 ->
  encodeAddress (dotted a b c d) p
  = pretty a +:+ String "," (pretty b +:+ String "," (pretty c +:+
      String "," (pretty d +:+ String "," (pretty (p / 256) +:+
      String "," (pretty (p mod 256)))))).
Proof.
  intros Ha Hb Hc Hd Hp. unfold encodeAddress, dotted.
  destruct (port_halves p Hp) as (-> & -> & _).
  rewrite !(append_cons "." ""), !append_nil.
  rewrite split_four by done. cbn [join].
  rewrite !(append_cons "," ""), !append_nil.
  by rewrite ?append_assoc, ?append_cons, ?append_assoc, ?append_cons,
    ?append_assoc, ?append_cons.
Qed.

Lemma gt_octet (n : Z) : octet n -> gt (Num n) (Num 255) = false.
Proof. intros [_ H]. simpl. lia. Qed.

(** X1. Decoding what [encodeAddress] has written gives the host back, and no
    port: the four numbers of the host survive the round trip, the port is
    [NaN]. *)
Theorem decodeAddress_encodeAddress (a b c d p : Z) :
  octet a -> octet b -> octet c -> octet d -> 0 <= p <= 65535 ->
  decodeAddress (encodeAddress (dotted a b c d) p)
  = Some {| host := dotted a b c d; port := NaN |}.
Proof.
  intros Ha Hb Hc Hd Hp.
  destruct (port_halves p Hp) as (_ & _ & He & Hf & _).
  rewrite encodeAddress_dotted by (unfold octet in *; lia).
  unfold decodeAddress, ENCODED_ADDRESS_test.
  rewrite split_six by (unfold octet in *; first [done | lia]).
  cbn [length Nat.eqb forallb map].
  rewrite !octet_digits by done.
  rewrite !parseInt_pretty by (unfold octet in *; lia).
  cbn [andb negb existsb]. rewrite !gt_octet by done.
  cbn [orb take map lookup list_lookup toString join ToNumber add shl].
  reflexivity.
Qed.

Lemma decodeAddress_encodeAddress_witness :
  decodeAddress (encodeAddress (dotted 192 168 0 7) 44001)
  = Some {| host := "192.168.0.7"; port := NaN |}.
Proof.
  apply (decodeAddress_encodeAddress 192 168 0 7 44001); unfold octet; lia.
Defined.

(** X2. What a client reads from the text of [encodeAddress]: six numbers, the
    four of the host and two octets [p1], [p2] with [p1 * 256 + p2] the
    port. *)
Theorem encodeAddress_numbers (a b c d p : Z) :
  octet a -> octet b -> octet c -> octet d -> 0 <= p <= 65535 ->
  ENCODED_ADDRESS_test (encodeAddress (dotted a b c d) p) = true
  /\ exists p1 p2,
       map parseInt (split "," (encodeAddress (dotted a b c d) p))
       = [Num a; Num b; Num c; Num d; Num p1; Num p2]
       /\ octet p1 /\ octet p2 /\ p1 * 256 + p2 = p.
Proof.
  intros Ha Hb Hc Hd Hp.
  destruct (port_halves p Hp) as (_ & _ & He & Hf & Hsum).
  rewrite encodeAddress_dotted by (unfold octet in *; lia).
  unfold ENCODED_ADDRESS_test.
  rewrite split_six by (unfold octet in *; first [done | lia]).
  split.
  - cbn [length Nat.eqb forallb]. by rewrite !octet_digits by done.
  - exists (p / 256), (p mod 256). cbn [map].
    by rewrite !parseInt_pretty by (unfold octet in *; lia).
Qed.

Lemma encodeAddress_numbers_witness :
  ENCODED_ADDRESS_test (encodeAddress (dotted 10 0 0 1) 1234) = true
  /\ exists p1 p2,
       map parseInt (split "," (encodeAddress (dotted 10 0 0 1) 1234))
       = [Num 10; Num 0; Num 0; Num 1; Num p1; Num p2]
       /\ octet p1 /\ octet p2 /\ p1 * 256 + p2 = 1234.
Proof.
  apply (encodeAddress_numbers 10 0 0 1 1234); unfold octet; lia.
Defined.


Lemma parseInt_octet (s : string) :
  digits_between 1 3 s = true -> gt (parseInt s) (Num 255) = false ->
  exists n, parseInt s = Num n /\ octet n.
Proof.
  intros Hd Hgt. destruct (parseInt_digits s Hd) as (n & E & Hn).
  exists n. split; [done|]. rewrite E in Hgt. simpl in Hgt. unfold octet. lia.
Qed.

(** X3. [decodeAddress] accepts a text only when it is six numbers of at most
    255 between commas; the host it gives is the first four joined by dots (so
    [010] is read as [10]), and the port is [NaN] whatever the last two are. *)
Theorem decodeAddress_accepts (encoded : string) (e : endpoint) :
  decodeAddress encoded = Some e ->
  exists a b c d p1 p2,
    map parseInt (split "," encoded) = [Num a; Num b; Num c; Num d; Num p1; Num p2]
    /\ octet a /\ octet b /\ octet c /\ octet d /\ octet p1 /\ octet p2
    /\ e = {| host := dotted a b c d; port := NaN |}.
Proof.
  unfold decodeAddress, ENCODED_ADDRESS_test.
  destruct (split "," encoded) as [|s1 [|s2 [|s3 [|s4 [|s5 [|s6 [|s7 r]]]]]]];
    try discriminate.
  cbn [length Nat.eqb andb forallb].
  destruct (digits_between 1 3 s1) eqn:D1; [|discriminate].
  destruct (digits_between 1 3 s2) eqn:D2; [|discriminate].
  destruct (digits_between 1 3 s3) eqn:D3; [|discriminate].
  destruct (digits_between 1 3 s4) eqn:D4; [|discriminate].
  destruct (digits_between 1 3 s5) eqn:D5; [|discriminate].
  destruct (digits_between 1 3 s6) eqn:D6; [|discriminate].
  cbn [andb negb map existsb].
  destruct (gt (parseInt s1) (Num 255)) eqn:G1; [discriminate|].
  destruct (gt (parseInt s2) (Num 255)) eqn:G2; [discriminate|].
  destruct (gt (parseInt s3) (Num 255)) eqn:G3; [discriminate|].
  destruct (gt (parseInt s4) (Num 255)) eqn:G4; [discriminate|].
  destruct (gt (parseInt s5) (Num 255)) eqn:G5; [discriminate|].
  destruct (gt (parseInt s6) (Num 255)) eqn:G6; [discriminate|].
  destruct (parseInt_octet s1 D1 G1) as (a & -> & Ha).
  destruct (parseInt_octet s2 D2 G2) as (b & -> & Hb).
  destruct (parseInt_octet s3 D3 G3) as (c & -> & Hc).
  destruct (parseInt_octet s4 D4 G4) as (d & -> & Hd).
  destruct (parseInt_octet s5 D5 G5) as (p1 & -> & Hp1).
  destruct (parseInt_octet s6 D6 G6) as (p2 & -> & Hp2).
  cbn [orb]. intros [= <-].
  exists a, b, c, d, p1, p2. repeat split; try done; apply Ha || apply Hb || apply Hc
    || apply Hd || apply Hp1 || apply Hp2.
Qed.

Lemma decodeAddress_accepts_witness :
  exists a b c d p1 p2,
    map parseInt (split "," "010,0,0,7,171,225")
    = [Num a; Num b; Num c; Num d; Num p1; Num p2]
    /\ octet a /\ octet b /\ octet c /\ octet d /\ octet p1 /\ octet p2
    /\ {| host := "10.0.0.7"; port := NaN |}
       = {| host := dotted a b c d; port := NaN |}.
Proof.
  apply (decodeAddress_accepts "010,0,0,7,171,225"). reflexivity.
Defined.

End AddressMore.

(** ** Further properties of the control session *)

Module SessionMore.
Import Js Address Session Words.

Lemma actions_run_cons srv (s : t) (e : event) (es : list event) :
  snd (run srv s (e :: es))
  = snd (step srv s e) :: snd (run srv (fst (step srv s e)) es).
Proof.
  cbn [run]. destruct (step srv s e) as [s1 a]. cbn [fst snd].
  by destruct (run srv s1 es).
Qed.

(** What a handler behind the gate does to the fields [hasQuit] and
    [username], and how often it calls the pool. *)
Record handler_facts (s : t) (r : t * list action) : Prop := {
  keeps_hasQuit : hasQuit s = true -> hasQuit (fst r) = true;
  keeps_username : username (fst r) = username s;
  keeps_allowed : allowedCommands (fst r) = allowedCommands s;
  pass_calls : (pass_hooks (snd r) + owed (fst r) <= owed s)%nat;
  pool_calls :
    List.filter is_pool_request (snd r) = []
    \/ (received s = false /\ received (fst r) = true
        /\ length (List.filter is_pool_request (snd r)) = 1%nat);
}.

Lemma handler_facts_reply (s : t) (acts : list action) :
  List.filter is_pool_request acts = [] -> pass_hooks acts = 0%nat ->
  handler_facts s (s, acts).
Proof. intros H H'. split; auto. cbn [fst snd]. lia. Qed.

Lemma PORT_facts (s : t) (a : string) : handler_facts s (__PORT s a).
Proof.
  unfold __PORT. destruct (_hasReceivedPASV s || _hasReceivedPORT s).
  - by apply handler_facts_reply.
  - destruct (decodeAddress a) as [e|]; split; cbn; auto.
Qed.

Lemma PASV_facts srv (s : t) (a c : string) : handler_facts s (__PASV srv s a c).
Proof.
  unfold __PASV. destruct (_hasReceivedPASV s || _hasReceivedPORT s) eqn:E.
  - by apply handler_facts_reply.
  - split; cbn; auto.
Qed.

Lemma execCommand_facts srv (s : t) (c a : string) :
  handler_facts s (_execCommand srv s c a).
Proof.
  unfold _execCommand, __EPRT, __EPSV.
  repeat case_match; auto using PORT_facts, PASV_facts, handler_facts_reply.
  - unfold __QUIT. split; cbn; auto.
  - unfold __USER. case_match; by apply handler_facts_reply.
  - unfold __PASS. destruct (isWaitingForPassword s) eqn:E; cbn [negb];
      [|by apply handler_facts_reply].
    split; cbn; auto. unfold owed. rewrite E. cbn. lia.
Qed.

Lemma onData_facts srv (s : t) (data : string) : handler_facts s (_onData srv s data).
Proof.
  destruct (SessionFacts.onData_cases srv s data) as [->|[[m ->]|(c & a & ->)]];
    auto using handler_facts_reply, execCommand_facts.
Qed.

Lemma step_keeps_hasQuit srv (s : t) (e : event) :
  hasQuit s = true -> hasQuit (fst (step srv s e)) = true.
Proof.
  intros H. destruct e; cbn [step];
    try (by apply onData_facts); try done;
    unfold PASV_callback, _onDataConnection, dataSocket_allOver, PASS_success,
      QUIT_callback, _closeDataConnections, _onClose;
    repeat case_match; simplify_eq; done.
Qed.

Lemma run_keeps_hasQuit srv (es : list event) (s : t) :
  hasQuit s = true -> hasQuit (state_after srv s es) = true.
Proof.
  revert s. induction es as [|e es IH]; intros s H; [done|].
  rewrite SessionFacts.state_after_cons. by apply IH, step_keeps_hasQuit.
Qed.

Lemma step_keeps_allowed srv (s : t) (e : event) :
  allowedCommands (fst (step srv s e)) = allowedCommands s.
Proof.
  destruct e; cbn [step];
    try (by apply onData_facts); try done;
    unfold PASV_callback, _onDataConnection, dataSocket_allOver, PASS_success,
      QUIT_callback, _closeDataConnections, _onClose;
    repeat case_match; simplify_eq; done.
Qed.

Lemma run_keeps_allowed srv (es : list event) (s : t) :
  allowedCommands (state_after srv s es) = allowedCommands s.
Proof.
  revert s. induction es as [|e es IH]; intros s; [done|].
  by rewrite SessionFacts.state_after_cons, IH, step_keeps_allowed.
Qed.

(** X4. QUIT is answered 221, and from then on the session drops every line
    the client sends, whatever else happens in between: no reply, no handler,
    no change of state. *)
Theorem nothing_is_answered_after_QUIT srv (s : t) (commandArg : string) :
  let s1 := fst (_execCommand srv s "QUIT" commandArg) in
  snd (_execCommand srv s "QUIT" commandArg) = [Respond "221 Goodbye"]
  /\ forall (es : list event) (data : string),
       step srv (state_after srv s1 es) (Data data) = (state_after srv s1 es, []).
Proof.
  split; [done|]. intros es data. cbn [step]. unfold _onData.
  by rewrite run_keeps_hasQuit.
Qed.

Lemma step_keeps_unauthenticated srv (s : t) (e : event) :
  is_PassSuccess e = false ->
  _isAuthenticated s = false -> _isAuthenticated (fst (step srv s e)) = false.
Proof.
  intros He H.
  assert (Hu : username (fst (step srv s e)) = username s
               \/ username (fst (step srv s e)) = None).
  { destruct e; try discriminate He; cbn [step];
      try (left; by apply onData_facts);
      unfold PASV_callback, _onDataConnection, dataSocket_allOver,
        QUIT_callback, _closeDataConnections, _onClose, PASS_failure;
      repeat case_match; simplify_eq; cbn; auto. }
  unfold _isAuthenticated in *. by destruct Hu as [-> | ->].
Qed.

Lemma run_keeps_unauthenticated srv (es : list event) (s : t) :
  forallb (fun e => negb (is_PassSuccess e)) es = true ->
  _isAuthenticated s = false -> _isAuthenticated (state_after srv s es) = false.
Proof.
  revert s. induction es as [|e es IH]; intros s Hes H; [done|].
  cbn [forallb] in Hes. apply andb_prop in Hes as [He Hes].
  rewrite SessionFacts.state_after_cons. apply IH; [done|].
  apply step_keeps_unauthenticated; [|done]. by apply negb_true_iff.
Qed.

(** X5. Until the password hook reports success, no command outside the
    NO_AUTH table reaches its handler: the line is dropped (after QUIT) or
    gets one of the refusals 502, 522, 530, and the session is unchanged. *)
Theorem no_command_runs_before_login srv (s : t) (es : list event) (data : string) :
  _isAuthenticated s = false ->
  forallb (fun e => negb (is_PassSuccess e)) es = true ->
  has_command COMMANDS_NO_AUTH (fst (parseCommand srv data)) = false ->
  let s' := state_after srv s es in
  step srv s' (Data data) = (s', [])
  \/ exists m, gate_refusal m /\ step srv s' (Data data) = (s', [Respond m]).
Proof.
  intros Hs Hes Hc s'.
  pose proof (run_keeps_unauthenticated srv es s Hes Hs) as Hs'. fold s' in Hs'.
  cbn [step]. unfold _onData. destruct (hasQuit s'); [by left|]. right.
  destruct (parseCommand srv data) as [c a]. cbn [fst] in Hc.
  unfold dispatch, gate_refusal. rewrite Hc, Hs'. cbn [negb].
  repeat case_match; eauto.
Qed.

Lemma no_command_runs_before_login_witness :
  let s' := state_after srv0 (create None)
              [Data "USER alice"; UserSuccess; Data "PASS wrong"; PassFailure] in
  step srv0 s' (Data "retr secret.txt") = (s', [])
  \/ exists m, gate_refusal m /\ step srv0 s' (Data "retr secret.txt") = (s', [Respond m]).
Proof.
  apply (no_command_runs_before_login srv0 (create None)
           [Data "USER alice"; UserSuccess; Data "PASS wrong"; PassFailure]
           "retr secret.txt"); reflexivity.
Defined.

Lemma step_pool_calls srv (s : t) (e : event) :
  List.filter is_pool_request (snd (step srv s e)) = []
  \/ (received s = false /\ received (fst (step srv s e)) = true
      /\ length (List.filter is_pool_request (snd (step srv s e))) = 1%nat).
Proof.
  destruct e; cbn [step]; try (by apply onData_facts); left;
    unfold PASV_callback, _onDataConnection, dataSocket_allOver, PASS_success,
      QUIT_callback, _closeDataConnections, _onClose;
    repeat case_match; simplify_eq; done.
Qed.

Lemma pool_requests_cons (a : list action) (rest : list (list action)) :
  pool_requests (a :: rest)
  = (length (List.filter is_pool_request a) + pool_requests rest)%nat.
Proof. unfold pool_requests. cbn [concat]. by rewrite List.filter_app, length_app. Qed.

Lemma pool_requests_bound srv (es : list event) (s : t) :
  (pool_requests (snd (run srv s es)) <= if received s then 0 else 1)%nat.
Proof.
  revert s. induction es as [|e es IH]; intros s.
  - cbn. destruct (received s); lia.
  - rewrite actions_run_cons, pool_requests_cons.
    specialize (IH (fst (step srv s e))).
    destruct (step_pool_calls srv s e) as [-> | (H0 & H1 & ->)].
    + cbn [length]. destruct (received s) eqn:E; [|destruct (received _); lia].
      by rewrite (SessionFacts.step_keeps_received srv s e E) in IH.
    + rewrite H0. rewrite H1 in IH. lia.
Qed.

(** X6. In the whole life of a session the pool is asked for a passive
    listener at most once: the first PASV or EPSV that reaches the pool sets a
    flag that nothing resets, and with it every later one is refused. *)
Theorem at_most_one_pool_request srv (allowed : option (list string))
    (es : list event) :
  (pool_requests (snd (run srv (create allowed) es)) <= 1)%nat.
Proof. apply (pool_requests_bound srv es (create allowed)). Qed.

(** *** [_parseEPRT] *)

Lemma digits_upto_digits (n : nat) (s d r : string) :
  digits_upto n s = (d, r) -> all_digits d = true.
Proof.
  revert s d r. induction n as [|n IH]; intros s d r.
  - destruct s; cbn; by intros [= <- _].
  - destruct s as [|c s]; cbn; [by intros [= <- _]|].
    destruct (is_digit c) eqn:Hc; [|by intros [= <- _]].
    destruct (digits_upto n s) as [d' r'] eqn:E. intros [= <- _].
    unfold all_digits. cbn. rewrite Hc. exact (IH _ _ _ E).
Qed.

Lemma digits_1_to_parseInt (n : nat) (s d r : string) :
  digits_1_to n s = Some (d, r) -> exists z, parseInt d = Num z /\ 0 <= z.
Proof.
  unfold digits_1_to. destruct (digits_upto n s) as [d' r'] eqn:E.
  pose proof (digits_upto_digits _ _ _ _ E) as Hd.
  destruct d' as [|c d']; [done|]. intros [= <- _].
  unfold all_digits in Hd. cbn in Hd. apply andb_prop in Hd as [Hc _].
  unfold parseInt. rewrite Hc. eexists. split; [done|].
  by apply AddressMore.parse_digits_nonneg.
Qed.

Lemma EPRT_match_port (commandArg m1 m2 : string) :
  EPRT_match commandArg = Some (m1, m2) -> exists z, parseInt m2 = Num z /\ 0 <= z.
Proof.
  unfold EPRT_match. intros H.
  apply bind_Some in H as (s0 & _ & H).
  apply bind_Some in H as (s1 & _ & H).
  apply bind_Some in H as (s2 & _ & H).
  apply bind_Some in H as ([a s3] & _ & H).
  apply bind_Some in H as (s4 & _ & H).
  apply bind_Some in H as ([b s5] & _ & H).
  apply bind_Some in H as (s6 & _ & H).
  apply bind_Some in H as ([c s7] & _ & H).
  apply bind_Some in H as (s8 & _ & H).
  apply bind_Some in H as ([d s9] & _ & H).
  apply bind_Some in H as (s10 & _ & H).
  apply bind_Some in H as ([p r] & Hp & H).
  simplify_eq. eauto using digits_1_to_parseInt.
Qed.

(** X7. [_parseEPRT] never throws (its branch for a port that is not a number
    cannot be reached), and it returns an endpoint only without a reply and
    with a port from 1 to 65535; otherwise it sends exactly one reply, a 522
    or a 501. *)
Theorem parseEPRT_total (commandArg : string) :
  (exists h p, _parseEPRT commandArg = ([], Returned (Some (h, Num p)))
               /\ 1 <= p <= 65535)
  \/ (exists m, _parseEPRT commandArg = ([Respond m], Returned None)
                /\ (m = "522 Server cannot handle IPv6 EPRT commands, use (1)"
                    \/ m = "501 Bad Argument to EPRT"
                    \/ m = "501 Bad argument to EPRT (invalid port number)")).
Proof.
  unfold _parseEPRT. case_match; [right; eauto 6|].
  destruct (EPRT_match commandArg) as [[m1 m2]|] eqn:E; [|right; eauto 6].
  destruct (EPRT_match_port _ _ _ E) as (z & -> & Hz).
  destruct ((65535 <? z) || (z <=? 0)) eqn:Hr; [right; eauto 7|].
  left. exists m1, z. split; [done|].
  apply orb_false_elim in Hr as [H1 H2]. lia.
Qed.

Lemma step_pass_hooks srv (s : t) (e : event) :
  (pass_hooks (step srv s e).2 + owed (step srv s e).1
   <= (if is_UserSuccess e then 1 else 0) + owed s)%nat.
Proof.
  destruct e; cbn [step is_UserSuccess];
    try (pose proof (pass_calls _ _ (onData_facts srv s data)); lia);
    unfold PASV_callback, _onDataConnection, dataSocket_onError, dataSocket_allOver,
      active_onConnect, active_allOver, active_onError, USER_success, USER_failure,
      PASS_success, PASS_failure, QUIT_callback, _closeDataConnections, _onClose;
    unfold owed, pass_hooks; destruct s; cbn;
    repeat case_match; simplify_eq; cbn; lia.
Qed.

Lemma run_pass_hooks srv (es : list event) (s : t) :
  (pass_hooks (concat (run srv s es).2) + owed (state_after srv s es)
   <= length (List.filter is_UserSuccess es) + owed s)%nat.
Proof.
  revert s. induction es as [|e es IH]; intros s; [cbn; lia|].
  rewrite actions_run_cons, SessionFacts.state_after_cons. cbn [concat List.filter].
  unfold pass_hooks at 1. rewrite List.filter_app, length_app.
  fold (pass_hooks (step srv s e).2).
  fold (pass_hooks (concat (run srv (step srv s e).1 es).2)).
  specialize (IH (step srv s e).1).
  pose proof (step_pass_hooks srv s e).
  destruct (is_UserSuccess e); cbn [length]; lia.
Qed.

Lemma onData_PASS srv (s : t) (data password : string) :
  parseCommand srv data = ("PASS", password) ->
  hasQuit s = false ->
  match allowedCommands s with Some a => has_command a "PASS" | None => true end = true ->
  _onData srv s data = __PASS s password.
Proof.
  intros Hp Hq Ha. unfold _onData. rewrite Hq, Hp. unfold dispatch.
  change (has_command COMMANDS_SUPPORTED "PASS") with true.
  change (has_command COMMANDS_NO_AUTH "PASS") with true.
  cbn [negb orb].
  destruct (allowedCommands s) as [a|]; [rewrite Ha|]; reflexivity.
Qed.

(** X21. The password hook is called at most once for each name the user
    hook has accepted: in any run of a session, the calls of ['command:pass'],
    and one more while the session waits for a password, are not more than
    the successes reported for ['command:user'].  A PASS line that the gate
    lets through (the client has not quit, PASS is among the allowed
    commands) is answered 503 and reaches no hook whenever the session does
    not wait for a password, as when every accepted USER has had its PASS,
    or none was accepted; when it waits, the line calls the hook and the
    session stops waiting. *)
Theorem password_hook_follows_an_accepted_user srv (allowed : option (list string))
    (es : list event) :
  let r := run srv (create allowed) es in
  let s := state_after srv (create allowed) es in
  (pass_hooks (concat r.2) + owed s <= length (List.filter is_UserSuccess es))%nat
  /\ (forall data password,
        parseCommand srv data = ("PASS", password) ->
        hasQuit s = false ->
        match allowed with Some a => has_command a "PASS" | None => true end = true ->
        (isWaitingForPassword s = false ->
         _onData srv s data = (s, [Respond "503 Bad sequence of commands."]))
        /\ (pass_hooks (concat r.2) = length (List.filter is_UserSuccess es) ->
            _onData srv s data = (s, [Respond "503 Bad sequence of commands."]))
        /\ (isWaitingForPassword s = true ->
            _onData srv s data
            = (set_isWaitingForPassword false s, [EmitCommandPass password]))).
Proof.
  intros r s.
  assert (H : (pass_hooks (concat r.2) + owed s
               <= length (List.filter is_UserSuccess es))%nat).
  { pose proof (run_pass_hooks srv es (create allowed)) as H.
    unfold owed at 2 in H. cbn in H. subst r s. lia. }
  split; [exact H|].
  intros data password Hp Hq Ha.
  assert (E : _onData srv s data = __PASS s password).
  { apply onData_PASS; [done|done|].
    subst s. by rewrite run_keeps_allowed. }
  rewrite E. unfold __PASS.
  split; [by intros ->|]. split; [|by intros ->].
  intros Hn. unfold owed in H. destruct (isWaitingForPassword s); [lia|done].
Qed.

Lemma password_hook_follows_an_accepted_user_witness :
  let es := [Data "PASS early"; Data "USER alice"; UserSuccess; Data "PASS secret";
             PassFailure] in
  let s := state_after srv0 (create None) es in
  let s1 := state_after srv0 (create None) [Data "USER alice"; UserSuccess] in
  (parseCommand srv0 "PASS again" = ("PASS", "again") /\ hasQuit s = false)
  /\ isWaitingForPassword s = false
  /\ pass_hooks (concat (run srv0 (create None) es).2) = 1%nat
  /\ _onData srv0 s "PASS again" = (s, [Respond "503 Bad sequence of commands."])
  /\ isWaitingForPassword s1 = true
  /\ _onData srv0 s1 "PASS secret"
     = (set_isWaitingForPassword false s1, [EmitCommandPass "secret"]).
Proof.
  pose proof (password_hook_follows_an_accepted_user srv0 None
                [Data "PASS early"; Data "USER alice"; UserSuccess; Data "PASS secret";
                 PassFailure]) as [_ H].
  destruct (H "PASS again" "again" eq_refl eq_refl eq_refl) as (_ & H1 & _).
  pose proof (password_hook_follows_an_accepted_user srv0 None
                [Data "USER alice"; UserSuccess]) as [_ H'].
  destruct (H' "PASS secret" "secret" eq_refl eq_refl eq_refl) as (_ & _ & H2).
  split; [split; reflexivity|]. split; [reflexivity|]. split; [reflexivity|].
  split; [exact (H1 eq_refl)|]. split; [reflexivity|exact (H2 eq_refl)].
Defined.

End SessionMore.

(** ** Further properties of a passive data connection *)

Module ConnMore.
Import Conn Words.

Lemma output_run_cons (w : world) (e : event) (es : list event) :
  snd (run w (e :: es)) = (snd (step w e) ++ snd (run (fst (step w e)) es))%list.
Proof.
  cbn [run]. destruct (step w e) as [w1 out]. cbn [fst snd].
  by destruct (run w1 es).
Qed.

(** What one event does to the socket a connection holds. *)
Lemma step_socket (w : world) (e : event) :
  (_socket (conn (step w e).1) = _socket (conn w)
   /\ List.filter is_ready (step w e).2 = [])
  \/ (exists sock,
        _socket (conn w) = None /\ _useTLS (conn w) = false
        /\ _socket (conn (step w e).1) = Some sock
        /\ (step w e).2 = [Emit (ready sock)]).
Proof.
  destruct w as [c n]. destruct e; cbn [step conn ticks].
  - unfold setSocket. destruct (_socket c) eqn:Hs; [left; cbn; by rewrite Hs|].
    destruct (_useTLS c) eqn:Ht; cbn; rewrite ?Ht; cbn; [by left|].
    right. by exists sock.
  - left. unfold destroy, _close. repeat case_match; simplify_eq; by cbn.
  - left. unfold timer_due, _onError_callback, _onError.
    repeat case_match; simplify_eq; by cbn.
  - left. unfold has_handlers, _onError_callback, _onError.
    repeat case_match; simplify_eq; by cbn.
  - left. unfold has_handlers, _close. repeat case_match; simplify_eq; by cbn.
  - left. unfold _close. repeat case_match; simplify_eq; by cbn.
  - left. by cbn.
Qed.

Lemma step_useTLS (w : world) (e : event) :
  _useTLS (conn (step w e).1) = _useTLS (conn w).
Proof.
  destruct w as [c n]. destruct e; cbn [step conn ticks];
    unfold setSocket, destroy, timer_due, has_handlers, _onError_callback,
      _onError, _close;
    repeat case_match; simplify_eq; by cbn.
Qed.

(** Once a socket is held, it stays, and no further ['ready'] is emitted. *)
Lemma run_with_socket (es : list event) (w : world) (sock : socket) :
  _socket (conn w) = Some sock ->
  _socket (conn (run w es).1) = Some sock /\ List.filter is_ready (run w es).2 = [].
Proof.
  revert w. induction es as [|e es IH]; intros w Hs; [done|].
  rewrite ConnFacts.fst_run_cons, output_run_cons, List.filter_app.
  destruct (step_socket w e) as [[H1 H2]|(sock' & H1 & _)]; [|congruence].
  rewrite H2. apply IH. by rewrite H1.
Qed.

Lemma run_ready (es : list event) (w : world) :
  _socket (conn w) = None ->
  (_socket (conn (run w es).1) = None /\ List.filter is_ready (run w es).2 = [])
  \/ (exists sock,
        _socket (conn (run w es).1) = Some sock
        /\ List.filter is_ready (run w es).2 = [Emit (ready sock)]).
Proof.
  revert w. induction es as [|e es IH]; intros w Hs; [by left|].
  rewrite ConnFacts.fst_run_cons, output_run_cons, List.filter_app.
  destruct (step_socket w e) as [[H1 H2]|(sock & _ & _ & H1 & H2)].
  - rewrite H2. apply IH. by rewrite H1.
  - right. exists sock. rewrite H2.
    destruct (run_with_socket es _ sock H1) as [-> ->]. done.
Qed.

(** X8. A passive data connection emits ['ready'] at most once in its life,
    and the socket of that event is the one [getSocket] returns from then
    on. *)
Theorem ready_at_most_once (now p : Z) (remote : string) (o : options)
    (es : list event) :
  let r := run {| conn := create now p remote o; ticks := O |} es in
  (length (List.filter is_ready r.2) <= 1)%nat
  /\ forall sock, In (Emit (ready sock)) r.2 -> getSocket (conn r.1) = Some sock.
Proof.
  intros r. subst r.
  destruct (run_ready es {| conn := create now p remote o; ticks := O |} eq_refl)
    as [[H1 H2]|(sock & H1 & H2)].
  - rewrite H2. split; [cbn; lia|]. intros sock Hin.
    assert (Hf : In (Emit (ready sock)) (List.filter is_ready
              (run {| conn := create now p remote o; ticks := O |} es).2))
      by (by apply List.filter_In).
    by rewrite H2 in Hf.
  - rewrite H2. split; [cbn; lia|]. intros sock' Hin.
    assert (Hf : In (Emit (ready sock')) (List.filter is_ready
              (run {| conn := create now p remote o; ticks := O |} es).2))
      by (by apply List.filter_In).
    rewrite H2 in Hf. destruct Hf as [[= ->]|[]]. exact H1.
Qed.

Lemma step_not_ready (w : world) (e : event) :
  _useTLS (conn w) = true -> state (conn w) <> READY ->
  state (conn (step w e).1) <> READY.
Proof.
  destruct w as [c n]. cbn [conn]. intros Ht Hr.
  destruct e; cbn [step conn ticks].
  - unfold setSocket. destruct (_socket c); cbn; [done|]. by rewrite Ht.
  - unfold destroy, _close. destruct (_socket c); cbn; [done|].
    by destruct (decide (state c = CLOSED)).
  - unfold timer_due, _onError_callback, _onError.
    destruct (_timer c) as [d|]; [destruct (d <=? now)|]; cbn; try done.
    by destruct (on_error c).
  - unfold has_handlers, _onError_callback, _onError.
    destruct (_socket c); cbn; [|done]. by destruct (on_error c).
  - unfold has_handlers, _close. destruct (_socket c); [|by cbn].
    by destruct (decide (state c = CLOSED)).
  - destruct n; [by cbn|]. unfold _close. by destruct (decide (state c = CLOSED)).
  - by cbn.
Qed.

Lemma run_tls (es : list event) (w : world) :
  _useTLS (conn w) = true -> _socket (conn w) = None -> state (conn w) <> READY ->
  _socket (conn (run w es).1) = None
  /\ state (conn (run w es).1) <> READY
  /\ _useTLS (conn (run w es).1) = true
  /\ List.filter is_ready (run w es).2 = [].
Proof.
  revert w. induction es as [|e es IH]; intros w Ht Hs Hr; [done|].
  rewrite ConnFacts.fst_run_cons, output_run_cons, List.filter_app.
  destruct (step_socket w e) as [[H1 H2]|(sock & _ & Hf & _)]; [|congruence].
  rewrite H2. apply IH.
  - by rewrite step_useTLS.
  - by rewrite H1.
  - by apply step_not_ready.
Qed.

(** X9. A connection created with [useTLS] never becomes READY: whatever
    happens to it, it emits no ['ready'], [getSocket] returns nothing, and
    every [setSocket] ends with the TypeError of [_upgradeConnection] reading
    [this.options], which the constructor does not set. *)
Theorem tls_connection_is_never_ready (now p : Z) (remote : string)
    (es : list event) :
  let r := run {| conn := create now p remote {| useTLS := true |}; ticks := O |} es in
  List.filter is_ready r.2 = []
  /\ getSocket (conn r.1) = None
  /\ state (conn r.1) <> READY
  /\ forall sock, (setSocket (conn r.1) sock).2 = Thrown "TypeError".
Proof.
  intros r. subst r.
  destruct (run_tls es {| conn := create now p remote {| useTLS := true |}; ticks := O |})
    as (H1 & H2 & H3 & H4); try done.
  repeat split; try done.
  intros sock. unfold setSocket. rewrite H1. cbn. by rewrite H3.
Qed.

End ConnMore.

(** ** Further properties of a listener *)

Module LstMore.
Import Js Lst JsMapFacts.

(** [listenForClient] for an address that has no waiter yet: the new
    connection is filed under its key, whatever the state of the listener. *)
Lemma listenForClient_files now (l : t) (h : heap) remoteAddress o :
  JsMap.has (key (port l) remoteAddress) (_waitingConnections l) = false ->
  exists l1 out,
    listenForClient now l h remoteAddress o
    = (l1, (h ++ [Conn.create now (port l) remoteAddress o])%list, length h, out)
    /\ _waitingConnections l1
       = JsMap.set (key (port l) remoteAddress) (length h) (_waitingConnections l)
    /\ _allConnections l1 = (_allConnections l ++ [length h])%list
    /\ port l1 = port l
    /\ _stopping l1 = _stopping l
    /\ _stopHooks l1 = _stopHooks l
    /\ (state l = LISTENING -> state l1 = LISTENING /\ _server l1 = _server l).
Proof.
  intros Hhas. unfold listenForClient. rewrite Hhas. cbn [set_waitingConnections
    set_allConnections state _waitingConnections _allConnections].
  destruct (decide (state l = LISTENING)) as [E|E]; [|destruct (decide (state l = CLOSED))];
    eexists _, _; (split; [reflexivity|]); cbn; repeat split; try done;
    intros; congruence.
Qed.

(** X10. The connection that [listenForClient] has just filed for an address
    gets the first socket accepted at that address (the address the socket
    reports for its local end): its entry is removed and [setSocket] is
    called on it, which clears its timer.  Without TLS it becomes READY with
    this socket and emits ['ready']; with [useTLS] the call throws the
    TypeError of [_upgradeConnection], and the connection is left in
    INITIALIZING_TLS without a socket.  Either way the entry is used up: a
    second socket at the same address is destroyed, and changes nothing. *)
Theorem waiter_gets_the_first_socket now (l : t) (h : heap) (remote : string)
    (o : Conn.options) (sock sock' : Conn.socket) :
  JsMap.has (key (port l) remote) (_waitingConnections l) = false ->
  unwrap (Conn.sock_address sock) = remote ->
  unwrap (Conn.sock_address sock') = remote ->
  let r1 := listenForClient now l h remote o in
  let c := r1.1.2 in
  let r2 := _onConnection r1.1.1.1 r1.1.1.2 sock in
  let r3 := _onConnection r2.1.1.1 r2.1.1.2 sock' in
  c = length h
  /\ JsMap.get (key (port l) remote) (_waitingConnections r1.1.1.1) = Some c
  /\ JsMap.get (key (port l) remote) (_waitingConnections r2.1.1.1) = None
  /\ (exists conn, r2.1.1.2 !! c = Some conn
        /\ Conn.port conn = port l /\ Conn.remoteAddress conn = remote
        /\ Conn._timer conn = None
        /\ if Conn.useTLS o
           then r2.1.2 = [] /\ r2.2 = Conn.Thrown "TypeError"
                /\ Conn.state conn = Conn.INITIALIZING_TLS
                /\ Conn.getSocket conn = None
           else r2.1.2 = [FromConnection c (Conn.Emit (Conn.ready sock))]
                /\ r2.2 = Conn.Returned
                /\ Conn.state conn = Conn.READY
                /\ Conn.getSocket conn = Some sock)
  /\ r3 = (r2.1.1.1, r2.1.1.2, [SocketDestroy sock'], Conn.Returned).
Proof.
  intros Hhas Hs Hs' r1 c r2 r3.
  destruct (listenForClient_files now l h remote o Hhas)
    as (l1 & out & E1 & Hw & _ & Hp & _).
  subst r3 r2 c r1. rewrite E1. cbn [fst snd].
  set (new := Conn.create now (port l) remote o).
  assert (E2 : _onConnection l1 (h ++ [new])%list sock
     = (set_waitingConnections
          (JsMap.delete (key (port l) remote) (_waitingConnections l1)) l1,
        <[length h := (Conn.setSocket new sock).1.1]> (h ++ [new])%list,
        map (FromConnection (length h)) (Conn.setSocket new sock).1.2,
        (Conn.setSocket new sock).2)).
  { unfold _onConnection. rewrite Hs, Hp, Hw, get_set_eq, LstFacts.heap_new.
    by destruct (Conn.setSocket new sock) as [[c' out'] res]. }
  rewrite E2. cbn [fst snd].
  split; [done|]. split; [by rewrite Hw, get_set_eq|].
  split; [cbn; apply get_delete_eq|]. split.
  - eexists. split; [apply list_lookup_insert_eq; rewrite length_app; cbn; lia|].
    subst new. unfold Conn.setSocket, Conn.create.
    cbn [Conn._socket Conn._useTLS Conn.set_timer].
    by destruct (Conn.useTLS o).
  - unfold _onConnection. cbn [port set_waitingConnections _waitingConnections].
    by rewrite Hs', Hp, get_delete_eq.
Qed.

Lemma waiter_gets_the_first_socket_witness :
  let l := create 44001 "0.0.0.0" in
  let sock := {| Conn.sock_id := 5; Conn.sock_address := "::ffff:192.168.1.20";
     Conn.sock_remoteAddress := "192.168.1.77" |} in
  let sock' := {| Conn.sock_id := 6; Conn.sock_address := "192.168.1.20";
     Conn.sock_remoteAddress := "192.168.1.77" |} in
  let r1 := listenForClient 0 l [] "192.168.1.20" {| Conn.useTLS := false |} in
  let r2 := _onConnection r1.1.1.1 r1.1.1.2 sock in
  let r3 := _onConnection r2.1.1.1 r2.1.1.2 sock' in
  let t1 := listenForClient 0 l [] "192.168.1.20" {| Conn.useTLS := true |} in
  let t2 := _onConnection t1.1.1.1 t1.1.1.2 sock in
  let t3 := _onConnection t2.1.1.1 t2.1.1.2 sock' in
  (JsMap.has (key (port l) "192.168.1.20") (_waitingConnections l) = false
   /\ unwrap (Conn.sock_address sock) = "192.168.1.20"
   /\ unwrap (Conn.sock_address sock') = "192.168.1.20")
  /\ (exists conn, r2.1.1.2 !! r1.1.2 = Some conn
        /\ Conn.port conn = port l /\ Conn.remoteAddress conn = "192.168.1.20"
        /\ Conn._timer conn = None
        /\ r2.1.2 = [FromConnection r1.1.2 (Conn.Emit (Conn.ready sock))]
        /\ r2.2 = Conn.Returned
        /\ Conn.state conn = Conn.READY
        /\ Conn.getSocket conn = Some sock)
  /\ r3 = (r2.1.1.1, r2.1.1.2, [SocketDestroy sock'], Conn.Returned)
  /\ (exists conn, t2.1.1.2 !! t1.1.2 = Some conn
        /\ Conn.port conn = port l /\ Conn.remoteAddress conn = "192.168.1.20"
        /\ Conn._timer conn = None
        /\ t2.1.2 = [] /\ t2.2 = Conn.Thrown "TypeError"
        /\ Conn.state conn = Conn.INITIALIZING_TLS
        /\ Conn.getSocket conn = None)
  /\ t3 = (t2.1.1.1, t2.1.1.2, [SocketDestroy sock'], Conn.Returned).
Proof.
  pose proof (waiter_gets_the_first_socket 0 (create 44001 "0.0.0.0") [] "192.168.1.20"
           {| Conn.useTLS := false |}
           {| Conn.sock_id := 5; Conn.sock_address := "::ffff:192.168.1.20";
              Conn.sock_remoteAddress := "192.168.1.77" |}
           {| Conn.sock_id := 6; Conn.sock_address := "192.168.1.20";
              Conn.sock_remoteAddress := "192.168.1.77" |}
           eq_refl eq_refl eq_refl) as (_ & _ & _ & H1 & H2).
  pose proof (waiter_gets_the_first_socket 0 (create 44001 "0.0.0.0") [] "192.168.1.20"
           {| Conn.useTLS := true |}
           {| Conn.sock_id := 5; Conn.sock_address := "::ffff:192.168.1.20";
              Conn.sock_remoteAddress := "192.168.1.77" |}
           {| Conn.sock_id := 6; Conn.sock_address := "192.168.1.20";
              Conn.sock_remoteAddress := "192.168.1.77" |}
           eq_refl eq_refl eq_refl) as (_ & _ & _ & H3 & H4).
  split; [by vm_compute|].
  split; [exact H1|]. split; [exact H2|]. split; [exact H3|exact H4].
Defined.

Lemma stopIfDone_waiting (l : t) :
  _waitingConnections (_stopIfDone l).1 = _waitingConnections l.
Proof.
  unfold _stopIfDone. case_match; [done|]. apply LstFacts.stop_waiting.
Qed.

Lemma stop_allConnections (l : t) : _allConnections (_stop l).1 = _allConnections l.
Proof.
  unfold _stop, _stopServer. repeat case_match; simplify_eq; done.
Qed.

Lemma stopIfDone_allConnections (l : t) :
  _allConnections (_stopIfDone l).1 = _allConnections l.
Proof. unfold _stopIfDone. case_match; [done|]. apply stop_allConnections. Qed.

(** X11. The ['close'] handler of a connection removes the waiter by key, not
    by identity.  When an earlier connection for the same client address
    closes after a new one was filed, the new one loses its entry while it
    stays in [_allConnections]: the socket the client then opens is
    destroyed, and if no other waiter is left the listening server is
    closed. *)
Theorem close_of_a_transfer_evicts_the_next_waiter now (l : t) (h : heap)
    (remote : string) (o : Conn.options) (old : nat) (sock : Conn.socket) :
  JsMap.has (key (port l) remote) (_waitingConnections l) = false ->
  unwrap (Conn.sock_address sock) = remote ->
  let r1 := listenForClient now l h remote o in
  let r2 := closeHook (key (port l) remote) old r1.1.1.1 in
  JsMap.get (key (port l) remote) (_waitingConnections r1.1.1.1) = Some r1.1.2
  /\ JsMap.get (key (port l) remote) (_waitingConnections r2.1) = None
  /\ (old <> r1.1.2 -> r1.1.2 ∈ _allConnections r2.1)
  /\ _onConnection r2.1 r1.1.1.2 sock
     = (r2.1, r1.1.1.2, [SocketDestroy sock], Conn.Returned)
  /\ (state l = LISTENING -> _stopping l = false -> _server l <> None ->
      _waitingConnections l = [] ->
      state r2.1 = CLOSED /\ _server r2.1 = None /\ r2.2 = [ServerClose]).
Proof.
  intros Hhas Hs r1 r2.
  destruct (listenForClient_files now l h remote o Hhas)
    as (l1 & out & E1 & Hw & Hall & Hp & Hstop & _ & Hl).
  subst r2 r1. rewrite E1. cbn [fst snd].
  assert (Hget : JsMap.get (key (port l) remote)
                   (_waitingConnections (closeHook (key (port l) remote) old l1).1) = None).
  { unfold closeHook. rewrite stopIfDone_waiting. cbn. apply get_delete_eq. }
  assert (Hport : port (closeHook (key (port l) remote) old l1).1 = port l).
  { unfold closeHook, _stopIfDone. case_match; [done|].
    by rewrite PoolFacts.stop_port. }
  split; [|split; [|split; [|split]]].
  - by rewrite Hw, get_set_eq.
  - exact Hget.
  - intros Hne. unfold closeHook. rewrite stopIfDone_allConnections. cbn.
    rewrite Hall. apply list_elem_of_filter. split; [congruence|].
    apply elem_of_app. right. by apply list_elem_of_singleton.
  - unfold _onConnection. by rewrite Hs, Hport, Hget.
  - intros Hlistening Hnot Hserver Hempty.
    destruct (Hl Hlistening) as [Hst Hsrv].
    unfold closeHook, _stopIfDone. cbn.
    rewrite Hw, Hempty. cbn. rewrite String.eqb_refl. cbn.
    unfold _stop, _stopServer. cbn. rewrite Hstop, Hnot, Hst, Hsrv. cbn.
    by destruct (_server l).
Qed.

Lemma close_of_a_transfer_evicts_the_next_waiter_witness :
  let l := Words.busy_listener.1 in
  let h := Words.busy_listener.2 in
  let r1 := listenForClient 50 l h Words.client Words.plain in
  let r2 := closeHook (key (port l) Words.client) 0 r1.1.1.1 in
  state l = LISTENING
  /\ r1.1.2 = 1%nat
  /\ JsMap.get (key (port l) Words.client) (_waitingConnections r1.1.1.1) = Some 1%nat
  /\ JsMap.get (key (port l) Words.client) (_waitingConnections r2.1) = None
  /\ 1%nat ∈ _allConnections r2.1
  /\ _onConnection r2.1 r1.1.1.2 Words.sockB
     = (r2.1, r1.1.1.2, [SocketDestroy Words.sockB], Conn.Returned)
  /\ state r2.1 = CLOSED /\ r2.2 = [ServerClose].
Proof.
  pose proof (close_of_a_transfer_evicts_the_next_waiter 50 Words.busy_listener.1
                Words.busy_listener.2 Words.client Words.plain 0 Words.sockB
                eq_refl eq_refl) as (H1 & H2 & H3 & H4 & H5).
  destruct H5 as (H5 & _ & H6); [reflexivity | reflexivity | discriminate | reflexivity |].
  repeat split; try assumption; try reflexivity.
  apply H3. discriminate.
Defined.

(** The handlers [_stop] has left on ['listening'], run on a listener that
    listens: the first one closes the server, the others find it closed. *)
Lemma stop_closed (l : t) :
  _stopping l = false -> state l = CLOSED -> _stop l = (set_state CLOSED l, []).
Proof.
  intros H1 H2. unfold _stop. rewrite H1, H2.
  destruct (decide (CLOSED = INITIALIZING)); [done|].
  by destruct (decide (CLOSED = LISTENING)).
Qed.

Lemma stop_listening (l : t) (srv : netServer) :
  _stopping l = false -> state l = LISTENING -> _server l = Some srv ->
  _stop l = (set_state CLOSED (set_server None l), [ServerClose]).
Proof.
  intros H1 H2 H3. unfold _stop, _stopServer. rewrite H1, H2, H3.
  destruct (decide (LISTENING = INITIALIZING)); [done|].
  by destruct (decide (LISTENING = LISTENING)).
Qed.

Lemma run_stopHooks_closes (n : nat) (l : t) :
  state l = CLOSED -> _server l = None ->
  state (run_stopHooks n l).1 = CLOSED
  /\ _server (run_stopHooks n l).1 = None
  /\ _stopHooks (run_stopHooks n l).1 = _stopHooks l
  /\ (run_stopHooks n l).2 = [].
Proof.
  revert l. induction n as [|n IH]; intros l Hst Hsrv; [done|].
  cbn [run_stopHooks]. unfold stopHook. rewrite stop_closed by done.
  destruct (IH (set_state CLOSED (set_stopping false l))) as (H1 & H2 & H3 & H4);
    [done..|].
  destruct (run_stopHooks n _) as [l2 o2]. cbn in *. by subst.
Qed.

Lemma run_stopHooks_listening (n : nat) (l : t) (srv : netServer) :
  state l = LISTENING -> _server l = Some srv ->
  state (run_stopHooks (S n) l).1 = CLOSED
  /\ _server (run_stopHooks (S n) l).1 = None
  /\ _stopHooks (run_stopHooks (S n) l).1 = _stopHooks l
  /\ (run_stopHooks (S n) l).2 = [ServerClose].
Proof.
  intros Hst Hsrv.
  cbn [run_stopHooks]. unfold stopHook. rewrite (stop_listening _ srv) by done.
  destruct (run_stopHooks_closes n
              (set_state CLOSED (set_server None (set_stopping false l))))
    as (H1 & H2 & H3 & H4); [done..|].
  destruct (run_stopHooks n _) as [l2 o2]. cbn in *. by subst.
Qed.

(** X12. A stop asked for while the server is still binding leaves a handler
    on ['listening'].  On a listener with such a handler, a bind that succeeds
    is followed at once by the close of its server: the listener ends up
    CLOSED, the waiting connections are still told ['listenerReady'], and the
    handlers are all still there afterwards. *)
Theorem stop_while_binding_is_remembered (l : t) (srv : netServer) :
  (0 < _stopHooks l)%nat ->
  _server l = Some srv ->
  let r := _onReady l in
  state r.1 = CLOSED
  /\ _server r.1 = None
  /\ _stopHooks r.1 = _stopHooks l
  /\ _waitingConnections r.1 = _waitingConnections l
  /\ r.2 = (EmitListening :: ServerClose
             :: map (fun kc => Emit kc.2 Conn.listenerReady) (_waitingConnections l))%list.
Proof.
  intros Hn Hsrv r. subst r. unfold _onReady. rewrite Hsrv.
  cbn [set_server set_state _stopHooks].
  destruct (_stopHooks l) as [|n] eqn:En; [lia|].
  match goal with |- context [run_stopHooks (S n) ?l0] =>
    pose proof (run_stopHooks_listening n l0 _ eq_refl eq_refl) as (H1 & H2 & H3 & H4);
    pose proof (LstFacts.run_stopHooks_waiting (S n) l0) as H5;
    destruct (run_stopHooks (S n) l0) as [l2 o2] end.
  cbn in *. rewrite H4, H5, H3, En. done.
Qed.

Lemma stop_while_binding_is_remembered_witness :
  let l := Words.restarted_listener.1 in
  let r := _onReady l in
  _stopHooks l = 1%nat
  /\ state l = INITIALIZING
  /\ _waitingConnections l = [("44001|192.168.1.20", 1%nat)]
  /\ state r.1 = CLOSED
  /\ _server r.1 = None
  /\ r.2 = [EmitListening; ServerClose; Emit 1 Conn.listenerReady].
Proof.
  pose proof (stop_while_binding_is_remembered Words.restarted_listener.1
                {| on_startingError := true; on_runningError := false;
                   on_listening := true; on_connection := true |}) as H.
  destruct H as (H1 & H2 & H3 & H4 & H5); [vm_compute; lia | reflexivity |].
  repeat split; try assumption; try reflexivity.
Defined.

End LstMore.

(** ** Uploads kept in memory *)

Module UploadFacts.
Import Upload.

Lemma copy_length (source target : buffer) (ts ss se : nat) :
  length (copy source target ts ss se) = length target.
Proof.
  unfold copy. rewrite !length_app, length_take, length_drop, !length_take, length_drop.
  lia.
Qed.

(** Copying a whole buffer to a place where it fits. *)
Lemma copy_prefix (source target : buffer) (ts : nat) :
  (ts + length source <= length target)%nat ->
  take (ts + length source) (copy source target ts 0 (length source))
  = (take ts target ++ source)%list.
Proof.
  intros H. unfold copy. rewrite drop_0, Nat.sub_0_r.
  rewrite (take_ge source (length source)) by lia.
  rewrite (take_ge source) by lia.
  rewrite take_app_add' by (rewrite length_take; lia).
  by rewrite take_app_length.
Qed.

(** Moving the data to a larger buffer. *)
Lemma copy_grow (old fresh : buffer) (n : nat) :
  (n <= length old)%nat -> (n <= length fresh)%nat ->
  take n (copy old fresh 0 0 n) = take n old.
Proof.
  intros H1 H2. unfold copy. rewrite drop_0, !Nat.sub_0_r, take_0. cbn [app].
  rewrite (take_ge (take n old)) by (rewrite length_take; lia).
  rewrite take_app_length' by (rewrite length_take; lia). done.
Qed.

Lemma dirty_length (n : nat) : length (dirty n) = n.
Proof. apply length_replicate. Qed.

Lemma upload_run_app alloc cfg flag (s : t) (es1 es2 : list event) :
  run alloc cfg flag s (es1 ++ es2)
  = let '(s1, o1) := run alloc cfg flag s es1 in
    let '(s2, o2) := run alloc cfg flag s1 es2 in
    (s2, (o1 ++ o2)%list).
Proof.
  revert s. induction es1 as [|e es1 IH]; intros s; cbn [run app].
  - by destruct (run alloc cfg flag s es2).
  - destruct (step alloc cfg flag s e) as [s1 o1]. rewrite IH.
    destruct (run alloc cfg flag s1 es1) as [s2 o2].
    destruct (run alloc cfg flag s2 es2) as [s3 o3]. by rewrite app_assoc.
Qed.

Section WithMemory.
Variable alloc : nat -> buffer.
Hypothesis alloc_length : forall n, length (alloc n) = n.
Variable cfg : env.
Variable flag : string.

Abbreviation dataHandler := (Upload.dataHandler alloc cfg flag).
Abbreviation step := (Upload.step alloc cfg flag).
Abbreviation run := (Upload.run alloc cfg flag).
Abbreviation upload := (Upload.upload alloc cfg flag).

Lemma within_limit (n : nat) :
  within cfg n ->
  match uploadMaxSlurpSize cfg with
  | Some limit => limit <? Z.of_nat n
  | None => false
  end = false.
Proof. unfold within. destruct (uploadMaxSlurpSize cfg); [lia|done]. Qed.

Lemma beyond_limit (n : nat) (limit : Z) :
  uploadMaxSlurpSize cfg = Some limit -> limit < Z.of_nat n ->
  match uploadMaxSlurpSize cfg with
  | Some limit => limit <? Z.of_nat n
  | None => false
  end = true.
Proof. intros -> H. lia. Qed.

(** A chunk within the limit is added to the data. *)
Lemma dataHandler_slurps (s : t) (data buf : buffer) (sock : bool) :
  holds s data ->
  within cfg (length data + length buf) ->
  exists s', dataHandler s sock buf = (s', [], Returned) /\ holds s' (data ++ buf)%list.
Proof.
  intros (Hd & Hc & Hr & He & Ht & Hs & Hlo & Hhi) Hw.
  assert (Hcap : (length data <= length (slurpBuf s))%nat).
  { unfold slice0 in Hs. apply (f_equal length) in Hs.
    rewrite length_take in Hs. lia. }
  unfold Upload.dataHandler. rewrite Ht, within_limit by done.
  eexists. split; [reflexivity|].
  unfold holds, set_buf, slice0 in *.
  cbn [on_data on_close on_error erroredOut totalBytes slurpBuf].
  rewrite length_app, copy_length.
  split; [done|]. split; [done|]. split; [done|]. split; [done|]. split; [done|].
  destruct (length (slurpBuf s) <? length data + length buf)%nat eqn:E.
  - apply Nat.ltb_lt in E.
    set (n := if (length (slurpBuf s) * 2 <? length data + length buf)%nat
              then (length data + length buf)%nat
              else (length (slurpBuf s) * 2)%nat).
    assert (Hn : (length data + length buf <= n /\ 1024 <= n
                  /\ n <= Nat.max 1024 (2 * (length data + length buf)))%nat).
    { subst n. destruct (Nat.ltb_spec (length (slurpBuf s) * 2)
                           (length data + length buf)); lia. }
    rewrite copy_length, alloc_length.
    split; [|lia].
    rewrite copy_prefix by (rewrite copy_length, alloc_length; lia).
    f_equal. rewrite copy_grow by (rewrite ?alloc_length; lia).
    by rewrite <- Ht.
  - apply Nat.ltb_ge in E.
    split; [|split; [lia|lia]].
    rewrite copy_prefix by lia. by rewrite <- Ht, Hs.
Qed.

Lemma run_chunks (bufs : list buffer) (s : t) (data : buffer) :
  holds s data ->
  within cfg (length (data ++ concat bufs)) ->
  exists s', run s (chunks bufs) = (s', []) /\ holds s' (data ++ concat bufs)%list.
Proof.
  revert s data. induction bufs as [|buf bufs IH]; intros s data Hs Hw.
  - exists s. cbn. by rewrite app_nil_r.
  - cbn [chunks map concat Upload.run Upload.step] in *.
    destruct Hs as (Hd & Hrest). rewrite Hd.
    destruct (dataHandler_slurps s data buf true (conj Hd Hrest)) as (s1 & E1 & H1).
    { unfold within in *. destruct (uploadMaxSlurpSize cfg); [|done].
      rewrite !length_app in Hw. lia. }
    rewrite E1. cbn [fst snd].
    destruct (IH s1 (data ++ buf)%list H1) as (s2 & E2 & H2).
    { by rewrite <- app_assoc. }
    fold (chunks bufs). rewrite E2. exists s2. split; [done|]. by rewrite app_assoc.
Qed.

(** The upload up to the moment all of [bufs] has arrived. *)
Lemma upload_chunks (bufs : list buffer) :
  within cfg (length (concat bufs)) ->
  exists s,
    upload ([Replied; Ready] ++ chunks bufs)
    = (s, [EmitStorOpen; Respond "150 Ok to send data"; WhenDataReady])
    /\ holds s (concat bufs).
Proof.
  intros Hw. unfold Upload.upload, Upload._storeUsingWriteFile.
  cbn [app Upload.run Upload.step respond_callback handleUpload].
  destruct (run_chunks bufs
              (set_handlers true true true
                 {| slurpBuf := alloc 1024; totalBytes := 0; erroredOut := false;
                    on_data := false; on_close := false; on_error := false |}) [])
    as (s & E & H).
  - unfold holds, slice0. cbn. rewrite alloc_length. repeat split; lia.
  - done.
  - rewrite E. by exists s.
Qed.

Lemma upload_app (es1 es2 : list event) :
  upload (es1 ++ es2)
  = let '(s1, o1) := upload es1 in
    let '(s2, o2) := run s1 es2 in
    (s2, (o1 ++ o2)%list).
Proof.
  unfold Upload.upload. destruct (Upload._storeUsingWriteFile alloc) as [s0 o0].
  rewrite upload_run_app. destruct (run s0 es1) as [s1 o1].
  destruct (run s1 es2) as [s2 o2]. by rewrite app_assoc.
Qed.


(** X14. While the chunks are collected, the buffer has at least 1024 bytes
    and at most twice the bytes received (or 1024 if that is more), and
    [totalBytes] counts what was received. *)
Theorem slurp_buffer_is_bounded (bufs : list buffer) :
  within cfg (length (concat bufs)) ->
  let s := (upload ([Replied; Ready] ++ chunks bufs)).1 in
  totalBytes s = length (concat bufs)
  /\ (1024 <= length (slurpBuf s))%nat
  /\ (length (slurpBuf s) <= Nat.max 1024 (2 * length (concat bufs)))%nat.
Proof.
  intros Hw.
  by destruct (upload_chunks bufs Hw) as (s & -> & (_ & _ & _ & _ & Ht & _ & Hlo & Hhi)).
Qed.

Lemma run_detached (es : list event) (s : t) :
  on_data s = false -> on_close s = false -> on_error s = false ->
  forallb from_socket es = true ->
  run s es = (s, []).
Proof.
  intros Hd Hc He. induction es as [|e es IH]; [done|].
  cbn [forallb]. intros [H1 H2]%andb_prop.
  cbn [Upload.run]. destruct e; try discriminate H1;
    cbn [Upload.step]; rewrite ?Hd, ?Hc, ?He, (IH H2); done.
Qed.

(** X15. The first chunk that takes the upload beyond [uploadMaxSlurpSize]
    hands it over to [_storeUsingCreateWriteStream], with the bytes received
    so far and this chunk as the buffers to write first, in this order; the
    three handlers are removed, so nothing that the data socket does later
    reaches them. *)
Theorem upload_beyond_the_limit_goes_to_the_stream
    (bufs : list buffer) (buf : buffer) (limit : Z) (later : list event) :
  uploadMaxSlurpSize cfg = Some limit ->
  has_createWriteStream cfg = true ->
  Z.of_nat (length (concat bufs)) <= limit ->
  limit < Z.of_nat (length (concat bufs) + length buf) ->
  forallb from_socket later = true ->
  (upload ([Replied; Ready] ++ chunks bufs ++ Data true buf :: later)).2
  = [EmitStorOpen; Respond "150 Ok to send data"; WhenDataReady;
     StoreUsingCreateWriteStream [concat bufs; buf] flag].
Proof.
  intros Hl Hcws Hin Hout Hlater. rewrite app_assoc, upload_app.
  destruct (upload_chunks bufs) as (s & -> & (Hd & _ & _ & _ & Ht & Hs & _)).
  { unfold within. by rewrite Hl. }
  cbn [Upload.run Upload.step]. rewrite Hd. unfold Upload.dataHandler.
  rewrite Ht, (beyond_limit _ limit Hl Hout), Hcws. cbn [negb fst snd].
  rewrite run_detached by done. by rewrite <- Ht, Hs.
Qed.


End WithMemory.


Lemma slurp_buffer_is_bounded_witness :
  let bufs := [replicate 1500 Byte.x01; replicate 500 Byte.x02] in
  let s := (Upload.upload dirty
              {| uploadMaxSlurpSize := None; has_createWriteStream := true |}
              "w" ([Replied; Ready] ++ chunks bufs)).1 in
  totalBytes s = length (concat bufs)
  /\ (1024 <= length (slurpBuf s))%nat
  /\ (length (slurpBuf s) <= Nat.max 1024 (2 * length (concat bufs)))%nat.
Proof.
  apply (slurp_buffer_is_bounded dirty dirty_length
           {| uploadMaxSlurpSize := None; has_createWriteStream := true |} "w"
           [replicate 1500 Byte.x01; replicate 500 Byte.x02]).
  exact I.
Defined.

Lemma upload_beyond_the_limit_goes_to_the_stream_witness :
  let bufs := [replicate 600 Byte.x01] in
  let buf := replicate 500 Byte.x02 in
  (Upload.upload dirty {| uploadMaxSlurpSize := Some 1000; has_createWriteStream := true |}
     "w" ([Replied; Ready] ++ chunks bufs
          ++ Data true buf :: [Data true buf; Close])).2
  = [EmitStorOpen; Respond "150 Ok to send data"; WhenDataReady;
     StoreUsingCreateWriteStream [concat bufs; buf] "w"].
Proof.
  apply (upload_beyond_the_limit_goes_to_the_stream dirty dirty_length
           {| uploadMaxSlurpSize := Some 1000; has_createWriteStream := true |} "w"
           [replicate 600 Byte.x01] (replicate 500 Byte.x02) 1000);
    first [reflexivity | vm_compute; congruence].
Defined.


End UploadFacts.

(** ** The server and its sessions *)

Module ServerFacts.
Import Js Session.

Lemma has_command_index (rt : runtime) (cs : list string) (command : string) :
  has_command (map (fun c => toUpperCase rt (trim rt c)) cs) command = true
  <-> exists c, c ∈ cs /\ toUpperCase rt (trim rt c) = command.
Proof.
  unfold has_command. rewrite existsb_exists. split.
  - intros (x & Hin & Heq). apply String.eqb_eq in Heq. subst x.
    apply in_map_iff in Hin as (c & Hc & Hin). exists c. split; [|done].
    by apply list_elem_of_In.
  - intros (c & Hin & <-). eexists. split; [|apply String.eqb_refl].
    apply in_map_iff. exists c. split; [done|]. by apply list_elem_of_In.
Qed.

(** X17. The list [allowedCommands] of the server is enforced on every
    session for its whole life, after trimming and upper-casing each entry: a
    command that no entry names is answered 502 (or dropped after QUIT) and
    changes nothing, and a command of the NO_AUTH table that an entry names in
    any case and with spaces around it reaches its handler. *)
Theorem allowedCommands_are_enforced (srv : server) (sv : Server.t)
    (allowed : list string) (es : list event) (data : string) :
  Server.allowedCommands (Server.opts sv) = Some allowed ->
  let s := state_after srv (Server._onConnection sv).1 es in
  let command := (parseCommand srv data).1 in
  let commandArg := (parseCommand srv data).2 in
  let entry c := toUpperCase (Server.runtime sv) (trim (Server.runtime sv) c) in
  ((forall c, c ∈ allowed -> entry c <> command) ->
   step srv s (Data data) = (s, [])
   \/ step srv s (Data data) = (s, [Respond "502 Command not implemented."]))
  /\ ((exists c, c ∈ allowed /\ entry c = command) ->
      has_command COMMANDS_SUPPORTED command = true ->
      has_command COMMANDS_NO_AUTH command = true ->
      hasQuit s = false ->
      step srv s (Data data) = _execCommand srv s command commandArg).
Proof.
  intros Hallowed s command commandArg entry.
  assert (Hs : allowedCommands s = Some (map entry allowed)).
  { subst s. rewrite SessionMore.run_keeps_allowed. cbn.
    unfold Server.allowedIndex. by rewrite Hallowed. }
  subst command commandArg entry. cbn [step]. unfold _onData, dispatch.
  destruct (parseCommand srv data) as [c a]. cbn [fst snd]. rewrite Hs.
  split.
  - intros Hno. destruct (hasQuit s); [by left|]. right.
    destruct (has_command (map _ allowed) c) eqn:E.
    + apply has_command_index in E as (x & Hx & Heq). by destruct (Hno x Hx).
    + by rewrite orb_true_r.
  - intros Hyes Hsup Hna Hq. rewrite Hq, Hsup, Hna.
    apply has_command_index in Hyes. by rewrite Hyes.
Qed.

Lemma allowedCommands_are_enforced_witness :
  let sv := {| Server.host := Some "127.0.0.1";
               Server.opts := {| Server.allowedCommands := Some [" user "; "pass"; "Quit"];
                                 Server.pasvPortRangeStart := None;
                                 Server.pasvPortRangeEnd := None |};
               Server.runtime := ascii_only |} in
  let s := state_after srv0 (Server._onConnection sv).1 [] in
  (step srv0 s (Data "SYST") = (s, [])
   \/ step srv0 s (Data "SYST") = (s, [Respond "502 Command not implemented."]))
  /\ step srv0 s (Data "user alice") = _execCommand srv0 s "USER" "alice".
Proof.
  pose proof (allowedCommands_are_enforced srv0
    {| Server.host := Some "127.0.0.1";
       Server.opts := {| Server.allowedCommands := Some [" user "; "pass"; "Quit"];
                         Server.pasvPortRangeStart := None;
                         Server.pasvPortRangeEnd := None |};
       Server.runtime := ascii_only |}
    [" user "; "pass"; "Quit"] []) as H.
  split.
  - apply (H "SYST" eq_refl). intros c Hc.
    repeat (apply elem_of_cons in Hc as [->|Hc]; [by vm_compute|]).
    by apply elem_of_nil in Hc.
  - apply (H "user alice" eq_refl); try reflexivity.
    exists " user ". split; [apply list_elem_of_here|reflexivity].
Defined.

(** X18. [listen] throws when the port is neither a number nor a string of
    digits, and otherwise calls [server.listen] with the host of the server
    and without a callback, whatever else it was given: the test reads
    [args[args.length]], which is never there. *)
Theorem listen_drops_the_callback (sv : Server.t) (port : Server.value)
    (args : list Server.value) :
  match Server.listen sv port args with
  | Returned r =>
      Server.listen_callback r = None
      /\ Server.listen_host r = Server.host sv
      /\ (port = Server.VNumber (Server.listen_port r)
          \/ exists s, port = Server.VString s /\ Server.NUMERIC_test s = true
                       /\ Server.listen_port r = parseInt s)
  | Thrown what =>
      what = "Must specify port"
      /\ (forall n, port <> Server.VNumber n)
      /\ (forall s, port = Server.VString s -> Server.NUMERIC_test s = false)
  end.
Proof.
  assert (Hcb : Server.callback_of args = None).
  { unfold Server.callback_of. by rewrite lookup_ge_None_2. }
  unfold Server.listen. destruct port as [n|s|f| |]; cbn; rewrite ?Hcb; auto.
  - destruct (Server.NUMERIC_test s) eqn:E; cbn; rewrite ?Hcb.
    + repeat split. right. by exists s.
    + repeat split; [done|]. by intros ? [= <-].
  - repeat split; done.
  - repeat split; done.
  - repeat split; done.
Qed.

End ServerFacts.

(** ** AUTH, PBSZ and PROT *)

Module TlsFacts.
Import Tls.

Section WithServer.
Variable allow : bool.
Variable rt : Js.runtime.

Abbreviation step := (Tls.step allow rt).
Abbreviation state_after := (Tls.state_after allow rt).

Abbreviation inv := (Tls.inv allow).

Lemma existsb_snoc {A} (f : A -> bool) (l : list A) (x : A) :
  existsb f (l ++ [x]) = existsb f l || f x.
Proof. rewrite existsb_app. cbn. by rewrite orb_false_r. Qed.

Ltac crunch H1 H2 H3 :=
  unfold Tls.inv; cbn [fst pbszReceived secure tlsOptions replies_due handshakes_due
                    set_due set_secure set_pbszReceived];
  rewrite ?existsb_snoc; cbn [secures asks_for_tls];
  rewrite ?orb_false_r, ?orb_true_r;
  split; [|split]; intros;
  try (destruct H2 as (? & ? & ?); [congruence|]);
  try (destruct H3 as (? & ?); [lia|]);
  repeat split; try congruence; try (by apply H1); try done;
  try (by match goal with Hp : pbszReceived _ = true |- _ => apply H1 in Hp end);
  try (by match goal with H : existsb _ _ = true |- _ => rewrite H end);
  try (by match goal with H : String.eqb _ _ = true |- _ => rewrite H, orb_true_r end).

Lemma step_inv (s : t) (past : list event) (e : event) :
  inv s past -> inv (step s e).1 (past ++ [e]).
Proof.
  intros (H1 & H2 & H3).
  destruct e; cbn [Tls.step].
  - unfold __AUTH. destruct (tlsOptions s) eqn:Et; cbn [negb orb].
    + destruct (String.eqb commandArg "TLS") eqn:Ea; cbn [negb]; crunch H1 H2 H3.
    + crunch H1 H2 H3.
  - unfold __PBSZ. destruct (tlsOptions s) eqn:Et; cbn [negb];
      [destruct (secure s) eqn:Es; cbn [negb]; [case_match|]|]; crunch H1 H2 H3.
  - unfold __PROT. repeat case_match; crunch H1 H2 H3.
  - destruct (replies_due s) as [|n] eqn:Er; [|unfold AUTH_replied]; crunch H1 H2 H3.
  - destruct (handshakes_due s) as [|n] eqn:Eh.
    + crunch H1 H2 H3. all: by destruct err.
    + unfold starttls_callback.
      destruct err; [|destruct authorized; [|destruct allow]]; cbn [negb];
        crunch H1 H2 H3.
Qed.

Lemma run_inv (es : list event) (s : t) (past : list event) :
  inv s past -> inv (state_after s es) (past ++ es).
Proof.
  revert s past. induction es as [|e es IH]; intros s past H.
  - by rewrite app_nil_r.
  - unfold Tls.state_after. cbn [Tls.run].
    destruct (step s e) as [s1 a] eqn:E. 
    specialize (IH s1 (past ++ [e])%list). unfold Tls.state_after in IH.
    destruct (Tls.run allow rt s1 es) as [s2 rest]. cbn [fst] in *.
    rewrite <- app_assoc in IH. apply IH.
    pose proof (step_inv s past e H) as H'. by rewrite E in H'.
Qed.

(** X19. PROT is answered 200 only for the level P, on a server with TLS
    options, after a PBSZ on a connection that is secure; and a connection is
    secure only when the client has sent AUTH TLS and a handshake has ended
    without error, for an authorized peer or under [allowUnauthorizedTls]. *)
Theorem PROT_needs_a_finished_handshake (tls : bool) (es : list event)
    (commandArg : string) :
  let s := state_after (create tls) es in
  (__PROT s commandArg).2 = [Respond "200 OK"] ->
  commandArg = "P"
  /\ pbszReceived s = true
  /\ secure s = true
  /\ tlsOptions s = true
  /\ existsb (secures allow) es = true
  /\ existsb asks_for_tls es = true.
Proof.
  intros s Hok.
  destruct (run_inv es (create tls) []) as (H1 & H2 & _).
  { unfold Tls.inv. cbn. repeat split; intros; try lia; congruence. }
  cbn [app] in *. fold s in H1, H2.
  unfold __PROT in Hok.
  destruct (tlsOptions s); [|discriminate Hok]. cbn [negb] in Hok.
  destruct (pbszReceived s); [|discriminate Hok]. cbn [negb] in Hok.
  destruct (H2 (H1 eq_refl)) as (_ & Hs & Ha).
  repeat split; try done; try (by apply H1).
  repeat case_match; try discriminate Hok. by apply String.eqb_eq.
Qed.

End WithServer.

Lemma PROT_needs_a_finished_handshake_witness :
  let es := [AUTH "TLS"; Replied234; Handshake false true; PBSZ "0"] in
  let s := Tls.state_after false Session.ascii_only (create true) es in
  (__PROT s "P").2 = [Respond "200 OK"]
  /\ secure s = true
  /\ existsb (secures false) es = true.
Proof.
  pose proof (PROT_needs_a_finished_handshake false Session.ascii_only true
                [AUTH "TLS"; Replied234; Handshake false true; PBSZ "0"] "P" eq_refl)
    as (_ & _ & H3 & _ & H5 & _).
  split; [reflexivity|split; [exact H3 | exact H5]].
Defined.

End TlsFacts.

(** ** Further properties of the pool *)

Module PoolMore.
Import Pool JsMapFacts.

Lemma onReady_waiting (l : Lst.t) :
  Lst._waitingConnections (Lst._onReady l).1 = Lst._waitingConnections l.
Proof.
  unfold Lst._onReady.
  match goal with |- context [Lst.run_stopHooks ?n ?l0] =>
    pose proof (LstFacts.run_stopHooks_waiting n l0) as H;
    destruct (Lst.run_stopHooks n l0) as [l2 o2] end.
  cbn [fst] in *. rewrite H. by destruct (Lst._server l).
Qed.

Lemma listener_at_with_listener (w : world) (p : Z) (l : Lst.t) (h : Lst.heap) :
  listener_at (pool (with_listener w p l h)) p = l.
Proof. unfold listener_at, with_listener. cbn. by rewrite lookup_insert_eq. Qed.

Section Run.
Variable bind : Z -> bind_result.
Variable now : Z.
Variable remoteAddress : string.
Variable o : Conn.options.

Abbreviation attempt := (Pool.attempt bind now remoteAddress o).
Abbreviation verdict_of := (Pool.verdict_of bind remoteAddress).
Abbreviation collides := (Pool.collides remoteAddress).
Abbreviation frame := (Pool.frame now remoteAddress o).

Lemma frame_collides (w w1 : world) (p q : Z) :
  frame w p w1 -> q <> p -> collides w1 q = collides w q.
Proof.
  intros Hf Hq. unfold Pool.collides.
  by rewrite (PoolFacts.frame_listener_at now remoteAddress o w w1 p q Hf Hq).
Qed.

Lemma verdict_Free_collides (w : world) (p : Z) :
  verdict_of w p = Free -> collides w p = false.
Proof. unfold Pool.verdict_of. by destruct (collides w p). Qed.

(** A port that is free for the address has the new connection filed as its
    waiter when the attempt is over. *)
Lemma free_port_is_taken (more : nat) (w : world) (p : Z) :
  verdict_of w p = Free -> collides (attempt more w p).1 p = true.
Proof.
  intros V. pose proof (verdict_Free_collides w p V) as Hhas.
  unfold Pool.verdict_of in V. rewrite Hhas in V. unfold is_listening in V.
  unfold Pool.collides in Hhas.
  rewrite PoolFacts.attempt_unfold.
  set (l := listener_at (pool w) p) in *.
  destruct (LstMore.listenForClient_files now l (conns w) remoteAddress o Hhas)
    as (l1 & out & E & Hw & _ & Hp & _).
  assert (Hk : JsMap.get (Lst.key (Lst.port l) remoteAddress)
                 (Lst._waitingConnections l1) = Some (length (conns w)))
    by (by rewrite Hw, get_set_eq).
  rewrite (PoolFacts.startListener_eq now remoteAddress o w p _ _ _ _ E).
  unfold await.
  destruct (decide (Lst.state l = Lst.LISTENING)) as [Hst|Hst].
  - destruct (PoolFacts.listenForClient_listening now l (conns w) remoteAddress o
                Hhas Hst) as [l1' E'].
    rewrite E in E'. injection E' as <- ->.
    cbn [first_signal]. rewrite decide_True by done. cbn [fst].
    unfold Pool.collides. rewrite listener_at_with_listener, Hp.
    unfold JsMap.has. by rewrite Hk.
  - rewrite bool_decide_eq_false_2 in V by done.
    destruct (PoolFacts.listenForClient_binding now l (conns w) remoteAddress o
                Hhas Hst) as (l1' & out1 & E' & Hsig & _).
    rewrite E in E'. injection E' as <- <-. rewrite Hsig.
    destruct (bind p) as [|e] eqn:Hb; [|by destruct (bool_decide _)].
    pose proof (PoolFacts.onReady_signal l1 _ _ Hk) as Hfirst.
    pose proof (onReady_waiting l1) as Hw2.
    pose proof (PoolFacts.onReady_port l1) as Hp2.
    unfold settle. rewrite listener_at_with_listener.
    destruct (Lst._onReady l1) as [l2 out2]. cbn [fst snd] in *.
    rewrite Hfirst. cbn [fst].
    unfold Pool.collides, listener_at. cbn. rewrite lookup_insert_eq.
    rewrite Hp2, Hp, Hw2. unfold JsMap.has. by rewrite Hk.
Qed.

(** An attempt that ends with a connection has found it at this port, or
    goes on from the next one. *)
Lemma attempt_ok_step (more : nat) (w w' : world) (p : Z) (c : nat) :
  attempt more w p = (w', Callback_ok c) ->
  (collides w p = false /\ collides w' p = true
   /\ conns w' !! c
      = Some (Conn.create now (Lst.port (listener_at (pool w) p)) remoteAddress o))
  \/ (exists more' w1,
        more = S more' /\ frame w p w1
        /\ attempt more' w1 (p + 1) = (w', Callback_ok c)).
Proof.
  intros Hok.
  destruct (PoolFacts.attempt_cases bind now remoteAddress o more w p)
    as (w1 & Hf & Hcase).
  pose proof (free_port_is_taken more w p) as Htaken.
  destruct (verdict_of w p) eqn:V.
  - left. rewrite Hok in Hcase, Htaken. injection Hcase as -> ->.
    split; [by apply verdict_Free_collides|].
    split; [by apply Htaken|].
    destruct Hf as (_ & _ & _ & _ & ->). apply LstFacts.heap_new.
  - right. destruct Hcase as (e & _ & Hcase). rewrite Hok in Hcase.
    destruct (p <? _maxPort (pool w)); [|discriminate Hcase].
    destruct more as [|more']; [discriminate Hcase|].
    exists more', w1. by split; [|split].
  - rewrite Hok in Hcase. discriminate Hcase.
Qed.

(** Where an attempt that ends with a connection has found it. *)
Lemma attempt_ok (more : nat) (w w' : world) (p : Z) (c : nat) :
  attempt more w p = (w', Callback_ok c) ->
  exists q,
    p <= q
    /\ collides w q = false
    /\ collides w' q = true
    /\ conns w' !! c
       = Some (Conn.create now (Lst.port (listener_at (pool w) q)) remoteAddress o).
Proof.
  revert w p. induction more as [|more IH]; intros w p Hok.
  - destruct (attempt_ok_step _ _ _ _ _ Hok) as [H|(more' & w1 & [=] & _)].
    exists p. split; [lia|done].
  - destruct (attempt_ok_step _ _ _ _ _ Hok) as [H|(more' & w1 & [= <-] & Hf & Hnext)].
    + exists p. split; [lia|done].
    + destruct (IH w1 (p + 1) Hnext) as (q & Hq & H1 & H2 & H3).
      exists q. split; [lia|].
      rewrite (frame_collides w w1 p q Hf) in H1 by lia.
      rewrite (PoolFacts.frame_listener_at now remoteAddress o w w1 p q Hf) in H3 by lia.
      done.
Qed.

(** X23. With a range whose end lies below its start, only the first port is
    tried: the call ends with a connection on [_minPort] when that port is
    free for the address, with the error of the bind when it fails otherwise,
    and with EADDRINUSE when the port is taken.  No other port is touched. *)
Theorem inverted_range_tries_one_port (w : world) :
  wf (pool w) ->
  _maxPort (pool w) < _minPort (pool w) ->
  let r := createDataConnection bind now remoteAddress o w in
  (forall q, q <> _minPort (pool w) ->
             _listeners (pool r.1) !! q = _listeners (pool w) !! q)
  /\ match verdict_of w (_minPort (pool w)) with
     | Free =>
         exists c conn,
           r.2 = Callback_ok c /\ conns r.1 !! c = Some conn
           /\ Conn.port conn = _minPort (pool w)
           /\ Conn.remoteAddress conn = remoteAddress
     | Broken e => r.2 = Callback_error e
     | Busy => exists e, r.2 = Callback_error e /\ Conn.code e = Some "EADDRINUSE"
     end.
Proof.
  intros Hwf Hinv r. subst r. unfold createDataConnection.
  replace (Z.to_nat (_maxPort (pool w) - _minPort (pool w))) with O by lia.
  destruct (PoolFacts.attempt_cases bind now remoteAddress o O w (_minPort (pool w)))
    as (w1 & Hf & Hcase).
  assert (Hlt : (_minPort (pool w) <? _maxPort (pool w)) = false) by lia.
  destruct (verdict_of w (_minPort (pool w))) eqn:V.
  - rewrite Hcase. cbn [fst snd]. destruct Hf as (_ & _ & _ & Hl & Hc).
    split; [exact Hl|]. eexists _, _. split; [done|]. rewrite Hc.
    split; [apply LstFacts.heap_new|]. cbn.
    by rewrite PoolFacts.wf_listener_port.
  - destruct Hcase as (e & He & Hcase). rewrite Hlt in Hcase. rewrite Hcase.
    cbn [fst snd]. destruct Hf as (_ & _ & _ & Hl & _). split; [exact Hl|]. eauto.
  - rewrite Hcase. cbn [fst snd]. by destruct Hf as (_ & _ & _ & Hl & _).
Qed.

End Run.

(** X20. Two requests for the same client address, the second while the
    connection of the first still waits for its socket, never get the same
    port: if both end with a connection, the two connections have different
    ports. *)
Theorem second_request_gets_another_port
    (bind1 bind2 : Z -> bind_result) (now1 now2 : Z) (remoteAddress : string)
    (o1 o2 : Conn.options) (w : world) (c1 c2 : nat) (conn1 conn2 : Conn.t) :
  wf (pool w) ->
  let r1 := createDataConnection bind1 now1 remoteAddress o1 w in
  let r2 := createDataConnection bind2 now2 remoteAddress o2 r1.1 in
  r1.2 = Callback_ok c1 -> conns r1.1 !! c1 = Some conn1 ->
  r2.2 = Callback_ok c2 -> conns r2.1 !! c2 = Some conn2 ->
  Conn.port conn1 <> Conn.port conn2
  /\ Conn.remoteAddress conn1 = remoteAddress
  /\ Conn.remoteAddress conn2 = remoteAddress.
Proof.
  intros Hwf r1 r2 Hr1 Hc1 Hr2 Hc2.
  assert (Hwf1 : wf (pool r1.1)) by (by apply PoolFacts.createDataConnection_wf).
  destruct r1 as [w1 res1] eqn:E1. destruct r2 as [w2 res2] eqn:E2.
  cbn [fst snd] in *. subst res1 res2.
  unfold createDataConnection in E1, E2.
  destruct (attempt_ok _ _ _ _ _ _ _ _ _ E1) as (q1 & _ & _ & Ht1 & Hh1).
  destruct (attempt_ok _ _ _ _ _ _ _ _ _ E2) as (q2 & _ & Hf2 & _ & Hh2).
  rewrite Hc1 in Hh1. rewrite Hc2 in Hh2.
  injection Hh1 as ->. injection Hh2 as ->. cbn.
  rewrite !PoolFacts.wf_listener_port by done.
  repeat split. intros ->. congruence.
Qed.

Lemma second_request_gets_another_port_witness :
  let w := {| pool := create None (Some 44001, Some 44003); conns := [] |} in
  let r1 := createDataConnection (fun _ => Bound) 0 "192.168.1.20" Words.plain w in
  let r2 := createDataConnection (fun _ => Bound) 50 "192.168.1.20" Words.plain r1.1 in
  r1.2 = Callback_ok 0%nat
  /\ r2.2 = Callback_ok 2%nat
  /\ Conn.port <$> conns r2.1 !! 0%nat = Some 44001
  /\ Conn.port <$> conns r2.1 !! 2%nat = Some 44002
  /\ 44001 <> 44002.
Proof.
  pose proof (second_request_gets_another_port (fun _ => Bound) (fun _ => Bound)
                0 50 "192.168.1.20" Words.plain Words.plain
                {| pool := create None (Some 44001, Some 44003); conns := [] |}
                0 2
                (Conn.create 0 44001 "192.168.1.20" Words.plain)
                (Conn.create 50 44002 "192.168.1.20" Words.plain)
                (PoolFacts.wf_create None (Some 44001, Some 44003))
                eq_refl eq_refl eq_refl eq_refl) as (H & _).
  repeat split; try reflexivity. exact H.
Defined.

Lemma inverted_range_tries_one_port_witness :
  let w := {| pool := create None (Some 44005, Some 44001); conns := [] |} in
  let r := createDataConnection bind_44001_taken 0 "192.168.1.20" Words.plain w in
  verdict_of bind_44001_taken "192.168.1.20" w 44005 = Free
  /\ exists c conn,
       r.2 = Callback_ok c /\ conns r.1 !! c = Some conn /\ Conn.port conn = 44005.
Proof.
  pose proof (inverted_range_tries_one_port bind_44001_taken 0 "192.168.1.20"
                Words.plain
                {| pool := create None (Some 44005, Some 44001); conns := [] |}
                (PoolFacts.wf_create None (Some 44005, Some 44001))
                ltac:(cbn; lia)) as [_ H].
  split; [reflexivity|].
  destruct H as (c & conn & H1 & H2 & H3 & _). by exists c, conn.
Defined.

End PoolMore.

(** ** The command line *)

Module ParseFacts.
Import Js Session Words.

Lemma spaceless_cons (c : ascii) (s : string) :
  spaceless (String c s) = true <-> is_space c = false /\ spaceless s = true.
Proof.
  unfold spaceless. cbn. rewrite andb_true_iff, negb_true_iff. done.
Qed.

Lemma blank_cons (c : ascii) (s : string) :
  blank (String c s) = true <-> is_space c = true /\ blank s = true.
Proof. unfold blank. cbn. by rewrite andb_true_iff. Qed.

Lemma trimStart_blank (pre x : string) :
  blank pre = true -> trimStart (pre +:+ x) = trimStart x.
Proof.
  induction pre as [|c pre IH]; [done|].
  intros [Hc Hp]%blank_cons. rewrite AddressMore.append_cons. cbn [trimStart].
  rewrite Hc. by apply IH.
Qed.

Lemma trimStart_word (verb x : string) :
  spaceless verb = true -> verb <> "" -> trimStart (verb +:+ x) = verb +:+ x.
Proof.
  destruct verb as [|c verb]; [done|].
  intros [Hc _]%spaceless_cons _. rewrite AddressMore.append_cons. cbn [trimStart].
  by rewrite Hc.
Qed.

Lemma trimEnd_spaceless (w r : string) :
  spaceless w = true -> trimEnd (w +:+ r) = w +:+ trimEnd r.
Proof.
  induction w as [|c w IH]; [done|].
  intros [Hc Hw]%spaceless_cons. rewrite !AddressMore.append_cons. cbn [trimEnd].
  rewrite (IH Hw), Hc. by destruct (w +:+ trimEnd r).
Qed.

Lemma trimEnd_blank (s : string) : blank s = true -> trimEnd s = "".
Proof.
  induction s as [|c s IH]; [done|].
  intros [Hc Hs]%blank_cons. cbn [trimEnd]. by rewrite (IH Hs), Hc.
Qed.

Lemma trimEnd_nil (c : ascii) (s : string) :
  trimEnd (String c s) = "" -> is_space c = true /\ trimEnd s = "".
Proof.
  cbn [trimEnd]. destruct (trimEnd s); [|done]. by destruct (is_space c).
Qed.

Lemma trimEnd_nil_trimStart (s : string) : trimEnd s = "" -> trimStart s = "".
Proof.
  induction s as [|c s IH]; [done|].
  intros [Hc Hs]%trimEnd_nil. cbn [trimStart]. rewrite Hc. by apply IH.
Qed.

Lemma trimEnd_idemp (s : string) : trimEnd (trimEnd s) = trimEnd s.
Proof.
  induction s as [|c s IH]; [done|]. cbn [trimEnd].
  destruct (trimEnd s) as [|d r] eqn:E.
  - destruct (is_space c) eqn:Hc; [done|]. cbn. by rewrite Hc.
  - cbn [trimEnd] in *. by rewrite IH.
Qed.

Lemma trimEnd_head (c : ascii) (s : string) :
  is_space c = false -> exists r, trimEnd (String c s) = String c r.
Proof. intros Hc. cbn [trimEnd]. rewrite Hc. destruct (trimEnd s); eauto. Qed.

Lemma trimStart_trimEnd (s : string) : trimStart (trimEnd s) = trimEnd (trimStart s).
Proof.
  induction s as [|c s IH]; [done|].
  destruct (is_space c) eqn:Hc.
  - cbn [trimStart]. rewrite Hc, <- IH. cbn [trimEnd].
    destruct (trimEnd s) as [|d r]; [by rewrite Hc|].
    cbn [trimStart]. by rewrite Hc.
  - cbn [trimStart]. rewrite Hc.
    destruct (trimEnd_head c s Hc) as (r & ->). cbn [trimStart]. by rewrite Hc.
Qed.

Lemma trim_trimEnd (s : string) :
  trimEnd (trimStart (trimEnd s)) = trimEnd (trimStart s).
Proof. by rewrite <- !trimStart_trimEnd, trimEnd_idemp. Qed.

(** *** Text of the ASCII range *)

Lemma ascii_text_cons (c : ascii) (s : string) :
  ascii_text (String c s) = is_ascii c && ascii_text s.
Proof. reflexivity. Qed.

Lemma ascii_text_app (a b : string) :
  ascii_text (a +:+ b) = ascii_text a && ascii_text b.
Proof.
  induction a as [|c a IH]; [done|].
  by rewrite AddressMore.append_cons, !ascii_text_cons, IH, andb_assoc.
Qed.

Lemma is_space_ascii (c : ascii) : is_space c = true -> is_ascii c = true.
Proof.
  unfold is_space, is_ascii. intros H. apply Nat.ltb_lt.
  apply orb_true_iff in H as [[_ H]%andb_prop|H].
  - apply Nat.leb_le in H. lia.
  - apply Nat.eqb_eq in H. lia.
Qed.

Lemma blank_ascii (s : string) : blank s = true -> ascii_text s = true.
Proof.
  induction s as [|c s IH]; [done|].
  intros [Hc Hs]%blank_cons. by rewrite ascii_text_cons, (is_space_ascii c Hc), IH.
Qed.

Lemma ascii_trimEnd (s : string) : ascii_text s = true -> ascii_text (trimEnd s) = true.
Proof.
  induction s as [|c s IH]; [done|].
  rewrite ascii_text_cons. intros [Hc Hs]%andb_prop. cbn [trimEnd].
  specialize (IH Hs). destruct (trimEnd s) as [|d r].
  - destruct (is_space c); [done|]. by rewrite ascii_text_cons, Hc.
  - by rewrite ascii_text_cons, Hc, IH.
Qed.

Lemma trim_ascii (rt : runtime) (s : string) :
  ascii_text s = true -> trim rt s = trimEnd (trimStart s).
Proof. unfold trim. by intros ->. Qed.

Lemma toUpperCase_ascii (rt : runtime) (s : string) :
  ascii_text s = true -> toUpperCase rt s = upper_text s.
Proof. unfold toUpperCase. by intros ->. Qed.

Lemma Buffer_toString_ascii (rt : runtime) (s : string) :
  ascii_text s = true -> Buffer_toString rt s = s.
Proof. unfold Buffer_toString. by intros ->. Qed.

Lemma split_nonempty (sep : ascii) (s : string) : split sep s <> [].
Proof.
  induction s as [|c s IH]; [done|]. cbn [split].
  destruct (Ascii.eqb c sep); [done|]. by destruct (split sep s).
Qed.

(** Joining what [split] has cut gives the text back. *)
Lemma join_split (sep : ascii) (s : string) :
  join (String sep "") (split sep s) = s.
Proof.
  induction s as [|c s IH]; [done|]. cbn [split].
  pose proof (split_nonempty sep s) as Hne.
  destruct (Ascii.eqb c sep) eqn:E.
  - apply Ascii.eqb_eq in E as ->. destruct (split sep s) as [|p ps]; [done|].
    cbn [join] in *. by rewrite IH.
  - destruct (split sep s) as [|p ps]; [done|].
    destruct ps as [|p' ps]; cbn [join] in *; [by rewrite IH|].
    by rewrite AddressMore.append_cons, IH.
Qed.

Lemma append_nil_r (s : string) : s +:+ "" = s.
Proof.
  induction s as [|c s IH]; [done|]. by rewrite AddressMore.append_cons, IH.
Qed.

Lemma spaceless_contains (s : string) :
  spaceless s = true -> contains " " s = false.
Proof.
  induction s as [|c s IH]; [done|].
  intros [Hc Hs]%spaceless_cons. cbn [contains]. rewrite (IH Hs), orb_false_r.
  apply Ascii.eqb_neq. intros ->. discriminate Hc.
Qed.

(** X22. How [_onData] reads a line of ASCII text: white space before the
    command word and at the end of the line is dropped, the letters a to z of
    the command word are put in upper case, and the argument is everything
    after the first space, with the white space at its ends dropped and the
    spaces inside it kept.  A line with only white space after the command
    word has the empty argument. *)
Theorem parseCommand_reads_the_line (srv : server) (pre verb : string) :
  blank pre = true -> spaceless verb = true -> verb <> "" ->
  ascii_text verb = true ->
  (forall arg,
      ascii_text arg = true ->
      parseCommand srv (pre +:+ verb +:+ " " +:+ arg)
      = (upper_text verb, trimEnd (trimStart arg)))
  /\ (forall post,
        blank post = true ->
        parseCommand srv (pre +:+ verb +:+ post) = (upper_text verb, "")).
Proof.
  intros Hpre Hverb Hne Hascii. pose proof (blank_ascii pre Hpre) as Hpa. split.
  - intros arg Harg.
    assert (Hline : ascii_text (pre +:+ verb +:+ " " +:+ arg) = true).
    { by rewrite !ascii_text_app, Hpa, Hascii, Harg. }
    assert (Hdata : trim (js srv) (Buffer_toString (js srv) (pre +:+ verb +:+ " " +:+ arg))
                    = verb +:+ trimEnd (String " " arg)).
    { rewrite Buffer_toString_ascii, trim_ascii by done.
      rewrite trimStart_blank, trimStart_word, trimEnd_spaceless by done.
      by rewrite (AddressMore.append_cons " " ""), AddressMore.append_nil. }
    unfold parseCommand. rewrite Hdata. cbn [trimEnd].
    pose proof (ascii_trimEnd arg Harg) as Hr.
    destruct (trimEnd arg) as [|d r] eqn:E.
    + cbn [is_space nat_of_ascii]. cbn. rewrite append_nil_r.
      rewrite LstFacts.split_without by (by apply spaceless_contains).
      cbn [hd tl join]. rewrite toUpperCase_ascii, trim_ascii by done.
      by rewrite (trimEnd_nil_trimStart arg E).
    + rewrite AddressMore.split_cons by (by apply spaceless_contains).
      cbn [hd tl]. rewrite join_split, toUpperCase_ascii, trim_ascii by done.
      by rewrite <- E, trim_trimEnd.
  - intros post Hpost. pose proof (blank_ascii post Hpost) as Hposta.
    assert (Hdata : trim (js srv) (Buffer_toString (js srv) (pre +:+ verb +:+ post))
                    = verb).
    { rewrite Buffer_toString_ascii, trim_ascii
        by (by rewrite !ascii_text_app, Hpa, Hascii, Hposta).
      rewrite trimStart_blank, trimStart_word, trimEnd_spaceless by done.
      by rewrite (trimEnd_blank post Hpost), append_nil_r. }
    unfold parseCommand. rewrite Hdata.
    rewrite LstFacts.split_without by (by apply spaceless_contains).
    cbn [hd tl join]. by rewrite toUpperCase_ascii, trim_ascii by done.
Qed.

Lemma parseCommand_reads_the_line_witness :
  parseCommand srv0 ("  " +:+ "retr" +:+ " " +:+ "my  file.txt" +:+ "")
  = ("RETR", "my  file.txt")
  /\ parseCommand srv0 ("" +:+ "quit" +:+ String "013" (String "010" ""))
     = ("QUIT", "").
Proof.
  destruct (parseCommand_reads_the_line srv0 "  " "retr") as [H1 _];
    [reflexivity..|done|reflexivity|].
  destruct (parseCommand_reads_the_line srv0 "" "quit") as [_ H2];
    [reflexivity..|done|reflexivity|].
  split; [exact (H1 "my  file.txt" eq_refl)
         | exact (H2 (String "013" (String "010" "")) eq_refl)].
Defined.

End ParseFacts.
